(** * TsMiniProject: the project store, its listeners, validation, the
    input form and the components of [src/app.ts], embedded in Rocq.

    The embedding follows the TypeScript source function by function.
    JavaScript strings are sequences of UTF-16 code units, numbers are
    IEEE doubles seen as extended rationals with a NaN, arrays and
    [Project] objects live in a heap because the program shares them by
    reference, and the document is a forest of elements, each with its
    identity, that the components change through the references they
    keep. *)

From Stdlib Require Import ZArith QArith Qreduction Lia String Ascii DecimalString.
From stdpp Require Import base option list.

Close Scope Q_scope.
Open Scope nat_scope.

(** ** Strings *)

(** A JavaScript string: its UTF-16 code units. *)
Definition jsstring := list N.

(** The code units of a literal written in the source. *)
Definition u16 (s : string) : jsstring :=
  map N_of_ascii (list_ascii_of_string s).

(** Code points removed by [String.prototype.trim]: WhiteSpace (TAB, VT, FF,
    ZWNBSP and the space separators) and LineTerminator (LF, CR, LS, PS).
    All of them are single code units. *)
Definition isWhiteSpace (c : N) : bool :=
  ((c =? 0x09) || (c =? 0x0A) || (c =? 0x0B) || (c =? 0x0C) || (c =? 0x0D)
   || (c =? 0x20) || (c =? 0xA0) || (c =? 0x1680)
   || ((0x2000 <=? c) && (c <=? 0x200A))
   || (c =? 0x2028) || (c =? 0x2029) || (c =? 0x202F) || (c =? 0x205F)
   || (c =? 0x3000) || (c =? 0xFEFF))%N.

Arguments isWhiteSpace : simpl never.

Fixpoint trimStart (s : jsstring) : jsstring :=
  match s with
  | [] => []
  | c :: r => if isWhiteSpace c then trimStart r else s
  end.

Definition trimEnd (s : jsstring) : jsstring := rev (trimStart (rev s)).

(** [s.trim()] *)
Definition trim (s : jsstring) : jsstring := trimEnd (trimStart s).

(** ** Numbers *)

(** A JavaScript number.  Every finite double is a rational and the
    comparisons of doubles are exact, so finite values are carried as
    rationals ([-0] and [+0] are both [Fin 0]: the program cannot tell them
    apart, [===], [<], [>] and [toString] agree on them). *)
Inductive number :=
  | NaN
  | NegInfinity
  | Fin (q : Q)
  | PosInfinity.

Definition of_Z (z : Z) : number := Fin (inject_Z z).

(** [s.length] as a number. *)
Definition of_len (n : nat) : number := of_Z (Z.of_nat n).

(** [a < b] of JavaScript: false as soon as one side is NaN. *)
Definition js_lt (a b : number) : bool :=
  match a, b with
  | NaN, _ | _, NaN => false
  | NegInfinity, NegInfinity => false
  | NegInfinity, _ => true
  | _, NegInfinity => false
  | PosInfinity, _ => false
  | Fin _, PosInfinity => true
  | Fin x, Fin y => negb (Qle_bool y x)
  end.

(** [a > b] *)
Definition js_gt (a b : number) : bool := js_lt b a.

(** [a === b] on two numbers. *)
Definition strict_eq (a b : number) : bool :=
  match a, b with
  | Fin x, Fin y => Qeq_bool x y
  | PosInfinity, PosInfinity => true
  | NegInfinity, NegInfinity => true
  | _, _ => false
  end.

(** The order of the extended reals, as a proposition: what "strictly less"
    means for two numbers.  NaN is related to nothing. *)
Definition num_lt (a b : number) : Prop :=
  match a, b with
  | NaN, _ | _, NaN => False
  | NegInfinity, NegInfinity => False
  | NegInfinity, _ => True
  | _, NegInfinity => False
  | PosInfinity, _ => False
  | Fin _, PosInfinity => True
  | Fin x, Fin y => (x < y)%Q
  end.

(** Numeric equality, as a proposition. *)
Definition num_eq (a b : number) : Prop :=
  match a, b with
  | Fin x, Fin y => (x == y)%Q
  | PosInfinity, PosInfinity => True
  | NegInfinity, NegInfinity => True
  | _, _ => False
  end.

(** What the program takes from the JavaScript runtime and does not define:
    the unary [+] on a string (StringToNumber) and the digits that
    [Number.prototype.toString] prints for a finite number that is not a
    safe integer (shortest round-trip digits, exponent form). *)
Class JsRuntime := {
  StringToNumber : jsstring -> number;
  NonSafeIntegerToString : Q -> jsstring
}.

(** [Number.isSafeInteger]: an integer of magnitude below 2^53.  Such a
    number is printed as its decimal digits. *)
Definition isSafeInteger (q : Q) : bool :=
  (Z.pos (Qden (Qred q)) =? 1)%Z && (Z.abs (Qnum (Qred q)) <? 2 ^ 53)%Z.

(** [n.toString()], also used by a template literal. *)
Definition Number_toString `{JsRuntime} (n : number) : jsstring :=
  match n with
  | NaN => u16 "NaN"
  | PosInfinity => u16 "Infinity"
  | NegInfinity => u16 "-Infinity"
  | Fin q =>
      if isSafeInteger q
      then u16 (NilZero.string_of_int (Z.to_int (Qnum (Qred q))))
      else NonSafeIntegerToString q
  end.

(** ** Validation *)

(** [string | number] *)
Inductive strnum :=
  | Str (s : jsstring)
  | Num (n : number).

Module Validatable.

(** [interface Validatable]; an optional property is an [option]
    ([None] for a missing, undefined or null one). *)
Record t := mk {
  value : strnum;
  required : option bool;
  minLength : option number;
  maxLength : option number;
  min : option number;
  max : option number
}.

End Validatable.

(** [value.toString()] *)
Definition strnum_toString `{JsRuntime} (v : strnum) : jsstring :=
  match v with
  | Str s => s
  | Num n => Number_toString n
  end.

(** Truthiness of an optional boolean property. *)
Definition truthy (b : option bool) : bool :=
  match b with Some true => true | _ => false end.

Definition validate `{JsRuntime} (validatableInput : Validatable.t) : bool :=
  let isValid := true in
  let isValid :=
    if truthy (Validatable.required validatableInput)
    then isValid &&
         negb (length (trim (strnum_toString (Validatable.value validatableInput))) =? 0)
    else isValid in
  let isValid :=
    match Validatable.minLength validatableInput, Validatable.value validatableInput with
    | Some bound, Str s => isValid && js_gt (of_len (length s)) bound
    | _, _ => isValid
    end in
  let isValid :=
    match Validatable.maxLength validatableInput, Validatable.value validatableInput with
    | Some bound, Str s => isValid && js_lt (of_len (length s)) bound
    | _, _ => isValid
    end in
  let isValid :=
    match Validatable.min validatableInput, Validatable.value validatableInput with
    | Some bound, Num n => isValid && js_gt n bound
    | _, _ => isValid
    end in
  let isValid :=
    match Validatable.max validatableInput, Validatable.value validatableInput with
    | Some bound, Num n => isValid && js_lt n bound
    | _, _ => isValid
    end in
  isValid.

(** ** Projects *)

(** [enum ProjectStatus] *)
Inductive ProjectStatus :=
  | Active
  | Finished.

Definition ProjectStatus_eqb (a b : ProjectStatus) : bool :=
  match a, b with
  | Active, Active | Finished, Finished => true
  | _, _ => false
  end.

Module Project.

(** [class Project]: five public, assignable fields. *)
Record t := mk {
  id : jsstring;
  title : jsstring;
  description : jsstring;
  people : number;
  status : ProjectStatus
}.

End Project.

(** ** The document *)

(** The part of the DOM that the components use.  A forest of elements in
    document order: a tree has the fields of its root (the key is the
    identity of the element object, which a reference designates), the
    content of the template when the element is one, its children, and the
    siblings that follow it.  Text nodes are kept as the text of their
    parent. *)
Inductive Forest :=
  | Empty
  | Tree (k : nat) (t : string) (i x : jsstring) (c ch sib : Forest).

(** An element: the root of a tree and what hangs under it. *)
Record Element := mkElement {
  key : nat;
  tag : string;
  eid : jsstring;
  text : jsstring;
  content : Forest;
  children : Forest
}.

(** The tree of an element, followed by [sib]. *)
Definition plant (e : Element) (sib : Forest) : Forest :=
  Tree (key e) (tag e) (eid e) (text e) (content e) (children e) sib.

(** [A] followed by [B]. *)
Fixpoint fapp (A B : Forest) : Forest :=
  match A with
  | Empty => B
  | Tree k t i x c ch sib => Tree k t i x c ch (fapp sib B)
  end.

(** The elements at the top of a forest, in order. *)
Fixpoint roots (F : Forest) : list Element :=
  match F with
  | Empty => []
  | Tree k t i x c ch sib => mkElement k t i x c ch :: roots sib
  end.

(** The keys of the elements of a forest, in document order (what is in
    the content of a template is not in the document). *)
Fixpoint keys (F : Forest) : list nat :=
  match F with
  | Empty => []
  | Tree k t i x c ch sib => k :: keys ch ++ keys sib
  end.

Fixpoint jsstring_eqb (a b : jsstring) : bool :=
  match a, b with
  | [], [] => true
  | x :: a', y :: b' => (x =? y)%N && jsstring_eqb a' b'
  | _, _ => false
  end.

(** What the program selects elements by: an id ([getElementById],
    ["#title"]), a tag name (["h2"]), or a reference it holds. *)
Inductive Selector :=
  | ById (i : jsstring)
  | ByTag (t : string)
  | ByKey (k : nat).

Definition matches (sel : Selector) (e : Element) : bool :=
  match sel with
  | ById i => jsstring_eqb (eid e) i
  | ByTag t => String.eqb (tag e) t
  | ByKey k => key e =? k
  end.

(** The first element of the forest, in document order, that the selector
    matches. *)
Fixpoint query (sel : Selector) (F : Forest) : option Element :=
  match F with
  | Empty => None
  | Tree k t i x c ch sib =>
      if matches sel (mkElement k t i x c ch)
      then Some (mkElement k t i x c ch)
      else match query sel ch with
           | Some r => Some r
           | None => query sel sib
           end
  end.

(** [document.getElementById(i)]; no element has the empty id. *)
Definition getElementById (i : jsstring) (doc : Forest) : option Element :=
  match i with
  | [] => None
  | _ => query (ById i) doc
  end.

(** [e.querySelector(...)]: among the descendants of [e]. *)
Definition querySelector (sel : Selector) (e : Element) : option Element :=
  query sel (children e).

(** A change made through a reference: [f] is applied to the element whose
    key is [k]. *)
Fixpoint modify (k : nat) (f : Element -> Element) (F : Forest) : Forest :=
  match F with
  | Empty => Empty
  | Tree k' t i x c ch sib =>
      if k' =? k
      then plant (f (mkElement k' t i x c ch)) (modify k f sib)
      else Tree k' t i x c (modify k f ch) (modify k f sib)
  end.

(** [e.id = i] *)
Definition set_id (i : jsstring) (e : Element) : Element :=
  mkElement (key e) (tag e) i (text e) (content e) (children e).

(** [e.textContent = s]: the children are replaced by the text. *)
Definition set_textContent (s : jsstring) (e : Element) : Element :=
  mkElement (key e) (tag e) (eid e) s (content e) Empty.

(** [e.innerHTML = ""] *)
Definition clear_innerHTML (e : Element) : Element :=
  mkElement (key e) (tag e) (eid e) [] (content e) Empty.

(** [host.insertAdjacentElement("afterbegin" | "beforeend", el)] *)
Definition insertAdjacentElement (afterbegin : bool) (el : Element) (host : Element)
  : Element :=
  mkElement (key host) (tag host) (eid host) (text host) (content host)
    (if afterbegin
     then plant el (children host)
     else fapp (children host) (plant el Empty)).

(** A deep copy: every element of the copy is a new object, with the next
    free keys. *)
Fixpoint clone (n : nat) (F : Forest) : Forest * nat :=
  match F with
  | Empty => (Empty, n)
  | Tree _ t i x c ch sib =>
      let '(c', n1) := clone (S n) c in
      let '(ch', n2) := clone n1 ch in
      let '(sib', n3) := clone n2 sib in
      (Tree n t i x c' ch' sib', n3)
  end.

(** A forest without the identities of its elements: what a deep copy has
    in common with its original (tags, ids, texts, template contents and
    the whole structure). *)
Fixpoint shape (F : Forest) : Forest :=
  match F with
  | Empty => Empty
  | Tree _ t i x c ch sib => Tree 0 t i x (shape c) (shape ch) (shape sib)
  end.

(** [fragment.firstElementChild] *)
Definition firstElementChild (F : Forest) : option Element :=
  match F with
  | Empty => None
  | Tree k t i x c ch _ => Some (mkElement k t i x c ch)
  end.

(** The page: the document and the next free key. *)
Record Page := mkPage {
  document : Forest;
  next_key : nat
}.

(** The result of code that may throw a TypeError (a property of null or
    undefined is used); the page is the one left at that moment. *)
Inductive result (A : Type) :=
  | Ok (a : A) (pg : Page)
  | TypeError (pg : Page).

Arguments Ok {A} a pg.
Arguments TypeError {A} pg.

(** The three references kept by [class Component]. *)
Record Component := mkComponent {
  templateElement : nat;
  hostElement : nat;
  element : nat
}.

(** The constructor of [Component], [attach] included.  [newElementId] is
    the empty text when the argument is missing: both are falsy.  The
    template must be a [template] element ([content] is undefined on the
    others) with an element in its content, and the host must exist. *)
Definition Component_new (templateId hostElementId : jsstring)
    (insertAtStart : bool) (newElementId : jsstring) (pg : Page) : result Component :=
  let templateElement := getElementById templateId (document pg) in
  let hostElement := getElementById hostElementId (document pg) in
  match templateElement with
  | None => TypeError pg
  | Some te =>
      if negb (String.eqb (tag te) "template") then TypeError pg
      else
        let '(importedNode, next) := clone (next_key pg) (content te) in
        match firstElementChild importedNode with
        | None => TypeError (mkPage (document pg) next)
        | Some el =>
            let el := match newElementId with
                      | [] => el
                      | _ => set_id newElementId el
                      end in
            match hostElement with
            | None => TypeError (mkPage (document pg) next)
            | Some host =>
                Ok (mkComponent (key te) (key host) (key el))
                   (mkPage (modify (key host)
                              (insertAdjacentElement insertAtStart el)
                              (document pg))
                           next)
            end
        end
  end.

(** [this.element.querySelector(sel)!.textContent = s], the element being
    reached through the reference the component keeps. *)
Definition set_descendant_text (this_element : nat) (sel : Selector)
    (s : jsstring) (pg : Page) : result unit :=
  match query (ByKey this_element) (document pg) with
  | None => TypeError pg
  | Some e =>
      match querySelector sel e with
      | None => TypeError pg
      | Some target =>
          Ok tt (mkPage (modify (key target) (set_textContent s) (document pg))
                        (next_key pg))
      end
  end.

(** ** The heap *)

(** A reference: the index of an object or of an array in the heap.
    Allocation appends, so a reference is never reused. *)
Abbreviation loc := nat (only parsing).

(** The heap: the [Project] objects, the [Project[]] arrays, an array
    being the sequence of the references it holds, and the document. *)
Record Heap := mkHeap {
  objs : list Project.t;
  arrs : list (list loc);
  page : Page
}.

(** How a call ends. *)
Inductive completion :=
  | Normal
  | Throw.

(** What code outside the store can do to the heap. [SetArray] stands for
    every in-place change of an array (push, pop, splice, sort, an index or
    length assignment): it leaves the array with the given elements.
    [SetObject] stands for assignments to the fields of a [Project],
    [SetPage] for every change of the document: it leaves the page as
    given. *)
Inductive Mutation :=
  | NewObject (p : Project.t)
  | SetObject (o : loc) (p : Project.t)
  | NewArray (items : list loc)
  | SetArray (a : loc) (items : list loc)
  | SetPage (pg : Page).

(** The behaviour of one call of a callback: the mutations it performs, in
    order, and whether it then returns or throws. *)
Record Reaction := mkReaction {
  effects : list Mutation;
  outcome : completion
}.

(** [type Listener<T> = (items: T[]) => void]: a callback is given the
    reference of an array and may look at the whole heap.  It does not
    call back into the store while it is being notified. *)
Definition Listener := loc -> Heap -> Reaction.

(** One invocation of a callback: which one, the array reference it was
    passed and the elements of that array at that moment. *)
Record Call := mkCall {
  callee : Listener;
  argument : loc;
  received : list loc
}.

(** The state of the page: the heap, the array references held by code
    outside the store ([outside]: those passed to a callback and those a
    callback allocated), the invocations made so far, the alerts shown and
    the lines logged. *)
Record World := mkWorld {
  heap : Heap;
  outside : list loc;
  calls : list Call;
  alerts : list jsstring;
  console : list (jsstring * jsstring * number)
}.

Definition set_heap (h : Heap) (w : World) : World :=
  mkWorld h (outside w) (calls w) (alerts w) (console w).

Definition set_objs (os : list Project.t) (w : World) : World :=
  set_heap (mkHeap os (arrs (heap w)) (page (heap w))) w.

Definition set_arrs (ars : list (list loc)) (w : World) : World :=
  set_heap (mkHeap (objs (heap w)) ars (page (heap w))) w.

Definition set_page (pg : Page) (w : World) : World :=
  set_heap (mkHeap (objs (heap w)) (arrs (heap w)) pg) w.

Definition add_outside (a : loc) (w : World) : World :=
  mkWorld (heap w) (outside w ++ [a]) (calls w) (alerts w) (console w).

Definition add_call (c : Call) (w : World) : World :=
  mkWorld (heap w) (outside w) (calls w ++ [c]) (alerts w) (console w).

(** [alert(msg)] *)
Definition alert (msg : jsstring) (w : World) : World :=
  mkWorld (heap w) (outside w) (calls w) (alerts w ++ [msg]) (console w).

(** [console.log(title, desc, people)] *)
Definition console_log (line : jsstring * jsstring * number) (w : World) : World :=
  mkWorld (heap w) (outside w) (calls w) (alerts w) (console w ++ [line]).

(** The elements of the array at [a]. *)
Definition elements (a : loc) (w : World) : list loc :=
  default [] (arrs (heap w) !! a).

(** A mutation made by outside code.  References cannot be forged: an array
    can be changed in place only through a reference held outside the
    store; an assignment to an object needs the object to exist. *)
Definition mutate (w : World) (m : Mutation) : World :=
  match m with
  | NewObject p => set_objs (objs (heap w) ++ [p]) w
  | SetObject o p => set_objs (<[o := p]> (objs (heap w))) w
  | NewArray items =>
      add_outside (length (arrs (heap w))) (set_arrs (arrs (heap w) ++ [items]) w)
  | SetArray a items =>
      if decide (a ∈ outside w)
      then set_arrs (<[a := items]> (arrs (heap w))) w
      else w
  | SetPage pg => set_page pg w
  end.

(** ** The store *)

(** [class ProjectState extends State<Project>]: [projects] is the
    reference of the private array, [listeners] the registered callbacks in
    registration order. *)
Record ProjectState := mkProjectState {
  projects : loc;
  listeners : list Listener
}.

(** The private constructor: both fields start as empty arrays. *)
Definition new_ProjectState (w : World) : ProjectState * World :=
  (mkProjectState (length (arrs (heap w))) [],
   set_arrs (arrs (heap w) ++ [[]]) w).

(** The [ProjectState] objects, by reference: a store is an object that
    [addListener] changes in place, and that the static field [instance]
    and the constant [projectState] both designate. *)
Definition Stores := list ProjectState.

(** The object that a reference designates. *)
Definition store_at (r : loc) (stores : Stores) : ProjectState :=
  default (mkProjectState 0 []) (stores !! r).

(** [ProjectState.getInstance], on the static field [instance]: the
    reference held there when there is one, else the reference of a store
    that is constructed now and recorded. *)
Definition getInstance (instance : option loc) (stores : Stores) (w : World)
  : loc * option loc * Stores * World :=
  match instance with
  | Some r => (r, instance, stores, w)
  | None =>
      let '(st, w') := new_ProjectState w in
      (length stores, Some (length stores), stores ++ [st], w')
  end.

(** [State.addListener] *)
Definition addListener (listenerFn : Listener) (st : ProjectState) : ProjectState :=
  mkProjectState (projects st) (listeners st ++ [listenerFn]).

(** [new Project(...)]: the object is allocated at the next free reference. *)
Definition new_Project (p : Project.t) (w : World) : loc * World :=
  (length (objs (heap w)), set_objs (objs (heap w) ++ [p]) w).

(** [arr.push(x)] *)
Definition push (a : loc) (x : loc) (w : World) : World :=
  set_arrs (alter (fun xs => xs ++ [x]) a (arrs (heap w))) w.

(** [arr.slice()]: a new array with the same elements. *)
Definition slice (a : loc) (w : World) : loc * World :=
  (length (arrs (heap w)), set_arrs (arrs (heap w) ++ [elements a w]) w).

(** [listenerFn(arg)]: the reference leaves the store, the invocation is
    recorded, the callback's mutations are applied. *)
Definition invoke (listenerFn : Listener) (arg : loc) (w : World) : World * completion :=
  let r := listenerFn arg (heap w) in
  let w := add_call (mkCall listenerFn arg (elements arg w)) (add_outside arg w) in
  (foldl mutate w (effects r), outcome r).

(** [for (const listenerFn of this.listeners) listenerFn(this.projects.slice())] *)
Fixpoint notify (this_projects : loc) (ls : list Listener) (w : World) : World * completion :=
  match ls with
  | [] => (w, Normal)
  | listenerFn :: rest =>
      let '(copy, w1) := slice this_projects w in
      let '(w2, c) := invoke listenerFn copy w1 in
      match c with
      | Normal => notify this_projects rest w2
      | Throw => (w2, Throw)
      end
  end.

(** [ProjectState.addProject]; [rnd] is the string that
    [Math.random().toString()] evaluates to in this call. *)
Definition addProject (rnd : jsstring) (title description : jsstring)
    (numberOfPeople : number) (st : ProjectState) (w : World) : World * completion :=
  let '(newProject, w) :=
    new_Project (Project.mk rnd title description numberOfPeople Active) w in
  let w := push (projects st) newProject w in
  notify (projects st) (listeners st) w.

(** ** The components *)

(** [get persons()] of [ProjectItem] *)
Definition persons `{JsRuntime} (project : Project.t) : jsstring :=
  if strict_eq (Project.people project) (of_Z 1)
  then u16 "1 Person"
  else Number_toString (Project.people project) ++ u16 " persons".

(** The three text contents set by [ProjectItem.renderContent]. *)
Record ItemText := mkItemText {
  h2 : jsstring;
  h3 : jsstring;
  p : jsstring
}.

Definition ProjectItem_renderContent `{JsRuntime} (project : Project.t) : ItemText :=
  mkItemText (Project.title project)
             (persons project ++ u16 "Persons assingend.")
             (Project.description project).

(** The [type] of a [ProjectList]: ["active" | "finished "]. *)
Inductive ListType :=
  | active
  | finished.

(** The predicate given to [projects.filter] in [ProjectList.configure]. *)
Definition isRelevant (type : ListType) (prj : Project.t) : bool :=
  match type with
  | active => ProjectStatus_eqb (Project.status prj) Active
  | finished => ProjectStatus_eqb (Project.status prj) Finished
  end.

(** [projects.filter(...)] on an array of references: a reference is kept
    when the object it designates passes the predicate. *)
Definition relevantProjects (type : ListType) (h : Heap) (items : list loc) : list loc :=
  List.filter
    (fun prj => match objs h !! prj with
                | Some o => isRelevant type o
                | None => false
                end)
    items.

(** [ProjectItem.renderContent] on the page. *)
Definition ProjectItem_render `{JsRuntime} (this : Component) (project : Project.t)
    (pg : Page) : result unit :=
  let texts := ProjectItem_renderContent project in
  match set_descendant_text (element this) (ByTag "h2") (h2 texts) pg with
  | TypeError pg' => TypeError pg'
  | Ok _ pg1 =>
      match set_descendant_text (element this) (ByTag "h3") (h3 texts) pg1 with
      | TypeError pg' => TypeError pg'
      | Ok _ pg2 => set_descendant_text (element this) (ByTag "p") (p texts) pg2
      end
  end.

(** [new ProjectItem(hostId, project)] *)
Definition ProjectItem_new `{JsRuntime} (hostId : jsstring) (project : Project.t)
    (pg : Page) : result Component :=
  match Component_new (u16 "single-project") hostId false (Project.id project) pg with
  | TypeError pg' => TypeError pg'
  | Ok this pg1 =>
      match ProjectItem_render this project pg1 with
      | TypeError pg' => TypeError pg'
      | Ok _ pg2 => Ok this pg2
      end
  end.

(** The text of a list type. *)
Definition type_string (type : ListType) : jsstring :=
  match type with
  | active => u16 "active"
  | finished => u16 "finished "
  end.

(** [`${type}-projects-list`] *)
Definition listId (type : ListType) : jsstring :=
  type_string type ++ u16 "-projects-list".

(** [s.toUpperCase()], on the texts whose letters are ASCII. *)
Definition toUpperCase (s : jsstring) : jsstring :=
  map (fun c => if ((0x61 <=? c) && (c <=? 0x7A))%N then (c - 0x20)%N else c) s.

(** [ProjectList.renderContent] *)
Definition ProjectList_renderContent (type : ListType) (this : Component)
    (pg : Page) : result unit :=
  match query (ByKey (element this)) (document pg) with
  | None => TypeError pg
  | Some e =>
      match querySelector (ByTag "ul") e with
      | None => TypeError pg
      | Some ul =>
          set_descendant_text (element this) (ByTag "h2")
            (toUpperCase (type_string type) ++ u16 "Projects")
            (mkPage (modify (key ul) (set_id (listId type)) (document pg))
                    (next_key pg))
      end
  end.

(** [new ProjectList(type)], without the registration made by [configure],
    which concerns the store. *)
Definition ProjectList_new (type : ListType) (pg : Page) : result Component :=
  match Component_new (u16 "project-list") (u16 "app") false
          (type_string type ++ u16 "-projects") pg with
  | TypeError pg' => TypeError pg'
  | Ok this pg1 =>
      match ProjectList_renderContent type this pg1 with
      | TypeError pg' => TypeError pg'
      | Ok _ pg2 => Ok this pg2
      end
  end.

(** The loop of [ProjectList.renderProjects]: one [ProjectItem] per
    assigned project, its host being looked up by the id of the list's
    [ul]. *)
Fixpoint render_items `{JsRuntime} (this : Component)
    (aasignedProjects : list Project.t) (pg : Page) : result unit :=
  match aasignedProjects with
  | [] => Ok tt pg
  | prjItem :: rest =>
      match query (ByKey (element this)) (document pg) with
      | None => TypeError pg
      | Some e =>
          match querySelector (ByTag "ul") e with
          | None => TypeError pg
          | Some ul =>
              match ProjectItem_new (eid ul) prjItem pg with
              | TypeError pg' => TypeError pg'
              | Ok _ pg1 => render_items this rest pg1
              end
          end
      end
  end.

(** [ProjectList.renderProjects] *)
Definition ProjectList_renderProjects `{JsRuntime} (type : ListType)
    (this : Component) (aasignedProjects : list Project.t) (pg : Page)
  : result unit :=
  match getElementById (listId type) (document pg) with
  | None => TypeError pg
  | Some listEl =>
      render_items this aasignedProjects
        (mkPage (modify (key listEl) clear_innerHTML (document pg)) (next_key pg))
  end.

(** The three texts shown by an item. *)
Definition item_texts (item : Element) : option ItemText :=
  match querySelector (ByTag "h2") item, querySelector (ByTag "h3") item,
        querySelector (ByTag "p") item with
  | Some a, Some b, Some c => Some (mkItemText (text a) (text b) (text c))
  | _, _, _ => None
  end.

(** The callback registered by [ProjectList.configure]: the filtered array
    becomes [aasignedProjects], and the list is rendered again from the
    projects that array designates.  The callback throws when
    [renderProjects] does. *)
Definition ProjectList_listener `{JsRuntime} (type : ListType) (this : Component)
  : Listener :=
  fun items h =>
    let relevant := relevantProjects type h (default [] (arrs h !! items)) in
    match ProjectList_renderProjects type this
            (omap (fun prjItem => objs h !! prjItem) relevant) (page h) with
    | Ok _ pg' => mkReaction [NewArray relevant; SetPage pg'] Normal
    | TypeError pg' => mkReaction [NewArray relevant; SetPage pg'] Throw
    end.

(** [new ProjectInput()] on the page: the form is attached first in the
    host.  The three inputs are then looked up under it and the submit
    handler is registered on it; the results of the lookups are not used
    there, so this changes nothing in the document and does not throw. *)
Definition ProjectInput_new (pg : Page) : result Component :=
  Component_new (u16 "project-input") (u16 "app") true (u16 "user-input") pg.

(** [class ProjectInput]: the [value] of its three input elements. *)
Record ProjectInput := mkProjectInput {
  titleInputElement : jsstring;
  descriptionInputElement : jsstring;
  peopleInputElement : jsstring
}.

Definition titleValidatable (enteredTitle : jsstring) : Validatable.t :=
  Validatable.mk (Str enteredTitle) (Some true) None None None None.

Definition descriptionValidatable (enteredDescription : jsstring) : Validatable.t :=
  Validatable.mk (Str enteredDescription) (Some true) (Some (of_Z 5)) None None None.

Definition peopleValidatable (enteredPeople : jsstring) : Validatable.t :=
  Validatable.mk (Str enteredPeople) (Some true) None None (Some (of_Z 2)) (Some (of_Z 5)).

(** The condition of the [if] in [gatherUserInput]. *)
Definition allValid `{JsRuntime} (this : ProjectInput) : bool :=
  validate (titleValidatable (titleInputElement this))
  && validate (descriptionValidatable (descriptionInputElement this))
  && validate (peopleValidatable (peopleInputElement this)).

(** [ProjectInput.gatherUserInput]: [None] is the [void] result. *)
Definition gatherUserInput `{JsRuntime} (this : ProjectInput) (w : World)
  : option (jsstring * jsstring * number) * World :=
  let enteredTitle := titleInputElement this in
  let enteredDescription := descriptionInputElement this in
  let enteredPeople := peopleInputElement this in
  if validate (titleValidatable enteredTitle)
     && validate (descriptionValidatable enteredDescription)
     && validate (peopleValidatable enteredPeople)
  then (None, alert (u16 "try again :(") w)
  else (Some (enteredTitle, enteredDescription, StringToNumber enteredPeople), w).

(** [ProjectInput.clearInputs] *)
Definition clearInputs (this : ProjectInput) : ProjectInput :=
  mkProjectInput [] [] [].

(** The submit event: only its cancellation flag matters here. *)
Record Event := mkEvent {
  defaultPrevented : bool
}.

Definition preventDefault (event : Event) : Event := mkEvent true.

(** [ProjectInput.submitHandler]; [rnd] is the draw used if a project is
    added.  When [addProject] throws, the handler is left at once. *)
Definition submitHandler `{JsRuntime} (rnd : jsstring) (event : Event)
    (this : ProjectInput) (projectState : ProjectState) (w : World)
  : Event * ProjectInput * World * completion :=
  let event := preventDefault event in
  let '(userInput, w) := gatherUserInput this w in
  match userInput with
  | Some (title, desc, people) =>
      let w := console_log (title, desc, people) w in
      let '(w, c) := addProject rnd title desc people projectState w in
      match c with
      | Normal => (event, clearInputs this, w, Normal)
      | Throw => (event, this, w, Throw)
      end
  | None => (event, this, w, Normal)
  end.

(** ** Executions *)

(** What can happen to a store during the life of the page: a callback is
    registered, a project is added, or code outside the store mutates what
    it holds. *)
Inductive Op :=
  | AddListener (listenerFn : Listener)
  | AddProject (rnd title description : jsstring) (numberOfPeople : number)
  | Outside (m : Mutation).

Definition step (s : ProjectState * World) (op : Op) : ProjectState * World :=
  match op with
  | AddListener listenerFn => (addListener listenerFn s.1, s.2)
  | AddProject rnd title description numberOfPeople =>
      (s.1, (addProject rnd title description numberOfPeople s.1 s.2).1)
  | Outside m => (s.1, mutate s.2 m)
  end.

Definition run (ops : list Op) (s : ProjectState * World) : ProjectState * World :=
  foldl step s ops.

(** The reference of the project that a step creates, if it creates one. *)
Definition created_by (op : Op) (s : ProjectState * World) : list loc :=
  match op with
  | AddProject _ _ _ _ => [length (objs (heap s.2))]
  | _ => []
  end.

(** The references of the projects that the [AddProject] steps of an
    execution create, in the order of those steps. *)
Fixpoint created (ops : list Op) (s : ProjectState * World) : list loc :=
  match ops with
  | [] => []
  | op :: rest => created_by op s ++ created rest (step s op)
  end.

(** The object that a step constructs, if it constructs one. *)
Definition constructed (op : Op) : list Project.t :=
  match op with
  | AddProject rnd title description numberOfPeople =>
      [Project.mk rnd title description numberOfPeople Active]
  | _ => []
  end.

(** The strings drawn for the ids by the [AddProject] steps, in order. *)
Definition draws (ops : list Op) : list jsstring :=
  omap (fun op => match op with
                  | AddProject rnd _ _ _ => Some rnd
                  | _ => None
                  end) ops.

(** A use of the store by code that reaches it through [getInstance]:
    [ProjectState.getInstance().addListener(f)],
    [ProjectState.getInstance().addProject(...)], or a mutation made by
    outside code. *)
Definition use (s : option loc * Stores * World) (op : Op)
  : option loc * Stores * World :=
  match op with
  | AddListener listenerFn =>
      let '(r, instance, stores, w) := getInstance s.1.1 s.1.2 s.2 in
      (instance, alter (addListener listenerFn) r stores, w)
  | AddProject rnd title description numberOfPeople =>
      let '(r, instance, stores, w) := getInstance s.1.1 s.1.2 s.2 in
      (instance, stores,
       (addProject rnd title description numberOfPeople (store_at r stores) w).1)
  | Outside m => (s.1.1, s.1.2, mutate s.2 m)
  end.

(** ** Predicates used in the statements *)

(** The objects designated by the elements of an array. *)
Definition view (w : World) (items : list loc) : list Project.t :=
  omap (fun o => objs (heap w) !! o) items.

(** The store's collection as the store reads it. *)
Definition entities (st : ProjectState) (w : World) : list Project.t :=
  view w (elements (projects st) w).

(** The array at [ps] is owned by the store: it exists, its reference is
    held by nobody outside, its elements designate objects, and every
    reference held outside designates an array. *)
Record owns (ps : loc) (w : World) : Prop := mkOwns {
  ok_alloc : ps < length (arrs (heap w));
  ok_private : ps ∉ outside w;
  ok_elements : Forall (fun o => o < length (objs (heap w))) (elements ps w);
  ok_outside : Forall (fun a => a < length (arrs (heap w))) (outside w)
}.

Definition store_ok (st : ProjectState) (w : World) : Prop :=
  owns (projects st) w.

(** What a step of the page preserves about the array of the store,
    whoever makes the step: ownership, the elements, and that nothing
    allocated disappears. *)
Record frame (ps : loc) (w w' : World) : Prop := mkFrame {
  fr_owns : owns ps w';
  fr_elements : elements ps w' = elements ps w;
  fr_objs : length (objs (heap w)) <= length (objs (heap w'));
  fr_arrs : length (arrs (heap w)) <= length (arrs (heap w'));
  fr_outside : forall a, a ∈ outside w -> a ∈ outside w';
  fr_alerts : alerts w' = alerts w;
  fr_console : console w' = console w
}.

(** A callback that returns normally whatever it is given. *)
Definition returns (f : Listener) : Prop :=
  forall a h, outcome (f a h) = Normal.

Definition isSetObject (m : Mutation) : bool :=
  match m with SetObject _ _ => true | _ => false end.

Definition writesArray (a : loc) (m : Mutation) : bool :=
  match m with SetArray a' _ => Nat.eqb a' a | _ => false end.

(** A callback that never assigns to a field of a project. *)
Definition keeps_fields (f : Listener) : Prop :=
  forall a h, forallb (fun m => negb (isSetObject m)) (effects (f a h)) = true.

(** The mutations made by the callbacks that a notification loop invokes,
    in the order in which they are made. *)
Fixpoint notify_effects (this_projects : loc) (ls : list Listener) (w : World)
  : list Mutation :=
  match ls with
  | [] => []
  | listenerFn :: rest =>
      let '(copy, w1) := slice this_projects w in
      let '(w2, c) := invoke listenerFn copy w1 in
      effects (listenerFn copy (heap w1))
      ++ match c with
         | Normal => notify_effects this_projects rest w2
         | Throw => []
         end
  end.

(** The mutations made by the callbacks during one [addProject]. *)
Definition addProject_effects (rnd : jsstring) (title description : jsstring)
    (numberOfPeople : number) (st : ProjectState) (w : World) : list Mutation :=
  let '(newProject, w) :=
    new_Project (Project.mk rnd title description numberOfPeople Active) w in
  let w := push (projects st) newProject w in
  notify_effects (projects st) (listeners st) w.

Definition op_keeps_fields (op : Op) : Prop :=
  match op with
  | AddListener f => keeps_fields f
  | AddProject _ _ _ _ => True
  | Outside m => isSetObject m = false
  end.

(** The rules of [validate], one by one, as propositions. *)
Definition required_holds `{JsRuntime} (v : Validatable.t) : Prop :=
  Validatable.required v = Some true ->
  length (trim (strnum_toString (Validatable.value v))) <> 0.

Definition minLength_holds (v : Validatable.t) : Prop :=
  forall bound s, Validatable.minLength v = Some bound -> Validatable.value v = Str s ->
    num_lt bound (of_len (length s)).

Definition maxLength_holds (v : Validatable.t) : Prop :=
  forall bound s, Validatable.maxLength v = Some bound -> Validatable.value v = Str s ->
    num_lt (of_len (length s)) bound.

Definition min_holds (v : Validatable.t) : Prop :=
  forall bound n, Validatable.min v = Some bound -> Validatable.value v = Num n ->
    num_lt bound n.

Definition max_holds (v : Validatable.t) : Prop :=
  forall bound n, Validatable.max v = Some bound -> Validatable.value v = Num n ->
    num_lt n bound.

(** ** A page to run the program on *)

(** The repository has no HTML file.  This is a page of the kind the
    program is written for: the three templates it names and the host
    [div#app]. *)
Definition leaf (k : nat) (t : string) (i : jsstring) (sib : Forest) : Forest :=
  Tree k t i [] Empty Empty sib.

Definition index_html : Forest :=
  Tree 0 "template" (u16 "project-input") []
    (Tree 0 "form" [] [] Empty
       (Tree 0 "div" [] [] Empty
          (leaf 0 "label" [] (leaf 0 "input" (u16 "title") Empty))
       (Tree 0 "div" [] [] Empty
          (leaf 0 "label" [] (leaf 0 "textarea" (u16 "description") Empty))
       (Tree 0 "div" [] [] Empty
          (leaf 0 "label" [] (leaf 0 "input" (u16 "people") Empty))
       (Tree 0 "button" [] (u16 "ADD PROJECT") Empty Empty Empty))))
       Empty)
    Empty
  (Tree 1 "template" (u16 "single-project") []
    (Tree 0 "li" [] [] Empty
       (leaf 0 "h2" [] (leaf 0 "h3" [] (leaf 0 "p" [] Empty)))
       Empty)
    Empty
  (Tree 2 "template" (u16 "project-list") []
    (Tree 0 "section" [] [] Empty
       (Tree 0 "header" [] [] Empty (leaf 0 "h2" [] Empty)
       (leaf 0 "ul" [] Empty))
       Empty)
    Empty
  (Tree 3 "div" (u16 "app") [] Empty Empty Empty))).

Definition start_page : Page := mkPage index_html 4.

Definition page_of {A} (r : result A) : Page :=
  match r with
  | Ok _ pg => pg
  | TypeError pg => pg
  end.

Definition component_of (r : result Component) : Component :=
  match r with
  | Ok this _ => this
  | TypeError _ => mkComponent 0 0 0
  end.

(** ** The page at start-up and some callbacks *)

(** The page once loaded: nothing is allocated yet, and the document is
    the one of [index_html]. *)
Definition empty_World : World := mkWorld (mkHeap [] [] start_page) [] [] [] [].

(** The three components made at start-up, in the order of the source. *)
Definition prjInput : result Component := ProjectInput_new start_page.

Definition activeProjectList : result Component :=
  ProjectList_new active (page_of prjInput).

Definition finishedProjectList : result Component :=
  ProjectList_new finished (page_of activeProjectList).

(** [const projectState = ProjectState.getInstance()], then
    [new ProjectInput()] and the two [new ProjectList(...)], each attaching
    its element and registering its callback. *)
Definition startup (rt : JsRuntime) : ProjectState * World :=
  let '(projectState, _, stores, w) := getInstance None [] empty_World in
  let stores :=
    alter (addListener (ProjectList_listener active (component_of activeProjectList)))
      projectState stores in
  let stores :=
    alter (addListener (ProjectList_listener finished (component_of finishedProjectList)))
      projectState stores in
  (store_at projectState stores, set_page (page_of finishedProjectList) w).

(** A callback doing [items[0].status = ProjectStatus.Finished]. *)
Definition finish_first : Listener :=
  fun items h =>
    match arrs h !! items with
    | Some (o :: _) =>
        match objs h !! o with
        | Some prj =>
            mkReaction
              [SetObject o (Project.mk (Project.id prj) (Project.title prj)
                              (Project.description prj) (Project.people prj) Finished)]
              Normal
        | None => mkReaction [] Normal
        end
    | _ => mkReaction [] Normal
    end.

(** A callback doing [items.length = 0]. *)
Definition empty_it : Listener :=
  fun items _ => mkReaction [SetArray items []] Normal.

(** A callback that does nothing. *)
Definition idle : Listener :=
  fun _ _ => mkReaction [] Normal.

(** A callback that throws at once. *)
Definition thrower : Listener :=
  fun _ _ => mkReaction [] Throw.

(** A store with two callbacks that return: one empties the array it is
    passed, the other does nothing. *)
Definition example_store : ProjectState * World :=
  (addListener idle (addListener empty_it (new_ProjectState empty_World).1),
   (new_ProjectState empty_World).2).

(** ** Further predicates *)

(** A text made of white space only (the empty text included). *)
Definition blank (s : jsstring) : bool := forallb isWhiteSpace s.

(** An optional constraint [o'] asks for no more than [o]: it is absent or
    it is [o]. *)
Definition relaxed {A} (o' o : option A) : Prop := o' = None \/ o' = o.

(** A callback that throws whatever it is given. *)
Definition always_throws (f : Listener) : Prop :=
  forall a h, outcome (f a h) = Throw.

Definition isAddProject (op : Op) : bool :=
  match op with AddProject _ _ _ _ => true | _ => false end.

(** A stand-in for the runtime, to evaluate examples with.  Its [+] is the
    one of JavaScript on the texts made of decimal digits that denote a
    safe integer; the other texts and the printing of other numbers are not
    used by the examples. *)
Fixpoint digitsValue (acc : Z) (s : jsstring) : option Z :=
  match s with
  | [] => Some acc
  | c :: r =>
      if ((0x30 <=? c) && (c <=? 0x39))%N
      then digitsValue (10 * acc + Z.of_N (c - 0x30)) r
      else None
  end.

Definition example_runtime : JsRuntime :=
  {| StringToNumber := fun s =>
       match digitsValue 0 s with
       | Some z => if (z <? 2 ^ 53)%Z then of_Z z else NaN
       | None => NaN
       end;
     NonSafeIntegerToString := fun _ => [] |}.

(** ** The states of the document *)

(** An edit that does not change whether the selector matches. *)
Definition keeps (sel : Selector) (f : Element -> Element) : Prop :=
  forall e, matches sel (f e) = matches sel e.

(** An edit that does not bring a match among the children. *)
Definition no_new (sel : Selector) (f : Element -> Element) : Prop :=
  forall e, query sel (children e) = None -> query sel (children (f e)) = None.

(** An edit that changes only the text or the children of an element. *)
Definition shallow (f : Element -> Element) : Prop :=
  forall e, key (f e) = key e /\ tag (f e) = tag e /\ eid (f e) = eid e
            /\ content (f e) = content e.

(** An edit that keeps the children or removes them all. *)
Definition shrinking (f : Element -> Element) : Prop :=
  forall e, children (f e) = children e \/ children (f e) = Empty.

(** The keys of the document are unique and below the next free key. *)
Definition page_ok (pg : Page) : Prop :=
  NoDup (keys (document pg))
  /\ Forall (fun k => k < next_key pg) (keys (document pg)).

(** The first element that the selector finds has no element under it. *)
Definition leaf_at (sel : Selector) (F : Forest) : Prop :=
  exists x, query sel F = Some x /\ children x = Empty.

(** The template of the items as the program expects it: a [template]
    element [te] whose content starts with an element [r] under which an
    [h2], an [h3] and a [p] without elements of their own are found, and in
    which nothing has the id of the template itself. *)
Definition item_template (te r : Element) : Prop :=
  tag te = "template"%string
  /\ children te = Empty
  /\ firstElementChild (content te) = Some r
  /\ leaf_at (ByTag "h2") (children r)
  /\ leaf_at (ByTag "h3") (children r)
  /\ leaf_at (ByTag "p") (children r)
  /\ eid r <> u16 "single-project"
  /\ query (ById (u16 "single-project")) (children r) = None.

(** The state of the page in which a list can render: the keys are in
    order, the template of the items is found, the list's [ul] (the first
    one under the element of the component) is the element found by the id
    of the list, [items] are its children, and nothing in them has the id
    of the template. *)
Definition list_state (type : ListType) (this : Component) (te : Element)
    (items : Forest) (pg : Page) : Prop :=
  page_ok pg
  /\ getElementById (u16 "single-project") (document pg) = Some te
  /\ query (ById (u16 "single-project")) items = None
  /\ exists listEl e,
       getElementById (listId type) (document pg) = Some listEl
       /\ children listEl = items
       /\ query (ByKey (element this)) (document pg) = Some e
       /\ querySelector (ByTag "ul") e = Some listEl.

(** The page after [new ProjectList("active")] and
    [new ProjectList("finished ")]. *)
Definition active_list : result Component := ProjectList_new active start_page.

Definition finished_list : result Component :=
  ProjectList_new finished (page_of active_list).

Definition lists_page : Page := page_of finished_list.

(** The template of the items in [index_html] and its first element. *)
Definition item_li : Element :=
  mkElement 0 "li" [] [] Empty
    (leaf 0 "h2" [] (leaf 0 "h3" [] (leaf 0 "p" [] Empty))).

Definition item_te : Element :=
  mkElement 1 "template" (u16 "single-project") [] (plant item_li Empty) Empty.

(** The template of the lists as the program expects it: a [template]
    element [tl] whose content starts with an element [rl] under which a
    [ul] and an [h2] without elements of their own are found, and in which
    nothing has the id of the item template or of a list. *)
Definition list_template (tl rl : Element) : Prop :=
  tag tl = "template"%string
  /\ firstElementChild (content tl) = Some rl
  /\ leaf_at (ByTag "ul") (children rl)
  /\ leaf_at (ByTag "h2") (children rl)
  /\ query (ById (u16 "single-project")) (children rl) = None
  /\ (forall type, query (ById (listId type)) (children rl) = None).

(** ** The two lists on one page *)

(** An element [e], found by [sel], that shares nothing with the element
    [u]: [sel] finds nothing under [u], and neither [u] nor an element
    under it is [e] or under [e]. *)
Definition bystander (sel : Selector) (e u : Element) (pg : Page) : Prop :=
  query sel (document pg) = Some e
  /\ query sel (children u) = None
  /\ Forall (fun k => k ∉ key e :: keys (children e)) (key u :: keys (children u)).

(** [sel] finds nothing in a copy of the first element [r] of a template
    made with keys from [n] on and given the id [i]. *)
Definition blind (sel : Selector) (r : Element) (n : nat) (i : jsstring) : Prop :=
  forall el n1, n <= key el -> key el < n1 -> eid el = i ->
    children el = (clone n1 (children r)).1 ->
    matches sel el = false /\ query sel (children el) = None.

(** An id that an item can take without being mistaken for an element that
    the program looks up: not empty, not the id of the template of the
    items and not the id of a list. *)
Definition usable_id (i : jsstring) : Prop :=
  i <> [] /\ i <> u16 "single-project" /\ forall type, i <> listId type.

(** The [ul] of the list [type], with what is under it, shares no element
    with the element of the component [this]. *)
Definition apart (type : ListType) (this : Component) (pg : Page) : Prop :=
  forall ul e,
    getElementById (listId type) (document pg) = Some ul ->
    query (ByKey (element this)) (document pg) = Some e ->
    Forall (fun k => k ∉ key e :: keys (children e)) (key ul :: keys (children ul)).

(** The state of the page in which both lists can render: each is in the
    state [list_state], no item of one has the id of the other, and the
    [ul] of each is apart from the element of the other. *)
Definition lists_state (thisA thisB : Component) (te : Element) (pg : Page) : Prop :=
  exists itemsA itemsB,
    list_state active thisA te itemsA pg
    /\ list_state finished thisB te itemsB pg
    /\ query (ById (listId finished)) itemsA = None
    /\ query (ById (listId active)) itemsB = None
    /\ apart active thisB pg
    /\ apart finished thisA pg.

(** What the two lists show: the items of each are the projects of the
    collection that have its status, in order, each with the id and the
    texts of its project. *)
Definition shows `{JsRuntime} (all : list Project.t) (pg : Page) : Prop :=
  forall type,
    exists ul,
      getElementById (listId type) (document pg) = Some ul
      /\ map item_texts (roots (children ul))
         = map (fun prj => Some (ProjectItem_renderContent prj))
             (List.filter (isRelevant type) all)
      /\ map eid (roots (children ul))
         = map Project.id (List.filter (isRelevant type) all).

(** An [addProject] whose draw is an id that an item can take. *)
Definition usable_add (op : Op) : Prop :=
  match op with
  | AddProject rnd _ _ _ => usable_id rnd
  | _ => False
  end.


(** * Properties *)

(** ** Numbers and strings *)

Lemma js_lt_spec (a b : number) : js_lt a b = true <-> num_lt a b.
Proof.
  destruct a as [| |x|], b as [| |y|]; simpl; try tauto; try easy.
  rewrite negb_true_iff. split.
  - intros Hle. apply Qnot_le_lt. intros Hyx.
    apply Qle_bool_iff in Hyx. congruence.
  - intros Hlt. destruct (Qle_bool y x) eqn:E; [|reflexivity].
    apply Qle_bool_iff in E. exfalso. exact (Qlt_not_le _ _ Hlt E).
Qed.

Lemma js_gt_spec (a b : number) : js_gt a b = true <-> num_lt b a.
Proof. unfold js_gt. apply js_lt_spec. Qed.

Lemma strict_eq_spec (a b : number) : strict_eq a b = true <-> num_eq a b.
Proof.
  destruct a as [| |x|], b as [| |y|]; simpl; try tauto; try easy.
  apply Qeq_bool_iff.
Qed.

(** Between integers the order of numbers is the order of integers. *)
Lemma num_lt_of_Z (x y : Z) : num_lt (of_Z x) (of_Z y) <-> (x < y)%Z.
Proof. unfold of_Z, num_lt, Qlt; simpl. lia. Qed.

Lemma trimStart_nil (s : jsstring) :
  trimStart s = [] <-> forallb isWhiteSpace s = true.
Proof.
  induction s as [|c r IH]; simpl; [tauto|].
  destruct (isWhiteSpace c); simpl; [exact IH|]. split; discriminate.
Qed.

Lemma trimStart_head (s : jsstring) (c : N) (r : jsstring) :
  trimStart s = c :: r -> isWhiteSpace c = false.
Proof.
  induction s as [|d s' IH]; simpl; [discriminate|].
  destruct (isWhiteSpace d) eqn:E; [exact IH|].
  intros [= <- _]. exact E.
Qed.

Lemma forallb_rev {A} (f : A -> bool) (l : list A) :
  forallb f (rev l) = forallb f l.
Proof.
  induction l as [|x l IH]; simpl; [reflexivity|].
  rewrite forallb_app, IH. simpl. rewrite andb_true_r. apply andb_comm.
Qed.

(** The trimmed string is empty exactly when every code unit is white space. *)
Lemma trim_nil (s : jsstring) :
  trim s = [] <-> forallb isWhiteSpace s = true.
Proof.
  unfold trim, trimEnd. rewrite <- trimStart_nil.
  destruct (trimStart s) as [|c r] eqn:E; [simpl; tauto|].
  split; [|discriminate].
  intros Hnil. apply (f_equal (@rev N)) in Hnil. rewrite rev_involutive in Hnil.
  change (rev []) with (@nil N) in Hnil.
  apply trimStart_nil in Hnil. rewrite forallb_rev in Hnil.
  simpl in Hnil. rewrite (trimStart_head _ _ _ E) in Hnil. discriminate.
Qed.

(** ** Validation *)

(** C7: [validate] is the conjunction of the rules that apply, and its
    length and range rules are strict: a string passes [minLength] exactly
    when the bound is strictly below its length and [maxLength] exactly when
    its length is strictly below the bound; a number passes [min] exactly
    when the bound is strictly below it and [max] exactly when it is
    strictly below the bound. *)
Theorem validate_exclusive_bounds `{JsRuntime} (v : Validatable.t) :
  validate v = true <->
  required_holds v /\ minLength_holds v /\ maxLength_holds v
  /\ min_holds v /\ max_holds v.
Proof.
  unfold validate, required_holds, minLength_holds, maxLength_holds,
    min_holds, max_holds.
  destruct v as [val req mnl mxl mn mx].
  cbn [Validatable.value Validatable.required Validatable.minLength
       Validatable.maxLength Validatable.min Validatable.max].
  assert (Hreq : (if truthy req
                  then true && negb (length (trim (strnum_toString val)) =? 0)
                  else true) = true
                 <-> (req = Some true -> length (trim (strnum_toString val)) <> 0)).
  { destruct req as [[|]|]; simpl.
    - rewrite negb_true_iff, Nat.eqb_neq. tauto.
    - split; [discriminate | reflexivity].
    - split; [discriminate | reflexivity]. }
  set (r := if truthy req then _ else true) in *. clearbody r.
  destruct val as [s|n].
  - destruct mnl as [b1|], mxl as [b2|], mn as [b3|], mx as [b4|];
      rewrite ?andb_true_iff, ?js_gt_spec, ?js_lt_spec, Hreq;
      (split;
       [ intros Hall; repeat split; try tauto;
         intros ? ? ? ?; simplify_eq; tauto
       | intros (H1 & H2 & H3 & H4 & H5); repeat split; eauto ]).
  - destruct mnl as [b1|], mxl as [b2|], mn as [b3|], mx as [b4|];
      rewrite ?andb_true_iff, ?js_gt_spec, ?js_lt_spec, Hreq;
      (split;
       [ intros Hall; repeat split; try tauto;
         intros ? ? ? ?; simplify_eq; tauto
       | intros (H1 & H2 & H3 & H4 & H5); repeat split; eauto ]).
Qed.

(** The boundary of the strict rules on the description: a text of exactly
    five code units does not pass [minLength: 5]. *)
Lemma description_boundary `{JsRuntime} (enteredDescription : jsstring) :
  length enteredDescription = 5 ->
  validate (descriptionValidatable enteredDescription) = false.
Proof.
  intros Hlen. unfold validate, descriptionValidatable.
  cbn [Validatable.value Validatable.required Validatable.minLength
       Validatable.maxLength Validatable.min Validatable.max].
  rewrite Hlen. apply andb_false_r.
Qed.


(** ** The item label *)

Lemma app_length_differs (x : jsstring) :
  x ++ u16 " persons" <> u16 "1 Person".
Proof.
  intros Heq.
  destruct x as [|c x].
  - vm_compute in Heq. discriminate.
  - apply (f_equal (@length N)) in Heq. rewrite length_app in Heq.
    simpl in Heq. lia.
Qed.

(** C9: the label is "1 Person" exactly when the number of people equals
    1; for every other number it is the number printed in front of
    " persons", so 2 gives "2 persons" and 0 gives "0 persons". *)
Theorem persons_label `{JsRuntime} (project : Project.t) :
  (persons project = u16 "1 Person" <-> num_eq (Project.people project) (of_Z 1))
  /\ (~ num_eq (Project.people project) (of_Z 1) ->
      persons project = Number_toString (Project.people project) ++ u16 " persons")
  /\ (forall i t d s, persons (Project.mk i t d (of_Z 2) s) = u16 "2 persons")
  /\ (forall i t d s, persons (Project.mk i t d (of_Z 0) s) = u16 "0 persons").
Proof.
  unfold persons. repeat split; try reflexivity.
  - destruct (strict_eq _ _) eqn:E; [intros _; now apply strict_eq_spec|].
    intros Habs. now apply app_length_differs in Habs.
  - intros Heq. apply strict_eq_spec in Heq. now rewrite Heq.
  - intros Hne. destruct (strict_eq _ _) eqn:E; [|reflexivity].
    now apply strict_eq_spec in E.
Qed.

(** ** The list filter *)

Lemma relevantProjects_In (type : ListType) (h : Heap) (items : list loc)
    (E : loc) (prj : Project.t) :
  objs h !! E = Some prj ->
  (In E (relevantProjects type h items) <-> In E items /\ isRelevant type prj = true).
Proof.
  intros Hobj. unfold relevantProjects. rewrite filter_In, Hobj. reflexivity.
Qed.

(** C6: an entity of a snapshot whose status is Active or Finished is in
    exactly one of the two filtered subsets: in the one of the "active" list
    exactly when it is Active, in the other exactly when it is Finished. *)
Theorem filter_partition (h : Heap) (items : list loc) (E : loc) (prj : Project.t) :
  In E items ->
  objs h !! E = Some prj ->
  Project.status prj = Active \/ Project.status prj = Finished ->
  (In E (relevantProjects active h items) <-> Project.status prj = Active)
  /\ (In E (relevantProjects finished h items) <-> Project.status prj = Finished)
  /\ ((In E (relevantProjects active h items)
       /\ ~ In E (relevantProjects finished h items))
      \/ (~ In E (relevantProjects active h items)
          /\ In E (relevantProjects finished h items))).
Proof.
  intros Hin Hobj Hstatus.
  rewrite !(relevantProjects_In _ _ _ _ _ Hobj). unfold isRelevant.
  destruct Hstatus as [-> | ->]; simpl; repeat split; try tauto;
    try discriminate; try (intros [_ ?]; discriminate).
  - left. split; [tauto | intros [_ ?]; discriminate].
  - right. split; [intros [_ ?]; discriminate | tauto].
Qed.

Lemma filter_partition_witness :
  let h := mkHeap [Project.mk (u16 "0.5") (u16 "Build API") (u16 "Design the service")
                     (of_Z 3) Active] [] start_page in
  In 0 (relevantProjects active h [0])
  /\ ~ In 0 (relevantProjects finished h [0]).
Proof.
  intros h.
  destruct (filter_partition h [0] 0
              (Project.mk (u16 "0.5") (u16 "Build API") (u16 "Design the service")
                 (of_Z 3) Active)) as (_ & _ & [Hyes | [Hno _]]).
  - simpl. auto.
  - reflexivity.
  - left. reflexivity.
  - exact Hyes.
  - exfalso. apply Hno. simpl. auto.
Defined.

(** ** The heap under outside mutations *)

Lemma frame_refl (ps : loc) (w : World) : owns ps w -> frame ps w w.
Proof. intros Hok. split; auto. Qed.

Lemma frame_trans (ps : loc) (w1 w2 w3 : World) :
  frame ps w1 w2 -> frame ps w2 w3 -> frame ps w1 w3.
Proof.
  intros [] []. split; auto; try congruence; lia.
Qed.

Lemma mutate_frame (ps : loc) (w : World) (m : Mutation) :
  owns ps w -> frame ps w (mutate w m).
Proof.
  intros [Ha Hp He Ho]. destruct m as [p | o p | items | a items | pg]; simpl.
  - split; [split|..]; simpl; auto; rewrite ?length_app; try lia.
    eapply Forall_impl; [exact He|]. simpl; intros; lia.
  - split; [split|..]; simpl; auto; rewrite ?length_insert; auto.
  - split; [split|..]; simpl; auto; rewrite ?length_app; simpl; try lia.
    + rewrite elem_of_app, list_elem_of_singleton. intros [?|?]; [tauto | lia].
    + unfold elements in *; simpl. now rewrite lookup_app_l.
    + apply Forall_app. split.
      * eapply Forall_impl; [exact Ho|]. simpl; intros; lia.
      * constructor; [lia | constructor].
    + unfold elements; simpl. now rewrite lookup_app_l.
    + intros a Hin. apply elem_of_app. now left.
  - destruct (decide (a ∈ outside w)) as [Hin|Hnin]; [|now apply frame_refl].
    assert (a <> ps) by congruence.
    split; [split|..]; simpl; auto; rewrite ?length_insert; auto.
    + unfold elements in *; simpl. now rewrite list_lookup_insert_ne.
    + unfold elements; simpl. now rewrite list_lookup_insert_ne.
  - split; [split|..]; simpl; auto.
Qed.

Lemma mutate_calls (w : World) (m : Mutation) : calls (mutate w m) = calls w.
Proof.
  destruct m; simpl; try reflexivity. now destruct (decide _).
Qed.

Lemma mutations_frame (ps : loc) (ms : list Mutation) (w : World) :
  owns ps w -> frame ps w (foldl mutate w ms).
Proof.
  revert w. induction ms as [|m ms IH]; intros w Hok; simpl.
  - now apply frame_refl.
  - pose proof (mutate_frame ps w m Hok) as Hm.
    eapply frame_trans; [exact Hm|]. apply IH. apply Hm.
Qed.

Lemma mutations_calls (ms : list Mutation) (w : World) :
  calls (foldl mutate w ms) = calls w.
Proof.
  revert w. induction ms as [|m ms IH]; intros w; simpl; [reflexivity|].
  now rewrite IH, mutate_calls.
Qed.

(** ** One notification *)

(** Passing a fresh copy to one callback: the store keeps its array, and
    the invocation recorded is the one expected. *)
Lemma invoke_slice_spec (ps : loc) (f : Listener) (w : World) :
  owns ps w ->
  let w' := (invoke f (slice ps w).1 (slice ps w).2).1 in
  frame ps w w'
  /\ calls w' = calls w ++ [mkCall f (length (arrs (heap w))) (elements ps w)]
  /\ length (arrs (heap w)) < length (arrs (heap w')).
Proof.
  intros Hok. pose proof Hok as [Ha Hp He Ho].
  unfold invoke, slice. cbn [fst snd].
  set (arg := length (arrs (heap w))).
  set (w1 := set_arrs (arrs (heap w) ++ [elements ps w]) w).
  set (w2 := add_call (mkCall f arg (elements arg w1)) (add_outside arg w1)).
  assert (Hrecv : elements arg w1 = elements ps w).
  { unfold elements at 1, w1, arg; simpl. now rewrite list_lookup_middle. }
  assert (Hlen : length (arrs (heap w2)) = S arg).
  { unfold w2, w1, arg; simpl. rewrite length_app; simpl. lia. }
  assert (Hf : frame ps w w2).
  { split; [split|..]; unfold w2, w1; simpl; auto;
      rewrite ?length_app; simpl; try lia.
    - rewrite elem_of_app, list_elem_of_singleton. intros [?|?]; [tauto | lia].
    - unfold elements in *; simpl. now rewrite lookup_app_l.
    - apply Forall_app. split.
      + eapply Forall_impl; [exact Ho|]. simpl; intros; lia.
      + constructor; [fold arg; lia | constructor].
    - unfold elements; simpl. now rewrite lookup_app_l.
    - intros a Hin. apply elem_of_app. now left. }
  pose proof (mutations_frame ps (effects (f arg (heap w1))) w2 (fr_owns _ _ _ Hf)) as Hms.
  split; [|split].
  - eapply frame_trans; [exact Hf | exact Hms].
  - rewrite mutations_calls. unfold w2; simpl. now rewrite Hrecv.
  - pose proof (fr_arrs _ _ _ Hms). lia.
Qed.

(** The invocations made by a notification loop: the callbacks called are
    an initial part of the registered ones, all of them when every callback
    returns; each is passed an array allocated for that call and holding
    the elements of the store's array. *)
Lemma notify_spec (ps : loc) (ls : list Listener) (w : World) :
  owns ps w ->
  frame ps w (notify ps ls w).1
  /\ exists cs,
       calls (notify ps ls w).1 = calls w ++ cs
       /\ map callee cs `prefix_of` ls
       /\ Forall (fun c => length (arrs (heap w)) <= argument c
                           /\ argument c <> ps
                           /\ received c = elements ps w) cs
       /\ NoDup (map argument cs)
       /\ (Forall returns ls ->
           map callee cs = ls /\ (notify ps ls w).2 = Normal).
Proof.
  revert w. induction ls as [|f rest IH]; intros w Hok.
  - simpl. split; [now apply frame_refl|]. exists [].
    rewrite app_nil_r. repeat split; auto; constructor.
  - cbn [notify].
    pose proof (invoke_slice_spec ps f w Hok) as Hinv.
    destruct (slice ps w) as [copy w1] eqn:Hs.
    destruct (invoke f copy w1) as [w2 c] eqn:Hi.
    cbn [fst snd] in Hinv. rewrite Hi in Hinv. cbn [fst snd] in Hinv.
    destruct Hinv as (Hf & Hcalls & Hlt).
    assert (Hcopy : copy = length (arrs (heap w))) by (now inversion Hs).
    set (c0 := mkCall f (length (arrs (heap w))) (elements ps w)) in *.
    assert (Hc0 : length (arrs (heap w)) <= argument c0
                  /\ argument c0 <> ps /\ received c0 = elements ps w).
    { simpl. pose proof (ok_alloc _ _ Hok). repeat split; lia. }
    destruct c.
    + destruct (IH w2 (fr_owns _ _ _ Hf)) as (Hf' & cs & Hcs & Hpre & Hall & Hnd & Hret).
      split; [eapply frame_trans; eassumption|].
      exists (c0 :: cs).
      split; [rewrite Hcs, Hcalls, <- app_assoc; reflexivity|].
      split; [simpl; now apply prefix_cons|].
      split.
      { constructor; [exact Hc0|].
        eapply Forall_impl; [exact Hall|]. simpl.
        intros x (H1 & H2 & H3). rewrite (fr_elements _ _ _ Hf) in H3.
        repeat split; auto. lia. }
      split.
      { simpl. constructor; [|exact Hnd].
        rewrite list_elem_of_fmap. intros (x & Hx & Hin).
        rewrite Forall_forall in Hall. apply Hall in Hin. lia. }
      intros Hall_ret. inversion Hall_ret as [|? ? _ Hrest]; subst.
      destruct (Hret Hrest) as [Hmap Hnormal].
      split; [simpl; now rewrite Hmap | exact Hnormal].
    + split; [exact Hf|]. exists [c0].
      split; [exact Hcalls|].
      split; [simpl; apply prefix_cons, prefix_nil|].
      split; [constructor; [exact Hc0 | constructor]|].
      split; [simpl; apply NoDup_singleton|].
      intros Hall_ret. inversion Hall_ret as [|? ? Hf_ret _]; subst.
      unfold invoke in Hi. injection Hi as _ Hout.
      rewrite Hf_ret in Hout. discriminate.
Qed.

(** ** Adding a project *)

(** The store's own part of [addProject]: the new object is allocated and
    its reference appended to the store's array; nothing else changes. *)
Lemma push_new_spec (ps : loc) (prj : Project.t) (w : World) :
  owns ps w ->
  let w0 := push ps (new_Project prj w).1 (new_Project prj w).2 in
  owns ps w0
  /\ elements ps w0 = elements ps w ++ [length (objs (heap w))]
  /\ objs (heap w0) = objs (heap w) ++ [prj]
  /\ length (arrs (heap w0)) = length (arrs (heap w))
  /\ (forall a, a <> ps -> elements a w0 = elements a w)
  /\ outside w0 = outside w /\ calls w0 = calls w
  /\ alerts w0 = alerts w /\ console w0 = console w.
Proof.
  intros [Ha Hp He Ho]. unfold push, new_Project. cbn [fst snd]. simpl.
  destruct (lookup_lt_is_Some_2 _ _ Ha) as [xs Hxs].
  assert (Hel : elements ps w = xs) by (unfold elements; now rewrite Hxs).
  assert (Hnew : default [] (alter (fun xs => xs ++ [length (objs (heap w))]) ps
                               (arrs (heap w)) !! ps)
                 = xs ++ [length (objs (heap w))]).
  { now rewrite list_lookup_alter_eq, Hxs. }
  repeat split; simpl; auto.
  - now rewrite length_alter.
  - unfold elements; simpl. rewrite Hnew, <- Hel. apply Forall_app. split.
    + eapply Forall_impl; [exact He|]. simpl. intros. rewrite length_app. lia.
    + constructor; [|constructor]. rewrite length_app; simpl. lia.
  - rewrite length_alter. exact Ho.
  - unfold elements at 1; simpl. now rewrite Hnew, Hel.
  - now rewrite length_alter.
  - intros a Hne. unfold elements; simpl. now rewrite list_lookup_alter_ne.
Qed.

(** [addProject] seen from the store: its array gains exactly the new
    reference, and the invocations are those of [notify_spec] on the
    extended array. *)
Lemma addProject_spec (rnd title description : jsstring) (n : number)
    (st : ProjectState) (w : World) :
  store_ok st w ->
  let r := addProject rnd title description n st w in
  let snapshot := elements (projects st) w ++ [length (objs (heap w))] in
  store_ok st r.1
  /\ elements (projects st) r.1 = snapshot
  /\ length (objs (heap w)) < length (objs (heap r.1))
  /\ length (arrs (heap w)) <= length (arrs (heap r.1))
  /\ alerts r.1 = alerts w /\ console r.1 = console w
  /\ exists cs,
       calls r.1 = calls w ++ cs
       /\ map callee cs `prefix_of` listeners st
       /\ Forall (fun c => length (arrs (heap w)) <= argument c
                           /\ argument c <> projects st
                           /\ received c = snapshot) cs
       /\ NoDup (map argument cs)
       /\ (Forall returns (listeners st) ->
           map callee cs = listeners st /\ r.2 = Normal).
Proof.
  intros Hok.
  pose proof (push_new_spec (projects st)
                (Project.mk rnd title description n Active) w Hok) as Hpush.
  change (addProject rnd title description n st w)
    with (notify (projects st) (listeners st)
            (push (projects st)
               (new_Project (Project.mk rnd title description n Active) w).1
               (new_Project (Project.mk rnd title description n Active) w).2)).
  set (w0 := push (projects st) _ _) in *. cbn zeta in Hpush.
  destruct Hpush as (Hok0 & Hel0 & Hobjs0 & Harrs0 & _ & _ & Hcalls0 & Hal0 & Hco0).
  destruct (notify_spec (projects st) (listeners st) w0 Hok0)
    as (Hf & cs & Hcs & Hpre & Hall & Hnd & Hret).
  cbn zeta.
  assert (Hlen : length (objs (heap w0)) = S (length (objs (heap w)))).
  { rewrite Hobjs0, length_app. simpl. lia. }
  split; [apply Hf|].
  split; [now rewrite (fr_elements _ _ _ Hf)|].
  split; [pose proof (fr_objs _ _ _ Hf); lia|].
  split; [pose proof (fr_arrs _ _ _ Hf); lia|].
  split; [now rewrite (fr_alerts _ _ _ Hf)|].
  split; [now rewrite (fr_console _ _ _ Hf)|].
  exists cs. rewrite Hcs, Hcalls0, <- Hel0, <- Harrs0. auto.
Qed.


(** A notification loop that ends normally has invoked every callback it
    was given, in order. *)
Lemma notify_normal_calls (ps : loc) (ls : list Listener) (w : World) :
  (notify ps ls w).2 = Normal ->
  map callee (calls (notify ps ls w).1) = map callee (calls w) ++ ls.
Proof.
  revert w. induction ls as [|f rest IH]; intros w Hn.
  - cbn [notify fst]. now rewrite app_nil_r.
  - cbn [notify] in *. unfold slice, invoke in *.
    set (ms := effects _) in *. set (w1 := add_call _ _) in *.
    destruct (outcome _); cbn [fst snd] in *; [|discriminate].
    rewrite (IH _ Hn), mutations_calls. unfold w1. cbn [add_call calls add_outside
      set_arrs set_heap]. rewrite map_app, <- app_assoc. reflexivity.
Qed.

(** C10: in one [addProject] the callbacks invoked are the registered ones,
    in registration order, up to the first that throws: all of them when
    the call returns, which it does when the callbacks return.  Every
    invocation is passed an array of its own, allocated during the call,
    different from the store's array and from the arrays of the other
    invocations.  Whatever the callbacks do to the arrays they hold, each
    array passed holds, when it is passed, the store's elements with the
    new project, and the store's array holds the same after the call. *)
Theorem each_listener_gets_fresh_copy (rnd title description : jsstring)
    (numberOfPeople : number) (st : ProjectState) (w : World) :
  store_ok st w ->
  let r := addProject rnd title description numberOfPeople st w in
  let snapshot := elements (projects st) w ++ [length (objs (heap w))] in
  elements (projects st) r.1 = snapshot
  /\ store_ok st r.1
  /\ (Forall returns (listeners st) -> r.2 = Normal)
  /\ exists cs,
       calls r.1 = calls w ++ cs
       /\ map callee cs `prefix_of` listeners st
       /\ (r.2 = Normal -> map callee cs = listeners st)
       /\ NoDup (map argument cs)
       /\ Forall (fun c => length (arrs (heap w)) <= argument c
                           /\ argument c <> projects st
                           /\ received c = snapshot) cs.
Proof.
  intros Hok.
  destruct (addProject_spec rnd title description numberOfPeople st w Hok)
    as (Hok' & Hel & _ & _ & _ & _ & cs & Hcs & Hpre & Hall & Hnd & Hret).
  cbn zeta. split; [exact Hel|]. split; [exact Hok'|].
  split; [intros Hr; now apply Hret|].
  exists cs. split; [exact Hcs|]. split; [exact Hpre|].
  split; [|split; [exact Hnd | exact Hall]].
  intros Hn.
  pose proof (notify_normal_calls (projects st) (listeners st)
                (push (projects st)
                   (new_Project (Project.mk rnd title description numberOfPeople Active) w).1
                   (new_Project (Project.mk rnd title description numberOfPeople Active) w).2)
                Hn) as Hm.
  change (notify (projects st) (listeners st) _)
    with (addProject rnd title description numberOfPeople st w) in Hm.
  rewrite Hcs, map_app in Hm. cbn [push new_Project fst snd calls set_arrs set_heap
    set_objs] in Hm.
  now apply app_inv_head in Hm.
Qed.

(** ** The store from its creation *)

(** The constructor establishes the ownership of the new array. *)
Lemma new_ProjectState_ok (w : World) :
  Forall (fun a => a < length (arrs (heap w))) (outside w) ->
  store_ok (new_ProjectState w).1 (new_ProjectState w).2.
Proof.
  intros Ho. unfold store_ok, new_ProjectState. cbn [fst snd projects].
  split; simpl.
  - rewrite length_app; simpl. lia.
  - intros Hin. rewrite Forall_forall in Ho. apply Ho in Hin. lia.
  - unfold elements; simpl. rewrite list_lookup_middle by reflexivity.
    constructor.
  - eapply Forall_impl; [exact Ho|]. simpl. intros. rewrite length_app. lia.
Qed.

Lemma addListener_ok (f : Listener) (st : ProjectState) (w : World) :
  store_ok st w -> store_ok (addListener f st) w.
Proof. intros Hok. exact Hok. Qed.

Lemma fresh_store_ok (fs : list Listener) :
  store_ok (foldl (fun st f => addListener f st) (new_ProjectState empty_World).1 fs)
           (new_ProjectState empty_World).2.
Proof.
  assert (H0 : store_ok (new_ProjectState empty_World).1 (new_ProjectState empty_World).2).
  { apply new_ProjectState_ok. constructor. }
  revert H0. generalize (new_ProjectState empty_World).1 as st.
  induction fs as [|f fs IH]; intros st Hst; simpl; [exact Hst|].
  apply IH. now apply addListener_ok.
Qed.

Lemma set_page_ok (st : ProjectState) (pg : Page) (w : World) :
  store_ok st w -> store_ok st (set_page pg w).
Proof. intros [Ha Hp He Ho]. split; assumption. Qed.

Lemma startup_ok (rt : JsRuntime) : store_ok (startup rt).1 (startup rt).2.
Proof. apply set_page_ok. exact (fresh_store_ok [_; _]). Qed.

Lemma example_store_ok : store_ok example_store.1 example_store.2.
Proof. exact (fresh_store_ok [empty_it; idle]). Qed.

Lemma example_store_returns : Forall returns (listeners example_store.1).
Proof. repeat constructor. Qed.


Lemma each_listener_gets_fresh_copy_witness :
  let st := addListener idle (addListener empty_it (new_ProjectState empty_World).1) in
  let w := (new_ProjectState empty_World).2 in
  let r := addProject (u16 "0.5") (u16 "Build API") (u16 "Design the service")
             (of_Z 3) st w in
  store_ok st w
  /\ elements (projects st) r.1 = [0]
  /\ r.2 = Normal
  /\ exists cs, calls r.1 = cs /\ map callee cs = [empty_it; idle].
Proof.
  pose proof (each_listener_gets_fresh_copy (u16 "0.5") (u16 "Build API")
                (u16 "Design the service") (of_Z 3) _ _
                (fresh_store_ok [empty_it; idle]))
    as (Hel & _ & Hret & cs & Hcs & _ & Hall & _).
  split; [exact (fresh_store_ok [empty_it; idle])|].
  split; [exact Hel|].
  assert (Hn : Forall returns [empty_it; idle]) by (repeat constructor).
  split; [exact (Hret Hn)|].
  exists cs. split; [exact Hcs | exact (Hall (Hret Hn))].
Defined.

(** With a first callback that empties the array it is passed, the second
    callback is still passed the full collection, and the store keeps it. *)
Example emptied_copy_is_private :
  let st := addListener idle (addListener empty_it (new_ProjectState empty_World).1) in
  let w := (new_ProjectState empty_World).2 in
  let w' := (addProject (u16 "0.5") (u16 "Build API") (u16 "Design the service")
               (of_Z 3) st w).1 in
  map received (calls w') = [[0]; [0]]
  /\ map argument (calls w') = [1; 2]
  /\ elements 1 w' = [] /\ elements 2 w' = [0]
  /\ elements (projects st) w' = [0].
Proof. vm_compute. repeat split. Qed.

(** ** What is shared and what is not *)

Lemma mutate_objs_prefix (w : World) (m : Mutation) :
  isSetObject m = false ->
  objs (heap w) `prefix_of` objs (heap (mutate w m)).
Proof.
  destruct m as [prj | o prj | items | a items | pg]; simpl; intros Hm.
  - now apply prefix_app_r.
  - discriminate.
  - reflexivity.
  - now destruct (decide _).
  - reflexivity.
Qed.

Lemma mutations_objs_prefix (ms : list Mutation) (w : World) :
  forallb (fun m => negb (isSetObject m)) ms = true ->
  objs (heap w) `prefix_of` objs (heap (foldl mutate w ms)).
Proof.
  revert w. induction ms as [|m ms IH]; intros w Hms; simpl; [reflexivity|].
  simpl in Hms. apply andb_true_iff in Hms as [Hm Hms].
  apply negb_true_iff in Hm.
  etransitivity; [apply (mutate_objs_prefix w m Hm) | now apply IH].
Qed.

Lemma notify_objs_prefix (ps : loc) (ls : list Listener) (w : World) :
  Forall keeps_fields ls ->
  objs (heap w) `prefix_of` objs (heap (notify ps ls w).1).
Proof.
  revert w. induction ls as [|f rest IH]; intros w Hls; [reflexivity|].
  inversion Hls as [|? ? Hf Hrest]; subst.
  cbn [notify]. unfold slice, invoke.
  set (w2 := foldl mutate _ _).
  assert (Hpre : objs (heap w) `prefix_of` objs (heap w2)).
  { unfold w2. etransitivity; [|apply mutations_objs_prefix, Hf]. reflexivity. }
  destruct (outcome _); cbn [fst]; [|exact Hpre].
  etransitivity; [exact Hpre | now apply IH].
Qed.

Lemma view_prefix (w w' : World) (items : list loc) :
  objs (heap w) `prefix_of` objs (heap w') ->
  Forall (fun o => o < length (objs (heap w))) items ->
  view w' items = view w items.
Proof.
  intros Hpre Hall. unfold view.
  induction Hall as [|o items Ho Hall IH]; [reflexivity|].
  cbn [omap list_omap].
  rewrite <- (prefix_lookup_lt _ _ _ Ho Hpre). now rewrite IH.
Qed.

Lemma mutate_arrs_length (w : World) (m : Mutation) :
  length (arrs (heap w)) <= length (arrs (heap (mutate w m))).
Proof.
  destruct m as [prj | o prj | items | a items | pg]; simpl; auto.
  - rewrite length_app. lia.
  - destruct (decide _); simpl; [rewrite length_insert|]; lia.
Qed.

Lemma mutate_keeps_array (a : loc) (w : World) (m : Mutation) :
  writesArray a m = false ->
  a < length (arrs (heap w)) ->
  elements a (mutate w m) = elements a w.
Proof.
  destruct m as [prj | o prj | items | a' items | pg]; simpl; intros Hm Ha; auto.
  - unfold elements; simpl. now rewrite lookup_app_l.
  - apply Nat.eqb_neq in Hm. destruct (decide _); [|reflexivity].
    unfold elements; simpl. now rewrite list_lookup_insert_ne.
Qed.

Lemma mutations_keep_array (a : loc) (ms : list Mutation) (w : World) :
  forallb (fun m => negb (writesArray a m)) ms = true ->
  a < length (arrs (heap w)) ->
  elements a (foldl mutate w ms) = elements a w
  /\ a < length (arrs (heap (foldl mutate w ms))).
Proof.
  revert w. induction ms as [|m ms IH]; intros w Hms Ha; simpl; [auto|].
  simpl in Hms. apply andb_true_iff in Hms as [Hm Hms].
  apply negb_true_iff in Hm.
  pose proof (mutate_arrs_length w m) as Hlen.
  destruct (IH (mutate w m) Hms ltac:(lia)) as [Hel Hlt].
  split; [|exact Hlt]. rewrite Hel. now apply mutate_keeps_array.
Qed.

Lemma notify_keeps_array (a ps : loc) (ls : list Listener) (w : World) :
  forallb (fun m => negb (writesArray a m)) (notify_effects ps ls w) = true ->
  a < length (arrs (heap w)) ->
  elements a (notify ps ls w).1 = elements a w.
Proof.
  revert w. induction ls as [|f rest IH]; intros w Hls Ha; [reflexivity|].
  cbn [notify notify_effects] in *. unfold slice, invoke in *.
  set (w1 := add_call _ (add_outside _ (set_arrs _ w))) in *.
  assert (Ha1 : a < length (arrs (heap w1))).
  { unfold w1; simpl. rewrite length_app. lia. }
  assert (Hel1 : elements a w1 = elements a w).
  { unfold w1, elements; simpl. now rewrite lookup_app_l. }
  rewrite forallb_app in Hls. apply andb_true_iff in Hls as [Hf Hrest].
  destruct (mutations_keep_array a _ w1 Hf Ha1) as [Hel Hlt].
  destruct (outcome _); cbn [fst].
  - rewrite IH; auto. now rewrite Hel.
  - now rewrite Hel.
Qed.

(** C4, as the code has it: the copy is of the array, not of the projects.
    No mutation made outside the store changes which references the store's
    array holds, and unless it assigns to a field of a project it does not
    change the collection the store reads; an array delivered earlier keeps
    its elements through a later [addProject] unless a callback invoked
    during that call changes that very array (a callback that changes the
    array it is passed changes a new array, not the earlier one). *)
Theorem snapshot_arrays_independent (st : ProjectState) (w : World) :
  store_ok st w ->
  (forall m, elements (projects st) (mutate w m) = elements (projects st) w)
  /\ (forall m, isSetObject m = false -> entities st (mutate w m) = entities st w)
  /\ (forall a rnd title description n,
        a ∈ outside w ->
        forallb (fun m => negb (writesArray a m))
          (addProject_effects rnd title description n st w) = true ->
        elements a (addProject rnd title description n st w).1 = elements a w).
Proof.
  intros Hok. split; [|split].
  - intros m. apply (mutate_frame _ _ m Hok).
  - intros m Hm. unfold entities.
    rewrite (fr_elements _ _ _ (mutate_frame _ _ m Hok)).
    apply view_prefix; [now apply mutate_objs_prefix | apply Hok].
  - intros a rnd title description n Hin Hls.
    assert (Hne : a <> projects st).
    { intros ->. now apply (ok_private _ _ Hok). }
    assert (Ha : a < length (arrs (heap w))).
    { pose proof (ok_outside _ _ Hok) as Ho. rewrite Forall_forall in Ho. auto. }
    destruct (push_new_spec (projects st)
                (Project.mk rnd title description n Active) w Hok)
      as (_ & _ & _ & Hlen & Hother & _).
    change (addProject rnd title description n st w)
      with (notify (projects st) (listeners st)
              (push (projects st)
                 (new_Project (Project.mk rnd title description n Active) w).1
                 (new_Project (Project.mk rnd title description n Active) w).2)).
    change (addProject_effects rnd title description n st w)
      with (notify_effects (projects st) (listeners st)
              (push (projects st)
                 (new_Project (Project.mk rnd title description n Active) w).1
                 (new_Project (Project.mk rnd title description n Active) w).2)) in Hls.
    rewrite notify_keeps_array; auto. now rewrite Hlen.
Qed.

Lemma snapshot_arrays_independent_witness :
  let st := addListener empty_it (addListener idle (new_ProjectState empty_World).1) in
  let w := (addProject (u16 "0.5") (u16 "Build API") (u16 "Design the service")
              (of_Z 3) st (new_ProjectState empty_World).2).1 in
  store_ok st w
  /\ elements (projects st) (mutate w (SetArray 1 [])) = [0]
  /\ elements 1 (addProject (u16 "0.75") (u16 "Write docs") (u16 "Explain the service")
                   (of_Z 2) st w).1 = [0].
Proof.
  assert (Hok : store_ok (addListener empty_it
                            (addListener idle (new_ProjectState empty_World).1))
                  (addProject (u16 "0.5") (u16 "Build API")
                     (u16 "Design the service") (of_Z 3)
                     (addListener empty_it
                        (addListener idle (new_ProjectState empty_World).1))
                     (new_ProjectState empty_World).2).1).
  { apply addProject_spec. exact (fresh_store_ok [idle; empty_it]). }
  split; [exact Hok|].
  split; [exact (proj1 (snapshot_arrays_independent _ _ Hok) (SetArray 1 []))|].
  refine (proj2 (proj2 (snapshot_arrays_independent _ _ Hok)) 1 (u16 "0.75")
            (u16 "Write docs") (u16 "Explain the service") (of_Z 2) _ _).
  - vm_compute. constructor.
  - vm_compute. reflexivity.
Defined.

(** C4, as stated, fails: the projects are shared.  After an [addProject]
    on a store with one callback, the assignment of a field of the first
    element of the delivered array (here [items[0].status =
    ProjectStatus.Finished], made by outside code holding that array)
    changes the collection as the store reads it. *)
Lemma snapshot_shares_projects :
  let st := addListener idle (new_ProjectState empty_World).1 in
  let w := (addProject (u16 "0.5") (u16 "Build API") (u16 "Design the service")
              (of_Z 3) st (new_ProjectState empty_World).2).1 in
  let delivered := 1 in
  let m := SetObject (hd 0 (elements delivered w))
             (Project.mk (u16 "0.5") (u16 "Build API") (u16 "Design the service")
                (of_Z 3) Finished) in
  map argument (calls w) = [delivered]
  /\ map Project.status (entities st w) = [Active]
  /\ map Project.status (entities st (mutate w m)) = [Finished]
  /\ entities st (mutate w m) <> entities st w.
Proof.
  vm_compute. repeat split. discriminate.
Qed.

(** ** Executions *)

Lemma step_spec (s : ProjectState * World) (op : Op) :
  store_ok s.1 s.2 ->
  projects (step s op).1 = projects s.1
  /\ store_ok (step s op).1 (step s op).2
  /\ elements (projects s.1) (step s op).2
     = elements (projects s.1) s.2 ++ created_by op s
  /\ length (objs (heap s.2)) <= length (objs (heap (step s op).2))
  /\ Forall (fun o => length (objs (heap s.2)) <= o
                      < length (objs (heap (step s op).2))) (created_by op s)
  /\ exists cs,
       calls (step s op).2 = calls s.2 ++ cs
       /\ Forall (fun c => exists o, created_by op s = [o]
                    /\ received c = elements (projects s.1) s.2 ++ [o]) cs.
Proof.
  destruct s as [st w]. cbn [fst snd]. intros Hok.
  destruct op as [f | rnd title description n | m]; cbn [step created_by fst snd].
  - rewrite app_nil_r.
    split; [reflexivity|]. split; [exact Hok|]. split; [reflexivity|].
    split; [lia|]. split; [constructor|].
    exists []. rewrite app_nil_r. auto.
  - destruct (addProject_spec rnd title description n st w Hok)
      as (Hok' & Hel & Hobjs & _ & _ & _ & cs & Hcs & _ & Hall & _).
    cbn zeta in *.
    split; [reflexivity|]. split; [exact Hok'|]. split; [exact Hel|].
    split; [lia|]. split; [constructor; [lia | constructor]|].
    exists cs. split; [exact Hcs|].
    eapply Forall_impl; [exact Hall|]. simpl. intros c (_ & _ & ->). eauto.
  - pose proof (mutate_frame (projects st) w m Hok) as Hf.
    rewrite app_nil_r.
    split; [reflexivity|]. split; [apply Hf|]. split; [apply Hf|].
    split; [apply Hf|]. split; [constructor|].
    exists []. rewrite app_nil_r, mutate_calls. auto.
Qed.

Lemma created_length (ops : list Op) (s : ProjectState * World) :
  length (created ops s) = length (draws ops).
Proof.
  revert s. induction ops as [|op rest IH]; intros s; [reflexivity|].
  cbn [created]. rewrite length_app, IH. unfold draws.
  destruct op; reflexivity.
Qed.

(** The store's array along an execution: it grows by the references
    created, in the order of their creation, and every array passed to a
    callback holds an initial part of the final one. *)
Lemma run_spec (ops : list Op) (s : ProjectState * World) :
  store_ok s.1 s.2 ->
  projects (run ops s).1 = projects s.1
  /\ store_ok (run ops s).1 (run ops s).2
  /\ elements (projects s.1) (run ops s).2
     = elements (projects s.1) s.2 ++ created ops s
  /\ length (objs (heap s.2)) <= length (objs (heap (run ops s).2))
  /\ Forall (fun o => length (objs (heap s.2)) <= o
                      < length (objs (heap (run ops s).2))) (created ops s)
  /\ NoDup (created ops s)
  /\ exists cs,
       calls (run ops s).2 = calls s.2 ++ cs
       /\ Forall (fun c => exists k, 0 < k <= length (created ops s)
                    /\ received c
                       = elements (projects s.1) s.2 ++ take k (created ops s)) cs.
Proof.
  revert s. induction ops as [|op rest IH]; intros s Hok.
  - cbn [run foldl created]. rewrite app_nil_r.
    split; [reflexivity|]. split; [exact Hok|]. split; [reflexivity|].
    split; [lia|]. split; [constructor|]. split; [constructor|].
    exists []. rewrite app_nil_r. auto.
  - change (run (op :: rest) s) with (run rest (step s op)). cbn [created].
    destruct (step_spec s op Hok) as (Hp1 & Hok1 & Hel1 & Hlen1 & Hnew1 & cs1 & Hcs1 & Hall1).
    destruct (IH (step s op) Hok1) as (Hp2 & Hok2 & Hel2 & Hlen2 & Hnew2 & Hnd2 & cs2 & Hcs2 & Hall2).
    rewrite Hp1 in Hel2, Hall2, Hp2.
    split; [exact Hp2|]. split; [exact Hok2|].
    split; [rewrite Hel2, Hel1, <- app_assoc; reflexivity|].
    split; [lia|].
    split; [apply Forall_app; split;
            (eapply Forall_impl; [eassumption|]; simpl; intros; lia)|].
    split.
    { apply NoDup_app. split; [|split; [|exact Hnd2]].
      - destruct op; cbn [created_by]; try constructor.
        + apply not_elem_of_nil.
        + constructor.
      - intros o Ho1 Ho2. rewrite Forall_forall in Hnew1, Hnew2.
        apply Hnew1 in Ho1. apply Hnew2 in Ho2. lia. }
    exists (cs1 ++ cs2). split; [rewrite Hcs2, Hcs1, <- app_assoc; reflexivity|].
    apply Forall_app. split.
    + eapply Forall_impl; [exact Hall1|]. simpl. intros c (o & Ho & ->).
      exists 1. rewrite Ho. cbn [app take length]. split; [lia|].
      now rewrite take_0.
    + eapply Forall_impl; [exact Hall2|]. simpl. intros c (k & Hk & ->).
      exists (length (created_by op s) + k). rewrite length_app. split; [lia|].
      rewrite Hel1, <- app_assoc. f_equal.
      rewrite take_app_add'; reflexivity.
Qed.

(** C8: along any execution from a store that owns its array (projects
    added, callbacks registered, outside code mutating what it holds), the
    store's array is what it was followed by the references of the projects
    added, in the order of the [addProject] calls and without repetition,
    and every array passed to a callback holds such an initial part: the
    old elements then the first [k] projects added, in that order. *)
Theorem append_only_order (ops : list Op) (st : ProjectState) (w : World) :
  store_ok st w ->
  let s' := run ops (st, w) in
  let added := created ops (st, w) in
  length added = length (draws ops)
  /\ NoDup added
  /\ elements (projects s'.1) s'.2 = elements (projects st) w ++ added
  /\ exists cs,
       calls s'.2 = calls w ++ cs
       /\ Forall (fun c => exists k, 0 < k <= length added
                    /\ received c = elements (projects st) w ++ take k added) cs.
Proof.
  intros Hok. cbn zeta.
  destruct (run_spec ops (st, w) Hok) as (Hp & _ & Hel & _ & _ & Hnd & Hcalls).
  cbn [fst snd] in *.
  split; [apply created_length|]. split; [exact Hnd|].
  split; [now rewrite Hp|]. exact Hcalls.
Qed.

Lemma append_only_order_witness :
  store_ok (startup example_runtime).1 (startup example_runtime).2
  /\ elements (projects (startup example_runtime).1)
       (run [AddProject (u16 "0.25") (u16 "Build API") (u16 "Design the service") (of_Z 3);
             AddProject (u16 "0.75") (u16 "Write docs") (u16 "Explain the service") (of_Z 2)]
          (startup example_runtime)).2 = [0; 1].
Proof.
  split; [exact (startup_ok example_runtime)|].
  exact (proj1 (proj2 (proj2
    (append_only_order
       [AddProject (u16 "0.25") (u16 "Build API") (u16 "Design the service") (of_Z 3);
        AddProject (u16 "0.75") (u16 "Write docs") (u16 "Explain the service") (of_Z 2)]
       (startup example_runtime).1 (startup example_runtime).2 (startup_ok example_runtime))))).
Defined.

(** ** The ids *)

Lemma mutate_keeps_entities (st : ProjectState) (w : World) (m : Mutation) :
  store_ok st w ->
  isSetObject m = false ->
  entities st (mutate w m) = entities st w.
Proof.
  intros Hok Hm. unfold entities.
  rewrite (fr_elements _ _ _ (mutate_frame _ _ m Hok)).
  apply view_prefix; [now apply mutate_objs_prefix | apply Hok].
Qed.

(** When no callback assigns to a field, the collection read by the store
    after [addProject] is the former one followed by the object
    constructed. *)
Lemma addProject_entities (rnd title description : jsstring) (n : number)
    (st : ProjectState) (w : World) :
  store_ok st w ->
  Forall keeps_fields (listeners st) ->
  entities st (addProject rnd title description n st w).1
  = entities st w ++ [Project.mk rnd title description n Active].
Proof.
  intros Hok Hls. pose proof Hok as [_ _ He _].
  destruct (addProject_spec rnd title description n st w Hok)
    as (_ & Hel & _).
  cbn zeta in Hel. unfold entities. rewrite Hel. clear Hel.
  destruct (push_new_spec (projects st)
              (Project.mk rnd title description n Active) w Hok)
    as (_ & _ & Hobjs & _).
  change (addProject rnd title description n st w)
    with (notify (projects st) (listeners st)
            (push (projects st)
               (new_Project (Project.mk rnd title description n Active) w).1
               (new_Project (Project.mk rnd title description n Active) w).2)).
  set (w0 := push (projects st) _ _) in *. cbn zeta in Hobjs.
  assert (Hw0 : view w0 (elements (projects st) w ++ [length (objs (heap w))])
                = view w (elements (projects st) w)
                  ++ [Project.mk rnd title description n Active]).
  { unfold view at 1. rewrite omap_app. f_equal.
    - apply (view_prefix w w0); [|exact He].
      rewrite Hobjs. now apply prefix_app_r.
    - cbn [omap list_omap]. rewrite Hobjs. now rewrite list_lookup_middle. }
  rewrite <- Hw0. apply view_prefix.
  - now apply notify_objs_prefix.
  - rewrite Hobjs, length_app. cbn [length]. apply Forall_app. split.
    + eapply Forall_impl; [exact He|]. cbn beta; intros; lia.
    + constructor; [lia | constructor].
Qed.

Lemma run_entities (ops : list Op) (s : ProjectState * World) :
  store_ok s.1 s.2 ->
  Forall keeps_fields (listeners s.1) ->
  Forall op_keeps_fields ops ->
  entities (run ops s).1 (run ops s).2
  = entities s.1 s.2 ++ flat_map constructed ops.
Proof.
  revert s. induction ops as [|op rest IH]; intros s Hok Hls Hops.
  - cbn [run foldl flat_map]. now rewrite app_nil_r.
  - change (run (op :: rest) s) with (run rest (step s op)).
    inversion Hops as [|? ? Hop Hrest]; subst.
    destruct (step_spec s op Hok) as (_ & Hok1 & _).
    assert (Hstep : entities (step s op).1 (step s op).2
                    = entities s.1 s.2 ++ constructed op
                    /\ Forall keeps_fields (listeners (step s op).1)).
    { destruct s as [st w]. cbn [fst snd] in *.
      destruct op as [f | rnd title description n | m];
        cbn [step constructed fst snd listeners addListener].
      - rewrite app_nil_r. split; [reflexivity|].
        apply Forall_app. split; [exact Hls|]. constructor; [exact Hop | constructor].
      - split; [now apply addProject_entities | exact Hls].
      - rewrite app_nil_r. split; [now apply mutate_keeps_entities | exact Hls]. }
    destruct Hstep as [Hent Hls1].
    rewrite (IH (step s op) Hok1 Hls1 Hrest), Hent.
    cbn [flat_map]. now rewrite app_assoc.
Qed.

Lemma flat_map_constructed_ids (ops : list Op) :
  map Project.id (flat_map constructed ops) = draws ops.
Proof.
  unfold draws. induction ops as [|op rest IH]; [reflexivity|].
  cbn [flat_map]. rewrite map_app, IH. destruct op; reflexivity.
Qed.

(** C2, as the code has it: the id of a project is the string drawn by
    [Math.random().toString()] in the call that adds it, and nothing
    compares it with the ids already given.  When no callback or outside
    code assigns to the fields of a project, the ids read from the store
    after an execution are the former ids followed by the strings drawn,
    call by call; so the projects of two calls have different ids exactly
    when the two draws differ. *)
Theorem ids_are_the_draws (ops : list Op) (st : ProjectState) (w : World) :
  store_ok st w ->
  Forall keeps_fields (listeners st) ->
  Forall op_keeps_fields ops ->
  let s' := run ops (st, w) in
  map Project.id (entities s'.1 s'.2)
  = map Project.id (entities st w) ++ draws ops.
Proof.
  intros Hok Hls Hops. cbn zeta.
  rewrite (run_entities ops (st, w) Hok Hls Hops).
  cbn [fst snd]. now rewrite map_app, flat_map_constructed_ids.
Qed.

Lemma ProjectList_listener_keeps_fields `{JsRuntime} (type : ListType)
    (this : Component) :
  keeps_fields (ProjectList_listener type this).
Proof.
  intros a h. unfold ProjectList_listener.
  now destruct (ProjectList_renderProjects _ _ _ _).
Qed.

Lemma startup_keeps_fields (rt : JsRuntime) :
  Forall keeps_fields (listeners (startup rt).1).
Proof. repeat constructor; apply ProjectList_listener_keeps_fields. Qed.

Lemma ids_are_the_draws_witness :
  let ops := [AddProject (u16 "0.25") (u16 "Build API") (u16 "Design the service") (of_Z 3);
              AddProject (u16 "0.75") (u16 "Write docs") (u16 "Explain the service") (of_Z 2)] in
  store_ok (startup example_runtime).1 (startup example_runtime).2
  /\ Forall keeps_fields (listeners (startup example_runtime).1)
  /\ Forall op_keeps_fields ops
  /\ map Project.id (entities (run ops (startup example_runtime)).1 (run ops (startup example_runtime)).2)
     = [u16 "0.25"; u16 "0.75"].
Proof.
  intros ops.
  assert (Hops : Forall op_keeps_fields ops) by (repeat constructor).
  split; [exact (startup_ok example_runtime)|]. split; [exact (startup_keeps_fields example_runtime)|].
  split; [exact Hops|].
  exact (ids_are_the_draws ops (startup example_runtime).1 (startup example_runtime).2 (startup_ok example_runtime)
           (startup_keeps_fields example_runtime) Hops).
Defined.

(** C2, as stated, fails: nothing keeps [Math.random] from returning the
    same number twice.  Two [addProject] calls that both draw 0.5 leave two
    projects with the same id in the store. *)
Lemma equal_draws_equal_ids :
  let ops := [AddProject (u16 "0.5") (u16 "Build API") (u16 "Design the service") (of_Z 3);
              AddProject (u16 "0.5") (u16 "Write docs") (u16 "Explain the service") (of_Z 2)] in
  let s' := run ops (startup example_runtime) in
  elements (projects s'.1) s'.2 = [0; 1]
  /\ map Project.title (entities s'.1 s'.2) = [u16 "Build API"; u16 "Write docs"]
  /\ map Project.id (entities s'.1 s'.2) = [u16 "0.5"; u16 "0.5"].
Proof. vm_compute. repeat split. Qed.

(** ** The form *)

Lemma console_log_ok (ps : loc) (line : jsstring * jsstring * number) (w : World) :
  owns ps w -> owns ps (console_log line w).
Proof. intros [Ha Hp He Ho]. split; assumption. Qed.

(** C1: the gate of the form as written.  When the three fields pass
    validation the handler alerts "try again :(" and the store is not
    touched: no project, no invocation, the inputs stay.  Otherwise it logs
    the values and calls [addProject] with the title, the description and
    the people text converted to a number; it then clears the three inputs
    (when [addProject] returns, which it does when every callback
    returns). *)
Theorem submit_gate `{JsRuntime} (rnd : jsstring) (event : Event)
    (this : ProjectInput) (projectState : ProjectState) (w : World) :
  let r := submitHandler rnd event this projectState w in
  let line := (titleInputElement this, descriptionInputElement this,
               StringToNumber (peopleInputElement this)) in
  let added := addProject rnd (titleInputElement this)
                 (descriptionInputElement this)
                 (StringToNumber (peopleInputElement this))
                 projectState (console_log line w) in
  if allValid this
  then r = (mkEvent true, this, alert (u16 "try again :(") w, Normal)
       /\ heap r.1.2 = heap w /\ calls r.1.2 = calls w
       /\ console r.1.2 = console w
       /\ alerts r.1.2 = alerts w ++ [u16 "try again :("]
  else r = (mkEvent true,
            match added.2 with Normal => mkProjectInput [] [] [] | Throw => this end,
            added.1, added.2)
       /\ (store_ok projectState w -> Forall returns (listeners projectState) ->
           r = (mkEvent true, mkProjectInput [] [] [], added.1, Normal)).
Proof.
  cbn zeta. unfold submitHandler, gatherUserInput, allValid.
  destruct (validate (titleValidatable (titleInputElement this))
            && validate (descriptionValidatable (descriptionInputElement this))
            && validate (peopleValidatable (peopleInputElement this))).
  - repeat split.
  - set (line := (titleInputElement this, descriptionInputElement this,
                  StringToNumber (peopleInputElement this))).
    set (added := addProject _ _ _ _ _ _).
    assert (Hr : (let '(w0, c) := added in
                  match c with
                  | Normal => (preventDefault event, clearInputs this, w0, Normal)
                  | Throw => (preventDefault event, this, w0, Throw)
                  end)
                 = (mkEvent true,
                    match added.2 with Normal => mkProjectInput [] [] [] | Throw => this end,
                    added.1, added.2)).
    { destruct added as [w0 []]; reflexivity. }
    split; [exact Hr|].
    intros Hok Hret. rewrite Hr.
    destruct (addProject_spec rnd (titleInputElement this)
                (descriptionInputElement this)
                (StringToNumber (peopleInputElement this)) projectState
                (console_log line w) (console_log_ok _ line w Hok))
      as (_ & _ & _ & _ & _ & _ & cs & _ & _ & _ & _ & Hnormal).
    destruct (Hnormal Hret) as [_ Hc]. fold added in Hc. now rewrite Hc.
Qed.

(** ** Reachable states and failing callbacks *)

(** Every state reached from a store that owns its array owns it, so every
    state of a store created by the constructor does. *)
Lemma run_ok (ops : list Op) (s : ProjectState * World) :
  store_ok s.1 s.2 -> store_ok (run ops s).1 (run ops s).2.
Proof. intros Hok. apply (run_spec ops s Hok). Qed.

(** A callback that throws ends the loop: the project is in the store, the
    callbacks registered after it are not invoked. *)
Example thrower_stops_notification :
  let st := addListener idle (addListener thrower (new_ProjectState empty_World).1) in
  let r := addProject (u16 "0.5") (u16 "Build API") (u16 "Design the service")
             (of_Z 3) st (new_ProjectState empty_World).2 in
  r.2 = Throw
  /\ length (calls r.1) = 1
  /\ elements (projects st) r.1 = [0].
Proof. repeat split. Qed.

(** A callback registered twice is invoked twice by one [addProject]. *)
Example double_registration :
  let st := addListener idle (addListener idle (new_ProjectState empty_World).1) in
  let r := addProject (u16 "0.5") (u16 "Build API") (u16 "Design the service")
             (of_Z 3) st (new_ProjectState empty_World).2 in
  r.2 = Normal
  /\ map callee (calls r.1) = [idle; idle]
  /\ map received (calls r.1) = [[0]; [0]].
Proof. repeat split. Qed.

(** * Further properties of the code *)

(** ** [validate] *)

Lemma trim_blank (s : jsstring) : blank s = true -> length (trim s) = 0.
Proof. intros Hb. apply trim_nil in Hb. now rewrite Hb. Qed.

Lemma trim_not_blank (s : jsstring) : blank s = false -> length (trim s) <> 0.
Proof.
  intros Hb Hlen. destruct (trim s) eqn:T; [|discriminate].
  apply trim_nil in T. unfold blank in Hb. congruence.
Qed.

(** X1: a required text made of white space only (the empty text among
    them) is invalid, whatever the other constraints are. *)
Theorem required_rejects_blank `{JsRuntime} (v : Validatable.t) (s : jsstring) :
  Validatable.value v = Str s ->
  Validatable.required v = Some true ->
  blank s = true ->
  validate v = false.
Proof.
  destruct v as [val req mnl mxl mn mx].
  cbn [Validatable.value Validatable.required]. intros -> -> Hb.
  unfold validate.
  cbn [Validatable.value Validatable.required Validatable.minLength
       Validatable.maxLength Validatable.min Validatable.max truthy
       strnum_toString].
  rewrite (trim_blank s Hb).
  destruct mnl, mxl, mn, mx; reflexivity.
Qed.

Lemma required_rejects_blank_witness :
  @validate example_runtime
    (Validatable.mk (Str (u16 "   ")) (Some true) (Some (of_Z 0)) None None None)
  = false.
Proof.
  apply (@required_rejects_blank example_runtime
           (Validatable.mk (Str (u16 "   ")) (Some true) (Some (of_Z 0)) None None None)
           (u16 "   ")); reflexivity.
Defined.

(** X2: a constraint of the other type is ignored.  [min] and [max] never
    bear on a text and [minLength] and [maxLength] never bear on a number;
    and a [min] or [max] that does bear is failed by NaN, on either side
    of the comparison. *)
Theorem mismatched_constraints_ignored `{JsRuntime}
    (req : option bool) (mnl mxl mn mx : option number) :
  (forall s, validate (Validatable.mk (Str s) req mnl mxl mn mx)
             = validate (Validatable.mk (Str s) req mnl mxl None None))
  /\ (forall n, validate (Validatable.mk (Num n) req mnl mxl mn mx)
                = validate (Validatable.mk (Num n) req None None mn mx))
  /\ (validate (Validatable.mk (Num NaN) req mnl mxl mn mx) = true ->
      mn = None /\ mx = None)
  /\ (forall n, mn = Some NaN \/ mx = Some NaN ->
                validate (Validatable.mk (Num n) req mnl mxl mn mx) = false).
Proof.
  split; [|split; [|split]].
  - intros s. destruct mnl, mxl, mn, mx; reflexivity.
  - intros n. destruct mnl, mxl, mn, mx; reflexivity.
  - unfold validate.
    cbn [Validatable.value Validatable.required Validatable.minLength
         Validatable.maxLength Validatable.min Validatable.max].
    destruct mnl, mxl, mn as [b|], mx as [b'|]; unfold js_gt; cbn [js_lt];
      rewrite ?andb_false_r; try discriminate; auto.
    all: destruct b; cbn [js_lt andb]; rewrite ?andb_false_r; discriminate.
  - intros n Hnan. unfold validate.
    cbn [Validatable.value Validatable.required Validatable.minLength
         Validatable.maxLength Validatable.min Validatable.max].
    destruct Hnan as [-> | ->].
    + assert (Hgt : js_gt n NaN = false) by (destruct n; reflexivity).
      rewrite Hgt. destruct mnl, mxl, mx; rewrite ?andb_false_r; reflexivity.
    + assert (Hlt : js_lt n NaN = false) by (destruct n; reflexivity).
      rewrite Hlt. destruct mnl, mxl, mn; rewrite ?andb_false_r; reflexivity.
Qed.

(** X3: dropping constraints never turns a valid input invalid: an input
    that [validate] accepts is accepted under every selection of its
    constraints. *)
Theorem validate_relaxed `{JsRuntime} (val : strnum)
    (req req' : option bool) (mnl mnl' mxl mxl' mn mn' mx mx' : option number) :
  relaxed req' req -> relaxed mnl' mnl -> relaxed mxl' mxl ->
  relaxed mn' mn -> relaxed mx' mx ->
  validate (Validatable.mk val req mnl mxl mn mx) = true ->
  validate (Validatable.mk val req' mnl' mxl' mn' mx') = true.
Proof.
  unfold relaxed, validate.
  cbn [Validatable.value Validatable.required Validatable.minLength
       Validatable.maxLength Validatable.min Validatable.max].
  intros [-> | ->] [-> | ->] [-> | ->] [-> | ->] [-> | ->];
    destruct val, req as [[|]|], mnl, mxl, mn, mx; cbn [truthy andb];
    rewrite ?andb_true_iff; tauto.
Qed.

Lemma validate_relaxed_witness :
  @validate example_runtime
    (Validatable.mk (Str (u16 "Design the service")) (Some true) None None None None)
  = true.
Proof.
  apply (@validate_relaxed example_runtime (Str (u16 "Design the service"))
           (Some true) (Some true) (Some (of_Z 5)) None None None None None None None);
    unfold relaxed; auto.
Defined.

(** X4: both length bounds being strict, a [minLength] and a [maxLength]
    less than two apart (as [minLength: 5, maxLength: 6]) leave no text
    valid. *)
Theorem empty_length_window `{JsRuntime} (s : jsstring) (lo hi : Z)
    (req : option bool) (mn mx : option number) :
  (hi <= lo + 1)%Z ->
  validate (Validatable.mk (Str s) req (Some (of_Z lo)) (Some (of_Z hi)) mn mx) = false.
Proof.
  intros Hwin.
  destruct (validate _) eqn:E; [exfalso | reflexivity].
  unfold validate in E.
  cbn [Validatable.value Validatable.required Validatable.minLength
       Validatable.maxLength Validatable.min Validatable.max] in E.
  assert (E' : js_gt (of_len (length s)) (of_Z lo)
               && js_lt (of_len (length s)) (of_Z hi) = true).
  { destruct mn, mx; apply andb_true_iff in E as [E Hlt];
      apply andb_true_iff in E as [_ Hgt]; now rewrite Hgt, Hlt. }
  apply andb_true_iff in E' as [Hgt Hlt].
  apply js_gt_spec in Hgt. apply js_lt_spec in Hlt.
  unfold of_len in Hgt, Hlt.
  apply (proj1 (num_lt_of_Z _ _)) in Hgt. apply (proj1 (num_lt_of_Z _ _)) in Hlt. lia.
Qed.

Lemma empty_length_window_witness :
  @validate example_runtime
    (Validatable.mk (Str (u16 "abcdef")) None (Some (of_Z 5)) (Some (of_Z 6)) None None)
  = false.
Proof.
  apply (@empty_length_window example_runtime (u16 "abcdef") 5 6 None None None). lia.
Defined.

(** ** The form *)

Lemma fields_validity `{JsRuntime} :
  (forall s, validate (titleValidatable s) = negb (blank s))
  /\ (forall s, validate (descriptionValidatable s)
                = negb (blank s) && (5 <? length s))
  /\ (forall s, validate (peopleValidatable s) = negb (blank s)).
Proof.
  assert (Hreq : forall s, negb (length (trim s) =? 0) = negb (blank s)).
  { intros s. f_equal. destruct (blank s) eqn:E.
    - now rewrite (trim_blank s E).
    - apply Nat.eqb_neq. now apply trim_not_blank. }
  split; [|split].
  - intros s. rewrite <- Hreq. reflexivity.
  - intros s. rewrite <- Hreq. unfold validate, descriptionValidatable.
    cbn [Validatable.value Validatable.required Validatable.minLength
         Validatable.maxLength Validatable.min Validatable.max truthy
         strnum_toString andb].
    f_equal. apply eq_true_iff_eq. rewrite js_gt_spec. unfold of_len.
    rewrite num_lt_of_Z, Nat.ltb_lt. lia.
  - intros s. rewrite <- Hreq. reflexivity.
Qed.

(** X5: the condition tested by [gatherUserInput].  The title passes when
    it is not blank, the description when it is not blank and longer than
    five code units, the people text when it is not blank; the condition
    holds when the three pass. *)
Theorem allValid_characterisation `{JsRuntime} (this : ProjectInput) :
  validate (titleValidatable (titleInputElement this))
    = negb (blank (titleInputElement this))
  /\ validate (descriptionValidatable (descriptionInputElement this))
     = negb (blank (descriptionInputElement this))
       && (5 <? length (descriptionInputElement this))
  /\ validate (peopleValidatable (peopleInputElement this))
     = negb (blank (peopleInputElement this))
  /\ allValid this
     = negb (blank (titleInputElement this))
       && (negb (blank (descriptionInputElement this))
           && (5 <? length (descriptionInputElement this)))
       && negb (blank (peopleInputElement this)).
Proof.
  destruct fields_validity as (Ht & Hd & Hp).
  unfold allValid. rewrite Ht, Hd, Hp. auto.
Qed.

(** X6: what the form stores.  A submission adds a project to the store
    exactly when some field is rejected: a blank title, a description that
    is blank or of five code units or fewer, or a blank people text.  A
    submission whose three fields are accepted leaves the heap and the
    invocations as they were. *)
Theorem form_stores_only_rejected_input `{JsRuntime} (rnd : jsstring) (event : Event)
    (this : ProjectInput) (projectState : ProjectState) (w : World) :
  store_ok projectState w ->
  let w' := (submitHandler rnd event this projectState w).1.2 in
  if negb (blank (titleInputElement this))
     && (negb (blank (descriptionInputElement this))
         && (5 <? length (descriptionInputElement this)))
     && negb (blank (peopleInputElement this))
  then heap w' = heap w /\ calls w' = calls w
  else elements (projects projectState) w'
       = elements (projects projectState) w ++ [length (objs (heap w))].
Proof.
  intros Hok. cbn zeta. unfold submitHandler, gatherUserInput.
  destruct fields_validity as (Ht & Hd & Hp). rewrite Ht, Hd, Hp.
  destruct (negb (blank (titleInputElement this)) && _ && _).
  - split; reflexivity.
  - set (line := (titleInputElement this, descriptionInputElement this,
                  StringToNumber (peopleInputElement this))).
    destruct (addProject_spec rnd (titleInputElement this)
                (descriptionInputElement this)
                (StringToNumber (peopleInputElement this)) projectState
                (console_log line w) (console_log_ok _ line w Hok))
      as (_ & Hel & _).
    cbn zeta in Hel.
    destruct (addProject _ _ _ _ _ _) as [w0 []]; exact Hel.
Qed.

Lemma form_stores_only_rejected_input_witness :
  elements (projects (startup example_runtime).1)
    (@submitHandler example_runtime (u16 "0.5") (mkEvent false)
       (mkProjectInput (u16 "Build API") (u16 "short") (u16 "3"))
       (startup example_runtime).1 (startup example_runtime).2).1.2
  = [0].
Proof.
  exact (@form_stores_only_rejected_input example_runtime (u16 "0.5") (mkEvent false)
           (mkProjectInput (u16 "Build API") (u16 "short") (u16 "3"))
           (startup example_runtime).1 (startup example_runtime).2 (startup_ok example_runtime)).
Defined.

(** ** Callbacks that throw *)

Lemma notify_throw (ps : loc) (pre : list Listener) (f : Listener)
    (post : list Listener) (w : World) :
  owns ps w ->
  Forall returns pre ->
  always_throws f ->
  (notify ps (pre ++ f :: post) w).2 = Throw
  /\ frame ps w (notify ps (pre ++ f :: post) w).1
  /\ exists cs,
       calls (notify ps (pre ++ f :: post) w).1 = calls w ++ cs
       /\ map callee cs = pre ++ [f].
Proof.
  intros Hok Hpre Hf. revert w Hok.
  induction Hpre as [|g pre Hg Hpre IH]; intros w Hok.
  - cbn [app notify].
    pose proof (invoke_slice_spec ps f w Hok) as Hinv.
    destruct (slice ps w) as [copy w1].
    assert (Hout : (invoke f copy w1).2 = Throw) by apply Hf.
    destruct (invoke f copy w1) as [w2 c] eqn:Hi.
    cbn [fst snd] in Hinv, Hout. rewrite Hi in Hinv. cbn [fst snd] in Hinv.
    subst c. destruct Hinv as (Hfr & Hcalls & _).
    split; [reflexivity|]. split; [exact Hfr|].
    eexists. split; [exact Hcalls | reflexivity].
  - cbn [app notify].
    pose proof (invoke_slice_spec ps g w Hok) as Hinv.
    destruct (slice ps w) as [copy w1].
    assert (Hout : (invoke g copy w1).2 = Normal) by apply Hg.
    destruct (invoke g copy w1) as [w2 c] eqn:Hi.
    cbn [fst snd] in Hinv, Hout. rewrite Hi in Hinv. cbn [fst snd] in Hinv.
    subst c. destruct Hinv as (Hfr & Hcalls & _).
    destruct (IH w2 (fr_owns _ _ _ Hfr)) as (Hthrow & Hfr' & cs & Hcs & Hmap).
    split; [exact Hthrow|]. split; [eapply frame_trans; eassumption|].
    eexists (_ :: cs). split.
    + rewrite Hcs, Hcalls, <- app_assoc. reflexivity.
    + cbn [map callee]. now rewrite Hmap.
Qed.

Lemma addProject_throw (rnd title description : jsstring) (n : number)
    (st : ProjectState) (w : World) (pre : list Listener) (f : Listener)
    (post : list Listener) :
  store_ok st w ->
  listeners st = pre ++ f :: post ->
  Forall returns pre ->
  always_throws f ->
  let r := addProject rnd title description n st w in
  r.2 = Throw
  /\ elements (projects st) r.1 = elements (projects st) w ++ [length (objs (heap w))]
  /\ exists cs, calls r.1 = calls w ++ cs /\ map callee cs = pre ++ [f].
Proof.
  intros Hok Hls Hpre Hf.
  pose proof (push_new_spec (projects st)
                (Project.mk rnd title description n Active) w Hok) as Hpush.
  change (addProject rnd title description n st w)
    with (notify (projects st) (listeners st)
            (push (projects st)
               (new_Project (Project.mk rnd title description n Active) w).1
               (new_Project (Project.mk rnd title description n Active) w).2)).
  set (w0 := push (projects st) _ _) in *. cbn zeta in Hpush.
  destruct Hpush as (Hok0 & Hel0 & _ & _ & _ & _ & Hcalls0 & _).
  rewrite Hls.
  destruct (notify_throw (projects st) pre f post w0 Hok0 Hpre Hf)
    as (Hthrow & Hfr & cs & Hcs & Hmap).
  cbn zeta. split; [exact Hthrow|].
  split; [now rewrite (fr_elements _ _ _ Hfr)|].
  exists cs. now rewrite Hcs, Hcalls0.
Qed.

(** X7: the first callback that throws ends the notification.  The
    callbacks registered before it have been invoked, in order, and it has;
    those registered after it are not invoked; [addProject] throws, and the
    project stays in the store. *)
Theorem first_thrower_stops (rnd title description : jsstring) (n : number)
    (st : ProjectState) (w : World) (pre : list Listener) (f : Listener)
    (post : list Listener) :
  store_ok st w ->
  listeners st = pre ++ f :: post ->
  Forall returns pre ->
  always_throws f ->
  let r := addProject rnd title description n st w in
  r.2 = Throw
  /\ elements (projects st) r.1 = elements (projects st) w ++ [length (objs (heap w))]
  /\ exists cs, calls r.1 = calls w ++ cs /\ map callee cs = pre ++ [f].
Proof. apply addProject_throw. Qed.

Lemma first_thrower_stops_witness :
  let st := foldl (fun st f => addListener f st) (new_ProjectState empty_World).1
              [idle; thrower; idle] in
  (addProject (u16 "0.5") (u16 "Build API") (u16 "Design the service") (of_Z 3)
     st (new_ProjectState empty_World).2).2 = Throw.
Proof.
  refine (proj1 (first_thrower_stops (u16 "0.5") (u16 "Build API")
                   (u16 "Design the service") (of_Z 3) _ _ [idle] thrower [idle]
                   (fresh_store_ok [idle; thrower; idle]) eq_refl _ _)).
  - repeat constructor.
  - intros a h. reflexivity.
Defined.

(** X8: a submission during which a callback throws.  The project has been
    stored, but the handler is left before [clearInputs]: the three inputs
    keep their text. *)
Theorem submit_with_throwing_callback `{JsRuntime} (rnd : jsstring) (event : Event)
    (this : ProjectInput) (projectState : ProjectState) (w : World)
    (pre : list Listener) (f : Listener) (post : list Listener) :
  store_ok projectState w ->
  listeners projectState = pre ++ f :: post ->
  Forall returns pre ->
  always_throws f ->
  allValid this = false ->
  let r := submitHandler rnd event this projectState w in
  r.2 = Throw
  /\ r.1.1.2 = this
  /\ elements (projects projectState) r.1.2
     = elements (projects projectState) w ++ [length (objs (heap w))].
Proof.
  intros Hok Hls Hpre Hf Hinvalid. cbn zeta.
  unfold submitHandler, gatherUserInput. unfold allValid in Hinvalid.
  rewrite Hinvalid.
  set (line := (titleInputElement this, descriptionInputElement this,
                StringToNumber (peopleInputElement this))).
  destruct (addProject_throw rnd (titleInputElement this)
              (descriptionInputElement this)
              (StringToNumber (peopleInputElement this)) projectState
              (console_log line w) pre f post
              (console_log_ok _ line w Hok) Hls Hpre Hf)
    as (Hthrow & Hel & _).
  cbn zeta in Hthrow, Hel.
  destruct (addProject _ _ _ _ _ _) as [w0 c]. cbn [fst snd] in *. subst c.
  repeat split. exact Hel.
Qed.

Lemma submit_with_throwing_callback_witness :
  let st := foldl (fun st f => addListener f st) (new_ProjectState empty_World).1
              [idle; thrower; idle] in
  (@submitHandler example_runtime (u16 "0.5") (mkEvent false)
     (mkProjectInput (u16 "Build API") (u16 "short") (u16 "3"))
     st (new_ProjectState empty_World).2).1.1.2
  = mkProjectInput (u16 "Build API") (u16 "short") (u16 "3").
Proof.
  refine (proj1 (proj2 (@submit_with_throwing_callback example_runtime (u16 "0.5")
                   (mkEvent false)
                   (mkProjectInput (u16 "Build API") (u16 "short") (u16 "3"))
                   _ _ [idle] thrower [idle]
                   (fresh_store_ok [idle; thrower; idle]) eq_refl _ _ eq_refl))).
  - repeat constructor.
  - intros a h. reflexivity.
Defined.

(** ** Registration and notification *)



(** X10: with callbacks that return, every [addProject] makes one
    invocation per registration: after [k] additions to a store with [m]
    registrations, [k * m] invocations have been added. *)
Theorem invocation_count (ops : list Op) (st : ProjectState) (w : World) :
  store_ok st w ->
  Forall returns (listeners st) ->
  forallb isAddProject ops = true ->
  length (calls (run ops (st, w)).2)
  = length (calls w) + length ops * length (listeners st).
Proof.
  intros Hok Hret. revert w Hok.
  induction ops as [|op rest IH]; intros w Hok Hops.
  - cbn [run foldl snd length]. lia.
  - cbn [forallb] in Hops. apply andb_true_iff in Hops as [Hop Hrest].
    destruct op as [g | rnd title description n | m]; try discriminate.
    change (run (AddProject rnd title description n :: rest) (st, w))
      with (run rest (st, (addProject rnd title description n st w).1)).
    destruct (addProject_spec rnd title description n st w Hok)
      as (Hok' & _ & _ & _ & _ & _ & cs & Hcs & _ & _ & _ & Hnormal).
    cbn zeta in *. destruct (Hnormal Hret) as [Hmap _].
    rewrite (IH _ Hok' Hrest), Hcs, length_app.
    rewrite <- Hmap, length_map. cbn [length]. lia.
Qed.

Lemma invocation_count_witness :
  length (calls (run [AddProject (u16 "0.25") (u16 "Build API") (u16 "Design the service") (of_Z 3);
                      AddProject (u16 "0.75") (u16 "Write docs") (u16 "Explain the service") (of_Z 2)]
                   example_store).2) = 4.
Proof.
  exact (invocation_count
           [AddProject (u16 "0.25") (u16 "Build API") (u16 "Design the service") (of_Z 3);
            AddProject (u16 "0.75") (u16 "Write docs") (u16 "Explain the service") (of_Z 2)]
           example_store.1 example_store.2 example_store_ok example_store_returns eq_refl).
Defined.

(** ** The projects in the store *)

(** X11: the project that [addProject] stores.  When no callback assigns
    to the fields of a project, the collection read by the store afterwards
    is the former one, unchanged, followed by one project with the title,
    description and number of people given, the id drawn, and the status
    Active; this also when a callback throws. *)
Theorem new_project_is_active (rnd title description : jsstring) (n : number)
    (st : ProjectState) (w : World) :
  store_ok st w ->
  Forall keeps_fields (listeners st) ->
  entities st (addProject rnd title description n st w).1
  = entities st w ++ [Project.mk rnd title description n Active].
Proof. apply addProject_entities. Qed.

Lemma new_project_is_active_witness :
  entities (startup example_runtime).1
    (addProject (u16 "0.5") (u16 "Build API") (u16 "Design the service") (of_Z 3)
       (startup example_runtime).1 (startup example_runtime).2).1
  = [Project.mk (u16 "0.5") (u16 "Build API") (u16 "Design the service") (of_Z 3) Active].
Proof.
  exact (new_project_is_active (u16 "0.5") (u16 "Build API")
           (u16 "Design the service") (of_Z 3) (startup example_runtime).1 (startup example_runtime).2
           (startup_ok example_runtime) (startup_keeps_fields example_runtime)).
Defined.

Lemma relevant_when_all_active (w : World) (items : list loc) :
  Forall (fun o => o < length (objs (heap w))) items ->
  Forall (fun prj => Project.status prj = Active) (view w items) ->
  relevantProjects active (heap w) items = items
  /\ relevantProjects finished (heap w) items = [].
Proof.
  intros Hall. unfold view, relevantProjects.
  induction Hall as [|o items Ho Hall IH]; intros Hact; [split; reflexivity|].
  destruct (lookup_lt_is_Some_2 _ _ Ho) as [prj Hprj].
  cbn [omap list_omap List.filter] in *. rewrite Hprj in *.
  inversion Hact as [|? ? Hs Hrest]; subst.
  destruct (IH Hrest) as [IHa IHf].
  rewrite IHa, IHf. unfold isRelevant. rewrite Hs.
  split; reflexivity.
Qed.

(** X12: nothing in the program sets a status to Finished.  Along any
    execution in which no callback or outside code assigns to the fields of
    a project, a store whose projects are all Active keeps only Active
    projects: the filter of the "active" list keeps the whole collection
    and the filter of the "finished " list keeps nothing. *)
Theorem nothing_becomes_finished (ops : list Op) (st : ProjectState) (w : World) :
  store_ok st w ->
  Forall keeps_fields (listeners st) ->
  Forall op_keeps_fields ops ->
  Forall (fun prj => Project.status prj = Active) (entities st w) ->
  let s' := run ops (st, w) in
  Forall (fun prj => Project.status prj = Active) (entities s'.1 s'.2)
  /\ relevantProjects active (heap s'.2) (elements (projects s'.1) s'.2)
     = elements (projects s'.1) s'.2
  /\ relevantProjects finished (heap s'.2) (elements (projects s'.1) s'.2) = [].
Proof.
  intros Hok Hls Hops Hact. cbn zeta.
  assert (Hact' : Forall (fun prj => Project.status prj = Active)
                    (entities (run ops (st, w)).1 (run ops (st, w)).2)).
  { rewrite (run_entities ops (st, w) Hok Hls Hops). cbn [fst snd].
    apply Forall_app. split; [exact Hact|].
    clear. induction ops as [|op rest IH]; [constructor|].
    cbn [flat_map]. apply Forall_app. split; [|exact IH].
    destruct op; repeat constructor. }
  split; [exact Hact'|].
  apply relevant_when_all_active; [|exact Hact'].
  apply (run_ok ops (st, w) Hok).
Qed.

Lemma nothing_becomes_finished_witness :
  relevantProjects finished
    (heap (run [AddProject (u16 "0.25") (u16 "Build API") (u16 "Design the service") (of_Z 3);
                AddProject (u16 "0.75") (u16 "Write docs") (u16 "Explain the service") (of_Z 2)]
             (startup example_runtime)).2)
    [0; 1] = [].
Proof.
  refine (proj2 (proj2 (nothing_becomes_finished
            [AddProject (u16 "0.25") (u16 "Build API") (u16 "Design the service") (of_Z 3);
             AddProject (u16 "0.75") (u16 "Write docs") (u16 "Explain the service") (of_Z 2)]
            (startup example_runtime).1 (startup example_runtime).2 (startup_ok example_runtime) (startup_keeps_fields example_runtime) _ _))).
  - repeat constructor.
  - constructor.
Defined.

(** ** The item label of a number *)

Lemma Qred_inject_Z (z : Z) : Qred (inject_Z z) = inject_Z z.
Proof.
  unfold Qred, inject_Z.
  pose proof (Z.ggcd_correct_divisors z 1) as Hdiv.
  pose proof (Z.ggcd_gcd z 1) as Hgcd.
  destruct (Z.ggcd z 1) as [g [r1 r2]]. cbn [fst snd] in *.
  rewrite Z.gcd_1_r in Hgcd. subst g. destruct Hdiv as [H1 H2].
  assert (Hr1 : r1 = z) by lia. assert (Hr2 : r2 = 1%Z) by lia.
  rewrite Hr1, Hr2. reflexivity.
Qed.

Lemma strict_eq_of_Z (x y : Z) : strict_eq (of_Z x) (of_Z y) = (x =? y)%Z.
Proof.
  apply eq_true_iff_eq. rewrite strict_eq_spec, Z.eqb_eq.
  unfold of_Z, num_eq, Qeq. simpl. lia.
Qed.

(** X14: the label of an integer and of the numbers that are no integers.
    For every safe integer other than 1 (zero and the negative ones
    included) the label is its decimal numeral followed by " persons"; for
    NaN, which a people text that is no number becomes, it is
    "NaN persons", and for the infinities "Infinity persons" and
    "-Infinity persons". *)
Theorem persons_of_numbers `{JsRuntime} (i t d : jsstring) (s : ProjectStatus) :
  (forall z : Z, (Z.abs z < 2 ^ 53)%Z -> z <> 1%Z ->
     persons (Project.mk i t d (of_Z z) s)
     = u16 (NilZero.string_of_int (Z.to_int z)) ++ u16 " persons")
  /\ persons (Project.mk i t d NaN s) = u16 "NaN persons"
  /\ persons (Project.mk i t d PosInfinity s) = u16 "Infinity persons"
  /\ persons (Project.mk i t d NegInfinity s) = u16 "-Infinity persons".
Proof.
  split; [|repeat split].
  intros z Hsafe Hne. unfold persons. cbn [Project.people].
  rewrite strict_eq_of_Z. destruct (Z.eqb_spec z 1) as [|_]; [contradiction|].
  unfold Number_toString, of_Z, isSafeInteger. rewrite Qred_inject_Z.
  cbn [inject_Z Qnum Qden]. rewrite Z.eqb_refl.
  destruct (Z.ltb_spec (Z.abs z) (2 ^ 53)) as [_|]; [reflexivity | lia].
Qed.

(** ** The single store *)

Lemma use_single (ops : list Op) (st : ProjectState) (w : World) :
  foldl use (Some 0, [st], w) ops
  = (Some 0, [(run ops (st, w)).1], (run ops (st, w)).2).
Proof.
  revert st w. induction ops as [|op rest IH]; intros st w; [reflexivity|].
  change (run (op :: rest) (st, w)) with (run rest (step (st, w) op)).
  cbn [foldl]. destruct op as [f | rnd title description n | m];
    cbn [use step getInstance fst snd]; apply IH.
Qed.

(** X15: there is one store.  The first access through [getInstance]
    constructs it; from then on, whatever code that reaches the store
    through [getInstance] does (registering callbacks, adding projects, at
    each use through a new access) and whatever outside code does, no other
    store is constructed, the static field keeps designating the first one,
    and every use acts on it: the callbacks registered through one access
    are those notified through another, and the state reached is the one
    that the same steps give when made on the store directly. *)
Theorem getInstance_singleton (ops : list Op) (w : World) :
  let first := getInstance None [] w in
  let projectState := first.1.1.1 in
  let s := (store_at projectState first.1.2, first.2) in
  first.1.1.2 = Some projectState
  /\ s = new_ProjectState w
  /\ foldl use (first.1.1.2, first.1.2, first.2) ops
     = (Some projectState, [(run ops s).1], (run ops s).2).
Proof.
  cbn zeta. split; [reflexivity|]. split; [reflexivity|].
  exact (use_single ops (new_ProjectState w).1 (new_ProjectState w).2).
Qed.

(** ** The array of the store stays its own *)

Lemma mutations_arrs_length (ms : list Mutation) (w : World) :
  length (arrs (heap w)) <= length (arrs (heap (foldl mutate w ms))).
Proof.
  revert w. induction ms as [|m ms IH]; intros w; [reflexivity|].
  cbn [foldl]. pose proof (mutate_arrs_length w m). specialize (IH (mutate w m)). lia.
Qed.

Lemma notify_arguments_fresh (ps : loc) (ls : list Listener) (w : World) :
  length (arrs (heap w)) <= length (arrs (heap (notify ps ls w).1))
  /\ exists cs,
       calls (notify ps ls w).1 = calls w ++ cs
       /\ Forall (fun c => length (arrs (heap w)) <= argument c) cs.
Proof.
  revert w. induction ls as [|f rest IH]; intros w.
  - cbn [notify fst]. split; [reflexivity|]. exists []. now rewrite app_nil_r.
  - cbn [notify]. unfold slice, invoke.
    set (ms := effects _). set (w1 := add_call _ _).
    assert (Hlen : S (length (arrs (heap w))) <= length (arrs (heap (foldl mutate w1 ms)))).
    { pose proof (mutations_arrs_length ms w1) as Hm. unfold w1 in Hm at 1.
      cbn [add_call add_outside set_arrs set_heap heap arrs] in Hm.
      rewrite length_app in Hm. cbn [length] in Hm. lia. }
    assert (Hcalls : calls (foldl mutate w1 ms)
                     = calls w ++ [mkCall f (length (arrs (heap w)))
                                     (elements (length (arrs (heap w)))
                                        (set_arrs (arrs (heap w) ++ [elements ps w]) w))]).
    { rewrite mutations_calls. reflexivity. }
    destruct (outcome _); cbn [fst].
    + destruct (IH (foldl mutate w1 ms)) as (Hle & cs & Hcs & Hall).
      split; [lia|]. eexists (_ :: cs).
      split; [rewrite Hcs, Hcalls, <- app_assoc; reflexivity|].
      constructor; [reflexivity|].
      eapply Forall_impl; [exact Hall|]. cbn beta. intros c Hc. lia.
    + split; [lia|]. eexists [_]. split; [exact Hcalls|].
      constructor; [reflexivity | constructor].
Qed.

(** X16: the store never hands out its own array.  Along any execution
    (callbacks registered, projects added, outside code mutating what it
    holds), from any state in which the store's array exists, and be it
    one in which outside code has got hold of that array, every
    invocation made is passed an array allocated after the start of the
    execution, hence not the store's array, and the store keeps designating
    the same array. *)
Theorem store_array_never_escapes (ops : list Op) (st : ProjectState) (w : World) :
  projects st < length (arrs (heap w)) ->
  let s := run ops (st, w) in
  projects s.1 = projects st
  /\ exists cs,
       calls s.2 = calls w ++ cs
       /\ Forall (fun c => length (arrs (heap w)) <= argument c
                           /\ argument c <> projects st) cs.
Proof.
  intros Hps. cbn zeta.
  assert (Hrun : projects (run ops (st, w)).1 = projects st
                 /\ length (arrs (heap w)) <= length (arrs (heap (run ops (st, w)).2))
                 /\ exists cs,
                      calls (run ops (st, w)).2 = calls w ++ cs
                      /\ Forall (fun c => length (arrs (heap w)) <= argument c) cs).
  { clear Hps. revert st w. induction ops as [|op rest IH]; intros st w.
    - cbn [run foldl fst snd]. split; [reflexivity|]. split; [reflexivity|].
      exists []. now rewrite app_nil_r.
    - change (run (op :: rest) (st, w)) with (run rest (step (st, w) op)).
      destruct op as [f | rnd title description n | m]; cbn [step fst snd].
      + destruct (IH (addListener f st) w) as (Hp & Hle & cs & Hcs & Hall).
        split; [exact Hp|]. split; [exact Hle|]. now exists cs.
      + unfold addProject, new_Project, push.
        set (w0 := set_arrs _ (set_objs _ w)).
        assert (Hlen0 : length (arrs (heap w0)) = length (arrs (heap w))).
        { unfold w0. cbn [set_arrs set_objs set_heap heap arrs]. apply length_alter. }
        destruct (notify_arguments_fresh (projects st) (listeners st) w0)
          as (Hle0 & cs0 & Hcs0 & Hall0).
        destruct (IH st (notify (projects st) (listeners st) w0).1)
          as (Hp & Hle & cs & Hcs & Hall).
        split; [exact Hp|]. split; [lia|].
        exists (cs0 ++ cs). split.
        * rewrite Hcs, Hcs0, <- app_assoc. reflexivity.
        * apply Forall_app. split.
          -- eapply Forall_impl; [exact Hall0|]. cbn beta. intros c Hc. lia.
          -- eapply Forall_impl; [exact Hall|]. cbn beta. intros c Hc. lia.
      + destruct (IH st (mutate w m)) as (Hp & Hle & cs & Hcs & Hall).
        pose proof (mutate_arrs_length w m) as Hm.
        split; [exact Hp|]. split; [lia|].
        exists cs. split; [now rewrite Hcs, mutate_calls|].
        eapply Forall_impl; [exact Hall|]. cbn beta. intros c Hc. lia. }
  destruct Hrun as (Hp & _ & cs & Hcs & Hall).
  split; [exact Hp|]. exists cs. split; [exact Hcs|].
  eapply Forall_impl; [exact Hall|]. cbn beta. intros c Hc. split; [exact Hc | lia].
Qed.

Lemma store_array_never_escapes_witness :
  let st := addListener empty_it (new_ProjectState empty_World).1 in
  let w := add_outside 0 (new_ProjectState empty_World).2 in
  let s := run [Outside (SetArray 0 []);
                AddProject (u16 "0.5") (u16 "Build API") (u16 "Design the service")
                  (of_Z 3)] (st, w) in
  projects st < length (arrs (heap w))
  /\ 0 ∈ outside w
  /\ exists cs, calls s.2 = cs /\ Forall (fun c => argument c <> 0) cs.
Proof.
  assert (Hps : projects (addListener empty_it (new_ProjectState empty_World).1)
                < length (arrs (heap (add_outside 0 (new_ProjectState empty_World).2))))
    by (vm_compute; lia).
  split; [exact Hps|]. split; [vm_compute; constructor|].
  destruct (store_array_never_escapes
              [Outside (SetArray 0 []);
               AddProject (u16 "0.5") (u16 "Build API") (u16 "Design the service")
                 (of_Z 3)] _ _ Hps) as (_ & cs & Hcs & Hall).
  exists cs. split; [exact Hcs|].
  eapply Forall_impl; [exact Hall|]. cbn beta. intros c [_ Hc]. exact Hc.
Defined.

(** * The document *)

(** ** Queries and changes through references *)

Lemma jsstring_eqb_eq (a b : jsstring) : jsstring_eqb a b = true <-> a = b.
Proof.
  revert b. induction a as [|x a IH]; intros [|y b]; simpl; try easy.
  rewrite andb_true_iff, N.eqb_eq, IH. split.
  - intros [-> ->]. reflexivity.
  - intros [= -> ->]. auto.
Qed.

Lemma jsstring_eqb_refl (a : jsstring) : jsstring_eqb a a = true.
Proof. now apply jsstring_eqb_eq. Qed.

Lemma jsstring_eqb_neq (a b : jsstring) : a <> b -> jsstring_eqb a b = false.
Proof.
  intros Hne. destruct (jsstring_eqb a b) eqn:E; [|reflexivity].
  apply jsstring_eqb_eq in E. contradiction.
Qed.

Lemma plant_eta (e : Element) :
  mkElement (key e) (tag e) (eid e) (text e) (content e) (children e) = e.
Proof. now destruct e. Qed.

Lemma query_plant (sel : Selector) (e : Element) (sib : Forest) :
  query sel (plant e sib)
  = if matches sel e then Some e
    else match query sel (children e) with
         | Some r => Some r
         | None => query sel sib
         end.
Proof. unfold plant. cbn [query]. now rewrite plant_eta. Qed.

Lemma query_fapp (sel : Selector) (A B : Forest) :
  query sel (fapp A B)
  = match query sel A with
    | Some r => Some r
    | None => query sel B
    end.
Proof.
  induction A as [|k t i x c _ ch _ sib IH]; [reflexivity|].
  cbn [fapp query]. destruct (matches sel _); [reflexivity|].
  destruct (query sel ch); [reflexivity | exact IH].
Qed.

Lemma keys_fapp (A B : Forest) : keys (fapp A B) = keys A ++ keys B.
Proof.
  induction A as [|k t i x c _ ch _ sib IH]; [reflexivity|].
  cbn [fapp keys]. now rewrite IH, app_assoc.
Qed.

Lemma keys_plant (e : Element) (sib : Forest) :
  keys (plant e sib) = key e :: keys (children e) ++ keys sib.
Proof. reflexivity. Qed.

Lemma roots_fapp (A B : Forest) : roots (fapp A B) = roots A ++ roots B.
Proof.
  induction A as [|k t i x c _ ch _ sib IH]; [reflexivity|].
  cbn [fapp roots]. now rewrite IH.
Qed.

(** What unique keys say at the root of a tree. *)
Lemma NoDup_tree (k : nat) (ch sib : Forest) :
  NoDup (k :: keys ch ++ keys sib) ->
  (k ∉ keys ch) /\ (k ∉ keys sib) /\ NoDup (keys ch) /\ NoDup (keys sib)
  /\ (forall x, x ∈ keys ch -> x ∉ keys sib).
Proof.
  rewrite NoDup_cons, NoDup_app, not_elem_of_app. tauto.
Qed.

(** A reference that designates nothing in the forest changes nothing. *)
Lemma modify_notin (k : nat) (f : Element -> Element) (F : Forest) :
  k ∉ keys F -> modify k f F = F.
Proof.
  induction F as [|k' t i x c _ ch IHch sib IHsib]; [reflexivity|].
  cbn [keys modify]. rewrite not_elem_of_cons, not_elem_of_app.
  intros (Hne & Hch & Hsib).
  destruct (Nat.eqb_spec k' k) as [->|_]; [contradiction|].
  now rewrite IHch, IHsib.
Qed.

Lemma modify_fapp (k : nat) (f : Element -> Element) (A B : Forest) :
  modify k f (fapp A B) = fapp (modify k f A) (modify k f B).
Proof.
  induction A as [|k' t i x c _ ch _ sib IH]; [reflexivity|].
  cbn [fapp modify]. destruct (k' =? k); unfold plant; cbn [fapp]; now rewrite IH.
Qed.

(** An element found is in the forest, with its descendants. *)
Lemma query_in (sel : Selector) (F : Forest) (e : Element) :
  query sel F = Some e ->
  key e ∈ keys F /\ (forall k, k ∈ keys (children e) -> k ∈ keys F).
Proof.
  induction F as [|k t i x c _ ch IHch sib IHsib]; [discriminate|].
  cbn [query keys]. destruct (matches sel _).
  - intros [= <-]. cbn [key children]. split.
    + apply elem_of_cons. now left.
    + intros k' Hk'. apply elem_of_cons. right. apply elem_of_app. now left.
  - destruct (query sel ch) as [r|] eqn:Hch.
    + intros [= ->]. destruct (IHch eq_refl) as [H1 H2]. split.
      * apply elem_of_cons. right. apply elem_of_app. now left.
      * intros k' Hk'. apply elem_of_cons. right. apply elem_of_app. left. auto.
    + intros Hsib. destruct (IHsib Hsib) as [H1 H2]. split.
      * apply elem_of_cons. right. apply elem_of_app. now right.
      * intros k' Hk'. apply elem_of_cons. right. apply elem_of_app. right. auto.
Qed.

Lemma query_matches (sel : Selector) (F : Forest) (e : Element) :
  query sel F = Some e -> matches sel e = true.
Proof.
  induction F as [|k t i x c _ ch IHch sib IHsib]; [discriminate|].
  cbn [query]. destruct (matches sel (mkElement k t i x c ch)) eqn:Hm.
  - now intros [= <-].
  - destruct (query sel ch) as [r|] eqn:Hch; [|exact IHsib].
    intros Hr. now apply IHch.
Qed.

Lemma query_key_notin (k : nat) (F : Forest) :
  k ∉ keys F -> query (ByKey k) F = None.
Proof.
  intros Hnin. destruct (query (ByKey k) F) as [e|] eqn:Hq; [|reflexivity].
  pose proof (query_matches _ _ _ Hq) as Hm. cbn [matches] in Hm.
  apply Nat.eqb_eq in Hm. apply query_in in Hq as [Hin _]. now rewrite Hm in Hin.
Qed.

(** With unique keys the descendants of an element found have unique keys
    that are not its own. *)
Lemma query_NoDup (sel : Selector) (F : Forest) (e : Element) :
  query sel F = Some e -> NoDup (keys F) ->
  NoDup (keys (children e)) /\ key e ∉ keys (children e).
Proof.
  induction F as [|k t i x c _ ch IHch sib IHsib]; [discriminate|].
  cbn [query keys]. intros Hq Hnd.
  apply NoDup_tree in Hnd as (Hk1 & Hk2 & Hnd1 & Hnd2 & _).
  destruct (matches sel _).
  - injection Hq as <-. cbn [key children]. auto.
  - destruct (query sel ch) eqn:Hch; [injection Hq as ->|]; auto.
Qed.

Lemma matches_children (sel : Selector) (k : nat) (t : string) (i x : jsstring)
    (c ch ch' : Forest) :
  matches sel (mkElement k t i x c ch') = matches sel (mkElement k t i x c ch).
Proof. now destruct sel. Qed.

(** The element found, changed through its reference, is found changed. *)
Lemma query_modify_at (sel : Selector) (f : Element -> Element) (F : Forest)
    (e : Element) :
  query sel F = Some e -> NoDup (keys F) -> keeps sel f ->
  query sel (modify (key e) f F) = Some (f e).
Proof.
  intros Hq Hnd Hkeep.
  induction F as [|k t i x c _ ch IHch sib IHsib]; [discriminate|].
  cbn [query keys] in Hq, Hnd.
  apply NoDup_tree in Hnd as (Hk1 & Hk2 & Hnd1 & Hnd2 & Hdisj).
  cbn [modify]. destruct (matches sel _) eqn:Hm.
  - injection Hq as <-. cbn [key]. rewrite Nat.eqb_refl, query_plant.
    now rewrite Hkeep, Hm.
  - destruct (query sel ch) as [r|] eqn:Hch.
    + injection Hq as ->. pose proof (query_in _ _ _ Hch) as [Hin _].
      destruct (Nat.eqb_spec k (key e)) as [Heq|_]; [now rewrite Heq in Hk1|].
      cbn [query]. rewrite (matches_children sel k t i x c ch), Hm.
      now rewrite (IHch eq_refl Hnd1).
    + pose proof (query_in _ _ _ Hq) as [Hin _].
      destruct (Nat.eqb_spec k (key e)) as [Heq|_]; [now rewrite Heq in Hk2|].
      cbn [query]. rewrite (matches_children sel k t i x c ch), Hm.
      rewrite modify_notin by (intros Hc; now apply (Hdisj _ Hc)).
      rewrite Hch. now apply IHsib.
Qed.

(** A change made inside the element found: it is found with that change
    made among its children. *)
Lemma query_modify_inside (sel : Selector) (k : nat) (f : Element -> Element)
    (F : Forest) (e : Element) :
  query sel F = Some e -> NoDup (keys F) -> k ∈ keys (children e) ->
  query sel (modify k f F)
  = Some (mkElement (key e) (tag e) (eid e) (text e) (content e)
            (modify k f (children e))).
Proof.
  intros Hq Hnd Hin.
  induction F as [|k' t i x c _ ch IHch sib IHsib]; [discriminate|].
  cbn [query keys] in Hq, Hnd.
  apply NoDup_tree in Hnd as (Hk1 & Hk2 & Hnd1 & Hnd2 & Hdisj).
  cbn [modify]. destruct (matches sel _) eqn:Hm.
  - injection Hq as <-. cbn [key tag eid text content children] in *.
    destruct (Nat.eqb_spec k' k) as [Heq|_]; [now rewrite Heq in Hk1|].
    cbn [query]. now rewrite (matches_children sel k' t i x c ch), Hm.
  - destruct (query sel ch) as [r|] eqn:Hch.
    + injection Hq as ->. pose proof (query_in _ _ _ Hch) as [_ Hsub].
      destruct (Nat.eqb_spec k' k) as [Heq|_];
        [apply Hsub in Hin; now rewrite Heq in Hk1|].
      cbn [query]. rewrite (matches_children sel k' t i x c ch), Hm.
      now rewrite (IHch eq_refl Hnd1).
    + pose proof (query_in _ _ _ Hq) as [_ Hsub]. apply Hsub in Hin.
      destruct (Nat.eqb_spec k' k) as [Heq|_]; [now rewrite Heq in Hk2|].
      cbn [query]. rewrite (matches_children sel k' t i x c ch), Hm.
      rewrite modify_notin by (intros Hc; now apply (Hdisj _ Hc)).
      rewrite Hch. now apply IHsib.
Qed.

(** No match before, none after, when the edit brings none. *)
Lemma query_modify_none (sel : Selector) (k : nat) (f : Element -> Element)
    (F : Forest) :
  query sel F = None -> keeps sel f -> no_new sel f ->
  query sel (modify k f F) = None.
Proof.
  intros Hq Hkeep Hnew.
  induction F as [|k' t i x c _ ch IHch sib IHsib]; [reflexivity|].
  cbn [query] in Hq. destruct (matches sel _) eqn:Hm; [discriminate|].
  destruct (query sel ch) eqn:Hch; [discriminate|].
  cbn [modify]. destruct (k' =? k).
  - rewrite query_plant, Hkeep, Hm.
    rewrite (Hnew (mkElement k' t i x c ch) Hch). now apply IHsib.
  - cbn [query]. rewrite (matches_children sel k' t i x c ch), Hm.
    rewrite (IHch eq_refl). now apply IHsib.
Qed.

(** A change made elsewhere: the element found is found as it was, when it
    is not under the element changed and the edit brings no match. *)
Lemma query_modify_other (sel : Selector) (k : nat) (f : Element -> Element)
    (F : Forest) (e : Element) :
  query sel F = Some e -> NoDup (keys F) ->
  k <> key e -> k ∉ keys (children e) ->
  (forall u, query (ByKey k) F = Some u -> query sel (children u) = None) ->
  keeps sel f -> no_new sel f ->
  query sel (modify k f F) = Some e.
Proof.
  intros Hq Hnd Hne Hnin Hout Hkeep Hnew.
  induction F as [|k' t i x c _ ch IHch sib IHsib]; [discriminate|].
  cbn [query keys] in Hq, Hnd.
  apply NoDup_tree in Hnd as (Hk1 & Hk2 & Hnd1 & Hnd2 & Hdisj).
  cbn [modify]. destruct (matches sel _) eqn:Hm.
  - injection Hq as <-. cbn [key children] in *.
    destruct (Nat.eqb_spec k' k) as [Heq|_]; [congruence|].
    cbn [query]. rewrite (matches_children sel k' t i x c ch), Hm.
    now rewrite (modify_notin k f ch Hnin).
  - destruct (Nat.eqb_spec k' k) as [Heq|Hk'].
    + subst k'. assert (Hself : query sel ch = None).
      { apply (Hout (mkElement k t i x c ch)). cbn [query matches key].
        now rewrite Nat.eqb_refl. }
      rewrite Hself in Hq.
      rewrite query_plant, Hkeep, Hm.
      rewrite (Hnew (mkElement k t i x c ch) Hself).
      now rewrite (modify_notin k f sib Hk2).
    + assert (Hroot : forall F', query (ByKey k) (Tree k' t i x c ch F')
                                 = match query (ByKey k) ch with
                                   | Some r => Some r
                                   | None => query (ByKey k) F'
                                   end).
      { intros F'. cbn [query matches key].
        destruct (Nat.eqb_spec k' k); [contradiction | reflexivity]. }
      rewrite Hroot in Hout.
      cbn [query]. rewrite (matches_children sel k' t i x c ch), Hm.
      destruct (query sel ch) as [r|] eqn:Hch.
      * injection Hq as ->. rewrite IHch; auto.
        intros u Hu. apply Hout. now rewrite Hu.
      * rewrite (query_modify_none sel k f ch Hch Hkeep Hnew).
        apply IHsib; auto.
        intros u Hu. apply Hout.
        pose proof (query_in _ _ _ Hu) as [Hin _].
        pose proof (query_matches _ _ _ Hu) as Hmu. cbn [matches] in Hmu.
        apply Nat.eqb_eq in Hmu. rewrite Hmu in Hin.
        rewrite query_key_notin; [exact Hu|].
        intros Hc. now apply (Hdisj _ Hc).
Qed.

(** With unique keys, the reference of an element found designates it. *)
Lemma query_by_key (sel : Selector) (F : Forest) (e : Element) :
  query sel F = Some e -> NoDup (keys F) ->
  query (ByKey (key e)) F = Some e.
Proof.
  intros Hq Hnd.
  induction F as [|k t i x c _ ch IHch sib IHsib]; [discriminate|].
  cbn [query keys] in Hq, Hnd.
  apply NoDup_tree in Hnd as (Hk1 & Hk2 & Hnd1 & Hnd2 & Hdisj).
  destruct (matches sel _) eqn:Hm.
  - injection Hq as <-. cbn [query matches key]. now rewrite Nat.eqb_refl.
  - cbn [query matches key]. destruct (query sel ch) as [r|] eqn:Hch.
    + injection Hq as ->. pose proof (query_in _ _ _ Hch) as [Hin _].
      destruct (Nat.eqb_spec k (key e)) as [Heq|_]; [now rewrite Heq in Hk1|].
      now rewrite (IHch eq_refl Hnd1).
    + pose proof (query_in _ _ _ Hq) as [Hin _].
      destruct (Nat.eqb_spec k (key e)) as [Heq|_]; [now rewrite Heq in Hk2|].
      rewrite query_key_notin by (intros Hc; now apply (Hdisj _ Hc)).
      now apply IHsib.
Qed.

(** The same for an element found among the descendants of one found. *)
Lemma query_by_key_inside (sel : Selector) (F : Forest) (e x : Element) :
  query sel F = Some e -> NoDup (keys F) ->
  query (ByKey (key x)) (children e) = Some x ->
  query (ByKey (key x)) F = Some x.
Proof.
  intros Hq Hnd Hx.
  pose proof (query_in _ _ _ Hx) as [Hxin _].
  induction F as [|k t i y c _ ch IHch sib IHsib]; [discriminate|].
  cbn [query keys] in Hq, Hnd.
  apply NoDup_tree in Hnd as (Hk1 & Hk2 & Hnd1 & Hnd2 & Hdisj).
  cbn [query matches key].
  destruct (matches sel _) eqn:Hm.
  - injection Hq as <-. cbn [children] in *.
    destruct (Nat.eqb_spec k (key x)) as [Heq|_]; [now rewrite Heq in Hk1|].
    now rewrite Hx.
  - destruct (query sel ch) as [r|] eqn:Hch.
    + injection Hq as ->. pose proof (query_in _ _ _ Hch) as [_ Hsub].
      destruct (Nat.eqb_spec k (key x)) as [Heq|_];
        [apply Hsub in Hxin; now rewrite Heq in Hk1|].
      now rewrite (IHch eq_refl Hnd1).
    + pose proof (query_in _ _ _ Hq) as [_ Hsub]. apply Hsub in Hxin.
      destruct (Nat.eqb_spec k (key x)) as [Heq|_]; [now rewrite Heq in Hk2|].
      rewrite query_key_notin by (intros Hc; now apply (Hdisj _ Hc)).
      now apply IHsib.
Qed.

(** ** Keys under changes and copies *)

Lemma shallow_keeps (sel : Selector) (f : Element -> Element) :
  shallow f -> keeps sel f.
Proof.
  intros Hf e. destruct (Hf e) as (Hk & Ht & Hi & _).
  destruct sel; cbn [matches]; congruence.
Qed.

Lemma shrinking_no_new (sel : Selector) (f : Element -> Element) :
  shrinking f -> no_new sel f.
Proof. intros Hf e He. destruct (Hf e) as [-> | ->]; [exact He | reflexivity]. Qed.

Lemma keys_modify_shrinking (k : nat) (f : Element -> Element) (F : Forest) :
  shallow f -> shrinking f ->
  keys (modify k f F) `sublist_of` keys F.
Proof.
  intros Hsh Hshr.
  induction F as [|k' t i x c _ ch IHch sib IHsib]; [constructor|].
  cbn [modify]. destruct (k' =? k).
  - rewrite keys_plant. cbn [keys].
    destruct (Hsh (mkElement k' t i x c ch)) as (-> & _). cbn [key].
    apply sublist_skip, sublist_app; [|exact IHsib].
    destruct (Hshr (mkElement k' t i x c ch)) as [-> | ->];
      [reflexivity | apply sublist_nil_l].
  - cbn [keys]. apply sublist_skip, sublist_app; assumption.
Qed.

Lemma page_ok_shrinking (k : nat) (f : Element -> Element) (pg : Page) :
  shallow f -> shrinking f -> page_ok pg ->
  page_ok (mkPage (modify k f (document pg)) (next_key pg)).
Proof.
  intros Hsh Hshr [Hnd Hlt].
  pose proof (keys_modify_shrinking k f (document pg) Hsh Hshr) as Hsub.
  split; cbn [document next_key].
  - exact (sublist_NoDup _ _ Hnd Hsub).
  - rewrite Forall_forall in *. intros y Hy. apply Hlt.
    exact (elem_of_sublist _ _ _ Hy Hsub).
Qed.

Lemma keys_insert (b : bool) (el host : Element) :
  keys (children (insertAdjacentElement b el host))
  ≡ₚ keys (children host) ++ keys (plant el Empty).
Proof.
  unfold insertAdjacentElement. cbn [children]. destruct b.
  - rewrite !keys_plant. cbn [keys]. rewrite app_nil_r.
    exact (Permutation_app_comm (key el :: keys (children el)) (keys (children host))).
  - now rewrite keys_fapp.
Qed.

(** Inserting an element with new keys keeps the keys unique. *)
Lemma keys_modify_insert (k : nat) (b : bool) (el : Element) (F : Forest) :
  NoDup (keys F) -> k ∈ keys F ->
  keys (modify k (insertAdjacentElement b el) F)
  ≡ₚ keys F ++ keys (plant el Empty).
Proof.
  intros Hnd Hin.
  pose proof (keys_insert b el) as Hins.
  set (kc := keys (plant el Empty)) in *. clearbody kc.
  induction F as [|k' t i x c _ ch IHch sib IHsib]; [now apply elem_of_nil in Hin|].
  cbn [keys] in Hnd, Hin.
  apply NoDup_tree in Hnd as (Hk1 & Hk2 & Hnd1 & Hnd2 & Hdisj).
  cbn [modify]. destruct (Nat.eqb_spec k' k) as [->|Hne].
  - rewrite keys_plant, (modify_notin k _ sib Hk2), Hins.
    cbn [key children keys]. rewrite <- app_comm_cons, <- !app_assoc.
    apply Permutation_skip, Permutation_app_head, Permutation_app_comm.
  - cbn [keys]. apply elem_of_cons in Hin as [->|Hin]; [contradiction|].
    rewrite <- app_comm_cons.
    apply elem_of_app in Hin as [Hin|Hin].
    + rewrite (IHch Hnd1 Hin).
      rewrite (modify_notin k _ sib) by (now apply Hdisj).
      rewrite <- !app_assoc.
      apply Permutation_skip, Permutation_app_head, Permutation_app_comm.
    + rewrite (IHsib Hnd2 Hin).
      rewrite (modify_notin k _ ch) by (intros Hc; now apply (Hdisj _ Hc)).
      now rewrite <- !app_assoc.
Qed.

(** The keys of a copy are new, unique, and taken in order. *)
Lemma clone_keys (F : Forest) (n : nat) :
  n <= (clone n F).2
  /\ NoDup (keys (clone n F).1)
  /\ Forall (fun k => n <= k < (clone n F).2) (keys (clone n F).1).
Proof.
  revert n. induction F as [|k t i x c IHc ch IHch sib IHsib]; intros n.
  - cbn [clone fst snd keys]. repeat split; [lia | constructor | constructor].
  - cbn [clone].
    destruct (IHc (S n)) as (Hc1 & _). destruct (clone (S n) c) as [c' n1].
    destruct (IHch n1) as (Hch1 & Hch2 & Hch3). destruct (clone n1 ch) as [ch' n2].
    destruct (IHsib n2) as (Hs1 & Hs2 & Hs3). destruct (clone n2 sib) as [sib' n3].
    cbn [fst snd keys] in *. rewrite Forall_forall in Hch3, Hs3.
    split; [lia|]. split.
    + apply NoDup_cons. split.
      * rewrite elem_of_app. intros [Hin|Hin]; [apply Hch3 in Hin | apply Hs3 in Hin]; lia.
      * apply NoDup_app. split; [exact Hch2|]. split; [|exact Hs2].
        intros y Hy1 Hy2. apply Hch3 in Hy1. apply Hs3 in Hy2. lia.
    + constructor; [lia|]. apply Forall_app. split; apply Forall_forall; intros y Hy.
      * apply Hch3 in Hy. lia.
      * apply Hs3 in Hy. lia.
Qed.

(** A selector other than a reference finds in a copy the copy of what it
    finds in the original. *)
Lemma clone_query (sel : Selector) (F : Forest) (n : nat) :
  (forall k, sel <> ByKey k) ->
  match query sel F with
  | None => query sel (clone n F).1 = None
  | Some e =>
      exists e', query sel (clone n F).1 = Some e'
                 /\ tag e' = tag e /\ eid e' = eid e /\ text e' = text e
                 /\ (children e = Empty -> children e' = Empty)
  end.
Proof.
  intros Hsel. revert n.
  induction F as [|k t i x c IHc ch IHch sib IHsib]; intros n; [reflexivity|].
  cbn [clone]. destruct (clone (S n) c) as [c' n1].
  specialize (IHch n1). destruct (clone n1 ch) as [ch' n2] eqn:Hch.
  specialize (IHsib n2). destruct (clone n2 sib) as [sib' n3].
  cbn [fst snd query] in *.
  assert (Hm : matches sel (mkElement n t i x c' ch')
               = matches sel (mkElement k t i x c ch)).
  { destruct sel; try reflexivity. now contradiction (Hsel k0). }
  rewrite Hm. destruct (matches sel (mkElement k t i x c ch)).
  - eexists. split; [reflexivity|]. cbn [tag eid text children].
    repeat split. intros ->. now injection Hch as <-.
  - destruct (query sel ch) as [r|].
    + destruct IHch as (e' & -> & He'). now exists e'.
    + rewrite IHch. exact IHsib.
Qed.

Lemma clone_leaf (sel : Selector) (F : Forest) (n : nat) :
  (forall k, sel <> ByKey k) ->
  leaf_at sel F -> leaf_at sel (clone n F).1.
Proof.
  intros Hsel (x & Hx & Hleaf).
  pose proof (clone_query sel F n Hsel) as Hq. rewrite Hx in Hq.
  destruct Hq as (e' & He' & _ & _ & _ & Hl). exists e'. auto.
Qed.

Lemma clone_first (F : Forest) (n : nat) (r : Element) :
  firstElementChild F = Some r ->
  exists r' n1,
    firstElementChild (clone n F).1 = Some r'
    /\ key r' = n /\ tag r' = tag r /\ eid r' = eid r /\ text r' = text r
    /\ children r' = (clone n1 (children r)).1
    /\ n < n1 /\ (clone n1 (children r)).2 <= (clone n F).2.
Proof.
  destruct F as [|k t i x c ch sib]; [discriminate|].
  intros [= <-]. cbn [clone].
  pose proof (clone_keys c (S n)) as (Hc & _).
  destruct (clone (S n) c) as [c' n1].
  destruct (clone n1 ch) as [ch' n2] eqn:Hch.
  pose proof (clone_keys sib n2) as (Hs & _).
  destruct (clone n2 sib) as [sib' n3] eqn:Hsib.
  cbn [fst snd firstElementChild] in *.
  eexists _, n1. split; [reflexivity|]. cbn [key tag eid text children].
  rewrite Hch. cbn [fst snd]. repeat split; lia.
Qed.

(** ** The state in which a list renders *)

Lemma query_exists (sel sel' : Selector) (F : Forest) (x : Element) :
  query sel' F = Some x -> matches sel x = true -> query sel F <> None.
Proof.
  intros Hq Hm.
  induction F as [|k t i y c _ ch IHch sib IHsib]; [discriminate|].
  cbn [query] in *.
  destruct (matches sel (mkElement k t i y c ch)) eqn:Hroot; [discriminate|].
  destruct (matches sel' (mkElement k t i y c ch)).
  - injection Hq as <-. congruence.
  - destruct (query sel' ch) as [r|].
    + injection Hq as ->. specialize (IHch eq_refl).
      destruct (query sel ch); [discriminate | contradiction].
    + specialize (IHsib Hq). destruct (query sel ch); [discriminate | exact IHsib].
Qed.

Lemma query_none_inside (sel sel' : Selector) (F : Forest) (u : Element) :
  query sel F = None -> query sel' F = Some u -> query sel (children u) = None.
Proof.
  intros Hnone Hq.
  induction F as [|k t i y c _ ch IHch sib IHsib]; [discriminate|].
  cbn [query] in *.
  destruct (matches sel (mkElement k t i y c ch)); [discriminate|].
  destruct (query sel ch) eqn:Hch; [discriminate|].
  destruct (matches sel' (mkElement k t i y c ch)).
  - injection Hq as <-. exact Hch.
  - destruct (query sel' ch) as [r|].
    + injection Hq as ->. now apply IHch.
    + now apply IHsib.
Qed.

Lemma query_key_in (k : nat) (F : Forest) :
  k ∈ keys F -> exists u, query (ByKey k) F = Some u.
Proof.
  intros Hin. destruct (query (ByKey k) F) as [u|] eqn:Hq; [now exists u|].
  exfalso. induction F as [|k' t i y c _ ch IHch sib IHsib];
    [now apply elem_of_nil in Hin|].
  cbn [query matches key keys] in *.
  destruct (Nat.eqb_spec k' k) as [|Hne]; [discriminate|].
  destruct (query (ByKey k) ch) eqn:Hch; [discriminate|].
  apply elem_of_cons in Hin as [->|Hin]; [contradiction|].
  apply elem_of_app in Hin as [Hin|Hin]; auto.
Qed.

Lemma getElementById_template (F : Forest) :
  getElementById (u16 "single-project") F = query (ById (u16 "single-project")) F.
Proof. reflexivity. Qed.

Lemma getElementById_list (type : ListType) (F : Forest) :
  getElementById (listId type) F = query (ById (listId type)) F.
Proof. now destruct type. Qed.

Lemma listId_not_template (type : ListType) : listId type <> u16 "single-project".
Proof. destruct type; discriminate. Qed.

Lemma matches_ById (i : jsstring) (e : Element) :
  matches (ById i) e = true <-> eid e = i.
Proof. apply jsstring_eqb_eq. Qed.

(** A change of the list element itself (emptying it, inserting an item)
    leaves the page in a state in which the list renders. *)
Lemma list_state_edit_list (type : ListType) (this : Component) (te : Element)
    (items items' : Forest) (f : Element -> Element) (pg : Page)
    (listEl : Element) (n' : nat) :
  list_state type this te items pg ->
  children te = Empty ->
  getElementById (listId type) (document pg) = Some listEl ->
  shallow f ->
  no_new (ById (u16 "single-project")) f ->
  children (f listEl) = items' ->
  query (ById (u16 "single-project")) items' = None ->
  page_ok (mkPage (modify (key listEl) f (document pg)) n') ->
  list_state type this te items'
    (mkPage (modify (key listEl) f (document pg)) n')
  /\ getElementById (listId type) (modify (key listEl) f (document pg))
     = Some (f listEl).
Proof.
  intros (Hok & Hte & Hclean & u & e & Hu & Hitems & He & Hul) Hleaf Hl Hsh Hnew
    Hch' Hclean' Hok'.
  rewrite Hl in Hu. injection Hu as <-.
  destruct Hok as [Hnd Hlt].
  rewrite getElementById_list in Hl. rewrite getElementById_template in Hte.
  unfold querySelector in Hul.
  pose proof (query_in _ _ _ Hul) as [Hin _].
  pose proof (query_NoDup _ _ _ He Hnd) as [Hnde _].
  assert (Hl' : query (ById (listId type)) (modify (key listEl) f (document pg))
                = Some (f listEl)).
  { apply query_modify_at; auto. now apply shallow_keeps. }
  split; [|now rewrite getElementById_list].
  split; [exact Hok'|]. cbn [document].
  split; [rewrite getElementById_template|].
  { apply query_modify_other; auto.
    - intros Heq. pose proof (query_by_key _ _ _ Hte Hnd) as H1.
      pose proof (query_by_key _ _ _ Hl Hnd) as H2.
      rewrite <- Heq, H2 in H1. injection H1 as ->.
      apply query_matches, matches_ById in Hte.
      apply query_matches, matches_ById in Hl.
      apply (listId_not_template type). congruence.
    - rewrite Hleaf. apply not_elem_of_nil.
    - intros u0 Hu0. rewrite (query_by_key _ _ _ Hl Hnd) in Hu0.
      injection Hu0 as <-. now rewrite Hitems.
    - now apply shallow_keeps. }
  split; [exact Hclean'|].
  exists (f listEl), (mkElement (key e) (tag e) (eid e) (text e) (content e)
                        (modify (key listEl) f (children e))).
  split; [now rewrite getElementById_list|]. split; [exact Hch'|]. split.
  - now apply query_modify_inside.
  - unfold querySelector. cbn [children].
    apply query_modify_at; auto. now apply shallow_keeps.
Qed.

(** A change made inside the list (the text of an element of an item)
    leaves it so too. *)
Lemma list_state_edit_inside (type : ListType) (this : Component) (te : Element)
    (items : Forest) (f : Element -> Element) (k : nat) (pg : Page) :
  list_state type this te items pg ->
  children te = Empty ->
  shallow f -> shrinking f ->
  k ∈ keys items ->
  list_state type this te (modify k f items)
    (mkPage (modify k f (document pg)) (next_key pg)).
Proof.
  intros (Hok & Hte & Hclean & u & e & Hu & Hitems & He & Hul) Hleaf Hsh Hshr Hk.
  pose proof Hok as [Hnd Hlt].
  rewrite getElementById_list in Hu. rewrite getElementById_template in Hte.
  unfold querySelector in Hul. subst items.
  pose proof (query_in _ _ _ Hul) as [_ Hsub].
  pose proof (query_NoDup _ _ _ He Hnd) as [Hnde _].
  pose proof (query_in _ _ _ Hu) as [_ Hsubdoc].
  destruct (query_key_in k _ Hk) as (x & Hx).
  assert (Hxk : key x = k).
  { apply query_matches in Hx. cbn [matches] in Hx. now apply Nat.eqb_eq in Hx. }
  assert (Hxdoc : query (ByKey k) (document pg) = Some x).
  { rewrite <- Hxk in *. now apply (query_by_key_inside _ _ _ _ Hu Hnd). }
  split; [now apply page_ok_shrinking|]. cbn [document].
  split; [rewrite getElementById_template|].
  { apply query_modify_other; auto.
    - intros Heq. rewrite Heq, (query_by_key _ _ _ Hte Hnd) in Hxdoc.
      injection Hxdoc as <-.
      apply (query_exists (ById (u16 "single-project")) _ _ _ Hx);
        [now apply query_matches in Hte | exact Hclean].
    - rewrite Hleaf. apply not_elem_of_nil.
    - intros u0 Hu0. rewrite Hxdoc in Hu0. injection Hu0 as <-.
      exact (query_none_inside _ _ _ _ Hclean Hx).
    - now apply shallow_keeps.
    - now apply shrinking_no_new. }
  split.
  { apply query_modify_none; auto;
      [now apply shallow_keeps | now apply shrinking_no_new]. }
  exists (mkElement (key u) (tag u) (eid u) (text u) (content u)
            (modify k f (children u))),
         (mkElement (key e) (tag e) (eid e) (text e) (content e)
            (modify k f (children e))).
  split; [rewrite getElementById_list; now apply query_modify_inside|].
  split; [reflexivity|]. split.
  - apply query_modify_inside; auto.
  - unfold querySelector. cbn [children]. now apply query_modify_inside.
Qed.

(** ** The constructor of a component *)

(** A copy differs from its original by the identities only. *)
Lemma clone_shape (F : Forest) (n : nat) : shape (clone n F).1 = shape F.
Proof.
  revert n. induction F as [|k t i x c IHc ch IHch sib IHsib]; intros n; [reflexivity|].
  cbn [clone]. specialize (IHc (S n)). destruct (clone (S n) c) as [c' n1].
  specialize (IHch n1). destruct (clone n1 ch) as [ch' n2].
  specialize (IHsib n2). destruct (clone n2 sib) as [sib' n3].
  cbn [fst shape] in *. now rewrite IHc, IHch, IHsib.
Qed.

Lemma clone_first_shape (F : Forest) (n : nat) (r r' : Element) :
  firstElementChild F = Some r ->
  firstElementChild (clone n F).1 = Some r' ->
  shape (plant r' Empty) = shape (plant r Empty).
Proof.
  intros Hr Hr'. pose proof (clone_shape F n) as Hs.
  destruct F as [|k t i x c ch sib]; [discriminate|]. injection Hr as <-.
  cbn [clone] in *. destruct (clone (S n) c) as [c' n1].
  destruct (clone n1 ch) as [ch' n2]. destruct (clone n2 sib) as [sib' n3].
  cbn [fst firstElementChild shape] in *. injection Hr' as <-.
  injection Hs as Hc Hch _. unfold plant. cbn [key tag eid text content children shape].
  now rewrite Hc, Hch.
Qed.

(** What the constructor does when the template and the host are found:
    the element attached is a copy of the first element of the template,
    with new keys, and with the id given when one is given. *)
Lemma Component_new_ok (templateId hostElementId : jsstring) (insertAtStart : bool)
    (newElementId : jsstring) (pg : Page) (te r host : Element) :
  getElementById templateId (document pg) = Some te ->
  tag te = "template"%string ->
  firstElementChild (content te) = Some r ->
  getElementById hostElementId (document pg) = Some host ->
  exists el n1,
    Component_new templateId hostElementId insertAtStart newElementId pg
    = Ok (mkComponent (key te) (key host) (next_key pg))
         (mkPage (modify (key host) (insertAdjacentElement insertAtStart el)
                    (document pg))
                 (clone (next_key pg) (content te)).2)
    /\ key el = next_key pg /\ tag el = tag r /\ text el = text r
    /\ eid el = match newElementId with [] => eid r | _ => newElementId end
    /\ children el = (clone n1 (children r)).1
    /\ next_key pg < n1
    /\ (clone n1 (children r)).2 <= (clone (next_key pg) (content te)).2
    /\ shape (plant el Empty)
       = shape (plant (match newElementId with
                       | [] => r
                       | _ => set_id newElementId r
                       end) Empty).
Proof.
  intros Hte Htag Hr Hhost. unfold Component_new. rewrite Hte, Hhost, Htag.
  cbn [String.eqb negb].
  destruct (clone_first (content te) (next_key pg) r Hr)
    as (r' & n1 & Hfirst & Hk & Ht & Hi & Hx & Hch & Hlt & Hle).
  pose proof (clone_first_shape (content te) (next_key pg) r r' Hr Hfirst) as Hshape.
  destruct (clone (next_key pg) (content te)) as [importedNode next].
  cbn [fst snd] in *. rewrite Hfirst.
  destruct newElementId as [|a newId].
  - exists r', n1. rewrite Hk. repeat split; auto.
  - exists (set_id (a :: newId) r'), n1. cbn [set_id key tag text eid children].
    rewrite Hk. repeat split; auto.
    unfold plant in *. cbn [set_id key tag eid text content children shape] in *.
    injection Hshape as Ht' _ Hx' Hc Hch'. now rewrite Ht', Hx', Hc, Hch'.
Qed.

Lemma page_ok_insert (pg : Page) (host el r : Element) (b : bool) (n1 next : nat) :
  page_ok pg ->
  key host ∈ keys (document pg) ->
  key el = next_key pg ->
  children el = (clone n1 (children r)).1 ->
  next_key pg < n1 ->
  (clone n1 (children r)).2 <= next ->
  page_ok (mkPage (modify (key host) (insertAdjacentElement b el) (document pg)) next)
  /\ NoDup (keys (plant el Empty))
  /\ Forall (fun k => next_key pg <= k < next) (keys (plant el Empty)).
Proof.
  intros [Hnd Hlt] Hin Hk Hch Hn1 Hnext.
  destruct (clone_keys (children r) n1) as (Hle & Hndc & Hrange).
  rewrite <- Hch in Hndc, Hrange. rewrite Forall_forall in Hlt, Hrange.
  assert (Hel : NoDup (keys (plant el Empty))
                /\ Forall (fun k => next_key pg <= k < next) (keys (plant el Empty))).
  { rewrite keys_plant. cbn [keys]. rewrite app_nil_r. split.
    - apply NoDup_cons. split; [|exact Hndc].
      intros Hc. apply Hrange in Hc. lia.
    - constructor; [lia|]. apply Forall_forall. intros y Hy.
      apply Hrange in Hy. lia. }
  destruct Hel as [Hndel Hrel]. split; [|split; assumption].
  pose proof (keys_modify_insert (key host) b el _ Hnd Hin) as Hperm.
  rewrite Forall_forall in Hrel.
  split; cbn [document next_key].
  - rewrite Hperm. apply NoDup_app. split; [exact Hnd|]. split; [|exact Hndel].
    intros y Hy1 Hy2. apply Hlt in Hy1. apply Hrel in Hy2. lia.
  - apply Forall_forall. intros y Hy. rewrite Hperm in Hy.
    apply elem_of_app in Hy as [Hy|Hy]; [apply Hlt in Hy | apply Hrel in Hy]; lia.
Qed.

(** X17: the constructor of a component.  It throws exactly when the
    template id finds no [template] element, when the content of the
    template has no element, or when the host id finds no element, and then
    leaves the document as it was.  Otherwise the template found is a
    [template] element and the document changes at the host only, which,
    reached again through its reference, has one more child, placed first
    when [insertAtStart] is true and last when it is false, the former
    children staying in their order.  That child is a deep copy of the
    first element of the template: the same tag, text, template content and
    descendants, with the id given when one is given, all its elements
    being new objects. *)
Theorem Component_new_outcome (templateId hostElementId : jsstring)
    (insertAtStart : bool) (newElementId : jsstring) (pg : Page) :
  NoDup (keys (document pg)) ->
  match Component_new templateId hostElementId insertAtStart newElementId pg with
  | TypeError pg' =>
      document pg' = document pg
      /\ (getElementById hostElementId (document pg) = None
          \/ match getElementById templateId (document pg) with
             | None => True
             | Some te =>
                 tag te <> "template"%string
                 \/ firstElementChild (content te) = None
             end)
  | Ok this pg' =>
      exists te r host host' el,
        getElementById templateId (document pg) = Some te
        /\ tag te = "template"%string
        /\ firstElementChild (content te) = Some r
        /\ getElementById hostElementId (document pg) = Some host
        /\ templateElement this = key te
        /\ hostElement this = key host
        /\ element this = key el /\ key el = next_key pg
        /\ tag el = tag r
        /\ eid el = match newElementId with [] => eid r | _ => newElementId end
        /\ shape (plant el Empty)
           = shape (plant (match newElementId with
                           | [] => r
                           | _ => set_id newElementId r
                           end) Empty)
        /\ NoDup (keys (plant el Empty))
        /\ Forall (fun k => next_key pg <= k < next_key pg') (keys (plant el Empty))
        /\ document pg'
           = modify (key host) (insertAdjacentElement insertAtStart el) (document pg)
        /\ query (ByKey (key host)) (document pg') = Some host'
        /\ roots (children host')
           = if insertAtStart
             then el :: roots (children host)
             else roots (children host) ++ [el]
  end.
Proof.
  intros Hnd.
  destruct (getElementById templateId (document pg)) as [te|] eqn:Hte.
  2:{ unfold Component_new. rewrite Hte. split; [reflexivity | now right]. }
  destruct (String.eqb_spec (tag te) "template") as [Htag|Htag].
  2:{ unfold Component_new. rewrite Hte.
      destruct (String.eqb_spec (tag te) "template"); [contradiction|].
      cbn [negb]. split; [reflexivity | right; now left]. }
  destruct (firstElementChild (content te)) as [r|] eqn:Hr.
  2:{ unfold Component_new. rewrite Hte, Htag. cbn [String.eqb negb].
      assert (Hnone : firstElementChild (clone (next_key pg) (content te)).1 = None).
      { destruct (content te); [reflexivity | discriminate]. }
      destruct (clone (next_key pg) (content te)) as [importedNode next].
      cbn [fst] in Hnone. rewrite Hnone. cbn [document].
      split; [reflexivity | right; now right]. }
  destruct (getElementById hostElementId (document pg)) as [host|] eqn:Hhost.
  2:{ unfold Component_new. rewrite Hte, Hhost, Htag. cbn [String.eqb negb].
      destruct (clone (next_key pg) (content te)) as [importedNode next].
      destruct (firstElementChild importedNode); cbn [document];
        (split; [reflexivity | now left]). }
  destruct (Component_new_ok templateId hostElementId insertAtStart newElementId
              pg te r host Hte Htag Hr Hhost)
    as (el & n1 & -> & Hk & Ht & _ & Hi & Hch & Hn1 & Hnext & Hshape).
  assert (Hq : exists sel, query sel (document pg) = Some host).
  { unfold getElementById in Hhost. destruct hostElementId; [discriminate|]. eauto. }
  destruct Hq as (sel & Hq).
  destruct (clone_keys (children r) n1) as (Hle & Hndc & Hrange).
  rewrite <- Hch in Hndc, Hrange. rewrite Forall_forall in Hrange.
  exists te, r, host, (insertAdjacentElement insertAtStart el host), el.
  cbn [templateElement hostElement element document next_key].
  do 11 (split; [solve [auto | symmetry; auto] |]).
  split.
  { rewrite keys_plant. cbn [keys]. rewrite app_nil_r.
    apply NoDup_cons. split; [|exact Hndc]. intros Hc. apply Hrange in Hc. lia. }
  split.
  { rewrite keys_plant. cbn [keys]. rewrite app_nil_r.
    constructor; [lia|]. apply Forall_forall. intros y Hy. apply Hrange in Hy. lia. }
  split; [reflexivity|]. split.
  - apply (query_modify_at (ByKey (key host))
             (insertAdjacentElement insertAtStart el) _ host
             (query_by_key _ _ _ Hq Hnd) Hnd).
    intros e. reflexivity.
  - unfold insertAdjacentElement. cbn [children]. destruct insertAtStart.
    + unfold plant. cbn [roots]. now rewrite plant_eta.
    + rewrite roots_fapp. unfold plant. cbn [roots]. now rewrite plant_eta.
Qed.

(** ** Rendering one item *)

Lemma shallow_set_textContent (s : jsstring) : shallow (set_textContent s).
Proof. intros e. repeat split. Qed.

Lemma shrinking_set_textContent (s : jsstring) : shrinking (set_textContent s).
Proof. intros e. now right. Qed.

Lemma shallow_clear_innerHTML : shallow clear_innerHTML.
Proof. intros e. repeat split. Qed.

Lemma shallow_insert (b : bool) (el : Element) : shallow (insertAdjacentElement b el).
Proof. intros e. repeat split. Qed.

(** Another leaf than the one changed is found as it was. *)
Lemma query_other_leaf (sa sb : Selector) (f : Element -> Element) (B : Forest)
    (xa xb : Element) :
  NoDup (keys B) ->
  query sa B = Some xa -> children xa = Empty ->
  query sb B = Some xb -> children xb = Empty ->
  matches sb xa = false ->
  shallow f -> shrinking f ->
  query sb (modify (key xa) f B) = Some xb.
Proof.
  intros Hnd Ha Hla Hb Hlb Hm Hsh Hshr.
  apply query_modify_other; auto.
  - intros Heq. pose proof (query_by_key _ _ _ Ha Hnd) as H1.
    pose proof (query_by_key _ _ _ Hb Hnd) as H2.
    rewrite Heq, H2 in H1. injection H1 as ->.
    apply query_matches in Hb. congruence.
  - rewrite Hlb. apply not_elem_of_nil.
  - intros u Hu. rewrite (query_by_key _ _ _ Ha Hnd) in Hu. injection Hu as <-.
    now rewrite Hla.
  - now apply shallow_keeps.
  - now apply shrinking_no_new.
Qed.

(** One assignment of [renderContent], on the item that is the last child
    of the list: the text of the leaf is set, and the page is still in a
    state in which the list renders. *)
Lemma set_text_in_item (type : ListType) (this : Component) (te : Element)
    (A : Forest) (el x : Element) (sel : Selector) (s : jsstring) (pg : Page) :
  list_state type this te (fapp A (plant el Empty)) pg ->
  children te = Empty ->
  query sel (children el) = Some x ->
  let el' := mkElement (key el) (tag el) (eid el) (text el) (content el)
               (modify (key x) (set_textContent s) (children el)) in
  set_descendant_text (key el) sel s pg
  = Ok tt (mkPage (modify (key x) (set_textContent s) (document pg)) (next_key pg))
  /\ list_state type this te (fapp A (plant el' Empty))
       (mkPage (modify (key x) (set_textContent s) (document pg)) (next_key pg))
  /\ NoDup (keys (children el)).
Proof.
  intros Hst Hleaf Hx el'.
  pose proof Hst as ([Hnd Hlt] & _ & _ & u & e & Hu & Hitems & _ & _).
  rewrite getElementById_list in Hu.
  pose proof (query_NoDup _ _ _ Hu Hnd) as [Hndu _].
  rewrite Hitems, keys_fapp, keys_plant in Hndu. cbn [keys] in Hndu.
  rewrite app_nil_r in Hndu.
  apply NoDup_app in Hndu as (_ & Hdisj & Hndel).
  apply NoDup_cons in Hndel as [Hkel Hndch].
  pose proof (query_in _ _ _ Hx) as [Hxin _].
  assert (HelA : key el ∉ keys A).
  { intros Hc. apply (Hdisj _ Hc). apply elem_of_cons. now left. }
  assert (HxA : key x ∉ keys A).
  { intros Hc. apply (Hdisj _ Hc). apply elem_of_cons. now right. }
  assert (Hel : query (ByKey (key el)) (document pg) = Some el).
  { apply (query_by_key_inside _ _ _ _ Hu Hnd). rewrite Hitems, query_fapp.
    rewrite (query_key_notin _ _ HelA), query_plant. cbn [matches].
    now rewrite Nat.eqb_refl. }
  split; [|split; [|exact Hndch]].
  - unfold set_descendant_text, querySelector. now rewrite Hel, Hx.
  - assert (Hmod : modify (key x) (set_textContent s) (fapp A (plant el Empty))
                   = fapp A (plant el' Empty)).
    { rewrite modify_fapp, (modify_notin _ _ A HxA). f_equal.
      unfold plant. cbn [modify].
      destruct (Nat.eqb_spec (key el) (key x)) as [Heq|_];
        [now rewrite Heq in Hkel | reflexivity]. }
    rewrite <- Hmod.
    apply list_state_edit_inside; auto using shallow_set_textContent,
      shrinking_set_textContent.
    rewrite keys_fapp, keys_plant. apply elem_of_app. right.
    apply elem_of_cons. right. apply elem_of_app. now left.
Qed.

Lemma tag_of_query (t : string) (F : Forest) (x : Element) :
  query (ByTag t) F = Some x -> tag x = t.
Proof. intros Hq. apply query_matches in Hq. now apply String.eqb_eq in Hq. Qed.

(** The three assignments, on the children of the item: each sets the
    text of its leaf and leaves the two others as they are. *)
Lemma three_leaves (B : Forest) (a b c : jsstring) :
  NoDup (keys B) ->
  leaf_at (ByTag "h2") B -> leaf_at (ByTag "h3") B -> leaf_at (ByTag "p") B ->
  exists x2 x3 xp,
    let B1 := modify (key x2) (set_textContent a) B in
    let B2 := modify (key x3) (set_textContent b) B1 in
    let B3 := modify (key xp) (set_textContent c) B2 in
    query (ByTag "h2") B = Some x2
    /\ query (ByTag "h3") B1 = Some x3
    /\ query (ByTag "p") B2 = Some xp
    /\ NoDup (keys B1) /\ NoDup (keys B2)
    /\ query (ByTag "h2") B3 = Some (set_textContent a x2)
    /\ query (ByTag "h3") B3 = Some (set_textContent b x3)
    /\ query (ByTag "p") B3 = Some (set_textContent c xp).
Proof.
  intros Hnd (x2 & H2 & L2) (x3 & H3 & L3) (xp & Hp & Lp).
  exists x2, x3, xp. cbn zeta.
  pose proof (tag_of_query _ _ _ H2) as T2.
  pose proof (tag_of_query _ _ _ H3) as T3.
  pose proof (tag_of_query _ _ _ Hp) as Tp.
  set (f2 := set_textContent a). set (f3 := set_textContent b).
  set (fp := set_textContent c).
  assert (S2 : shallow f2) by apply shallow_set_textContent.
  assert (S3 : shallow f3) by apply shallow_set_textContent.
  assert (Sp : shallow fp) by apply shallow_set_textContent.
  assert (R2 : shrinking f2) by apply shrinking_set_textContent.
  assert (R3 : shrinking f3) by apply shrinking_set_textContent.
  assert (Rp : shrinking fp) by apply shrinking_set_textContent.
  assert (Hnd1 : NoDup (keys (modify (key x2) f2 B))).
  { eapply sublist_NoDup; [exact Hnd|]. now apply keys_modify_shrinking. }
  assert (Hnd2 : NoDup (keys (modify (key x3) f3 (modify (key x2) f2 B)))).
  { eapply sublist_NoDup; [exact Hnd1|]. now apply keys_modify_shrinking. }
  (* after the first assignment *)
  assert (A2 : query (ByTag "h2") (modify (key x2) f2 B) = Some (f2 x2)).
  { apply query_modify_at; auto. now apply shallow_keeps. }
  assert (A3 : query (ByTag "h3") (modify (key x2) f2 B) = Some x3).
  { apply (query_other_leaf (ByTag "h2")); auto. cbn [matches]. now rewrite T2. }
  assert (Ap : query (ByTag "p") (modify (key x2) f2 B) = Some xp).
  { apply (query_other_leaf (ByTag "h2")); auto. cbn [matches]. now rewrite T2. }
  (* after the second *)
  assert (B2' : query (ByTag "h2") (modify (key x3) f3 (modify (key x2) f2 B))
                = Some (f2 x2)).
  { apply (query_other_leaf (ByTag "h3")); auto. cbn [matches]. now rewrite T3. }
  assert (B3' : query (ByTag "h3") (modify (key x3) f3 (modify (key x2) f2 B))
                = Some (f3 x3)).
  { apply query_modify_at; auto. now apply shallow_keeps. }
  assert (Bp' : query (ByTag "p") (modify (key x3) f3 (modify (key x2) f2 B))
                = Some xp).
  { apply (query_other_leaf (ByTag "h3")); auto. cbn [matches]. now rewrite T3. }
  (* after the third *)
  repeat split; auto.
  - apply (query_other_leaf (ByTag "p")); auto. cbn [matches f2 set_textContent tag].
    now rewrite Tp.
  - apply (query_other_leaf (ByTag "p")); auto. cbn [matches f3 set_textContent tag].
    now rewrite Tp.
  - apply query_modify_at; auto. now apply shallow_keeps.
Qed.

(** ** What a list leaves alone *)

Lemma blind_ByKey (kk : nat) (r : Element) (n : nat) (i : jsstring) :
  kk < n -> blind (ByKey kk) r n i.
Proof.
  intros Hkk el n1 Hn Hn1 _ Hch. split.
  - cbn [matches]. apply Nat.eqb_neq. lia.
  - apply query_key_notin. rewrite Hch. intros Hin.
    destruct (clone_keys (children r) n1) as (_ & _ & Hrange).
    rewrite Forall_forall in Hrange. apply Hrange in Hin. lia.
Qed.

Lemma blind_ById (j : jsstring) (r : Element) (n : nat) (i : jsstring) :
  i <> j -> query (ById j) (children r) = None -> blind (ById j) r n i.
Proof.
  intros Hij Hr el n1 _ _ Hi Hch. split.
  - cbn [matches]. apply jsstring_eqb_neq. now rewrite Hi.
  - rewrite Hch. pose proof (clone_query (ById j) (children r) n1) as Hq.
    rewrite Hr in Hq. apply Hq. intros k. discriminate.
Qed.

Lemma blind_mono (sel : Selector) (r : Element) (n n' : nat) (i : jsstring) :
  n <= n' -> blind sel r n i -> blind sel r n' i.
Proof. intros Hle Hb el n1 Hn. apply Hb. lia. Qed.

(** A change of [u] itself leaves a bystander of [u] one. *)
Lemma bystander_edit_at (sel selU : Selector) (e u : Element)
    (f : Element -> Element) (pg : Page) (n' : nat) :
  NoDup (keys (document pg)) ->
  query selU (document pg) = Some u ->
  bystander sel e u pg ->
  keeps selU f -> keeps sel f -> no_new sel f ->
  key (f u) = key u ->
  query sel (children (f u)) = None ->
  Forall (fun k => k ∉ key e :: keys (children e)) (keys (children (f u))) ->
  query selU (modify (key u) f (document pg)) = Some (f u)
  /\ bystander sel e (f u) (mkPage (modify (key u) f (document pg)) n').
Proof.
  intros Hnd Hu (He & Hclean & Hdisj) HkU Hk Hnew Hkey Hclean' Hdisj'.
  split; [now apply query_modify_at|].
  apply Forall_cons in Hdisj as [Hu_e Hdisj].
  split; [|split].
  - cbn [document]. apply query_modify_other; auto.
    + intros Heq. apply Hu_e. rewrite Heq. now left.
    + intros Hin. apply Hu_e. now right.
    + intros u0 Hu0. rewrite (query_by_key _ _ _ Hu Hnd) in Hu0.
      now injection Hu0 as <-.
  - exact Hclean'.
  - rewrite Hkey. now constructor.
Qed.

(** A change made under [u] leaves a bystander of [u] one. *)
Lemma bystander_edit_inside (sel selU : Selector) (e u : Element) (k : nat)
    (f : Element -> Element) (pg : Page) (n' : nat) :
  NoDup (keys (document pg)) ->
  query selU (document pg) = Some u ->
  bystander sel e u pg ->
  k ∈ keys (children u) ->
  shallow f -> shrinking f ->
  let u' := mkElement (key u) (tag u) (eid u) (text u) (content u)
              (modify k f (children u)) in
  query selU (modify k f (document pg)) = Some u'
  /\ bystander sel e u' (mkPage (modify k f (document pg)) n').
Proof.
  intros Hnd Hu (He & Hclean & Hdisj) Hk Hsh Hshr u'.
  split; [now apply query_modify_inside|].
  apply Forall_cons in Hdisj as [Hu_e Hdisj]. rewrite Forall_forall in Hdisj.
  destruct (query_key_in k _ Hk) as (x & Hx).
  assert (Hxk : key x = k).
  { apply query_matches in Hx. cbn [matches] in Hx. now apply Nat.eqb_eq in Hx. }
  assert (Hxdoc : query (ByKey k) (document pg) = Some x).
  { rewrite <- Hxk in *. now apply (query_by_key_inside _ _ _ _ Hu Hnd). }
  split; [|split].
  - cbn [document]. apply query_modify_other; auto.
    + intros Heq. apply (Hdisj _ Hk). rewrite Heq. now left.
    + intros Hin. apply (Hdisj _ Hk). now right.
    + intros u0 Hu0. rewrite Hxdoc in Hu0. injection Hu0 as <-.
      exact (query_none_inside _ _ _ _ Hclean Hx).
    + now apply shallow_keeps.
    + now apply shrinking_no_new.
  - cbn [children u'].
    apply query_modify_none; [exact Hclean | now apply shallow_keeps
                             | now apply shrinking_no_new].
  - cbn [key children u']. constructor; [exact Hu_e|].
    apply Forall_forall. intros y Hy. apply Hdisj.
    exact (elem_of_sublist _ _ _ Hy (keys_modify_shrinking k f _ Hsh Hshr)).
Qed.

(** A text set under an item of the list leaves a bystander of the list
    one. *)
Lemma bystander_text_step (type : ListType) (this : Component) (te : Element)
    (A : Forest) (el0 x : Element) (s : jsstring) (sel : Selector) (e u : Element)
    (pg : Page) :
  list_state type this te (fapp A (plant el0 Empty)) pg ->
  getElementById (listId type) (document pg) = Some u ->
  bystander sel e u pg ->
  key x ∈ keys (children el0) ->
  exists u',
    getElementById (listId type)
      (modify (key x) (set_textContent s) (document pg)) = Some u'
    /\ key u' = key u
    /\ bystander sel e u'
         (mkPage (modify (key x) (set_textContent s) (document pg)) (next_key pg)).
Proof.
  intros ([Hnd _] & _ & _ & l & e0 & Hl & Hitems & _) Hu Hby Hx.
  rewrite Hu in Hl. injection Hl as <-.
  rewrite getElementById_list in *.
  destruct (bystander_edit_inside sel (ById (listId type)) e u (key x)
              (set_textContent s) pg (next_key pg) Hnd Hu Hby) as [Hq Hby'].
  - rewrite Hitems, keys_fapp, keys_plant. apply elem_of_app. right.
    apply elem_of_cons. right. apply elem_of_app. now left.
  - apply shallow_set_textContent.
  - apply shrinking_set_textContent.
  - eexists. split; [exact Hq|]. split; [reflexivity | exact Hby'].
Qed.

(** A change made under the element [e] of a component: the selector that
    found nothing under [e] still finds nothing, when the change brings
    nothing that it finds. *)
Lemma section_edit (sel selE : Selector) (e : Element) (k : nat)
    (f : Element -> Element) (F : Forest) :
  NoDup (keys F) ->
  query selE F = Some e ->
  k ∈ keys (children e) ->
  query sel (children e) = None ->
  keeps sel f -> no_new sel f ->
  let e' := mkElement (key e) (tag e) (eid e) (text e) (content e)
              (modify k f (children e)) in
  query selE (modify k f F) = Some e' /\ query sel (children e') = None.
Proof.
  intros Hnd He Hk Hc Hkeep Hnew e'.
  split; [now apply query_modify_inside|].
  cbn [children e']. now apply query_modify_none.
Qed.

Lemma section_text_step (type : ListType) (this : Component) (te : Element)
    (A : Forest) (el0 x : Element) (s : jsstring) (sel : Selector) (e : Element)
    (pg : Page) :
  list_state type this te (fapp A (plant el0 Empty)) pg ->
  query (ByKey (element this)) (document pg) = Some e ->
  query sel (children e) = None ->
  key x ∈ keys (children el0) ->
  exists e',
    query (ByKey (element this))
      (modify (key x) (set_textContent s) (document pg)) = Some e'
    /\ key e' = key e
    /\ query sel (children e') = None.
Proof.
  intros ([Hnd _] & _ & _ & l & e0 & Hl & Hitems & He0 & Hul) He Hc Hx.
  rewrite He in He0. injection He0 as <-.
  unfold querySelector in Hul. pose proof (query_in _ _ _ Hul) as [_ Hsub].
  destruct (section_edit sel (ByKey (element this)) e (key x) (set_textContent s)
              (document pg) Hnd He) as [Hq Hc'].
  - apply Hsub. rewrite Hitems, keys_fapp, keys_plant. apply elem_of_app. right.
    apply elem_of_cons. right. apply elem_of_app. now left.
  - exact Hc.
  - apply shallow_keeps, shallow_set_textContent.
  - apply shrinking_no_new, shrinking_set_textContent.
  - eexists. split; [exact Hq|]. split; [reflexivity | exact Hc'].
Qed.

(** [new ProjectItem] on a page in which the list renders: the list gains
    one child, a copy of the template's element with the id of the project
    and the three texts, and the page is again in such a state; what
    shares nothing with the list stays as it is. *)
Lemma ProjectItem_new_renders `{JsRuntime} (type : ListType) (this : Component)
    (te r : Element) (A : Forest) (project : Project.t) (pg : Page) :
  list_state type this te A pg ->
  item_template te r ->
  Project.id project <> u16 "single-project" ->
  exists item_c pg' item,
    ProjectItem_new (listId type) project pg = Ok item_c pg'
    /\ list_state type this te (fapp A (plant item Empty)) pg'
    /\ item_texts item = Some (ProjectItem_renderContent project)
    /\ eid item = match Project.id project with
                  | [] => eid r
                  | _ => Project.id project
                  end
    /\ tag item = tag r
    /\ next_key pg <= next_key pg'
    /\ Forall (fun k => next_key pg <= k) (keys (plant item Empty))
    /\ (forall sel e u,
          getElementById (listId type) (document pg) = Some u ->
          bystander sel e u pg ->
          blind sel r (next_key pg)
            (match Project.id project with
             | [] => eid r
             | _ => Project.id project
             end) ->
          exists u', getElementById (listId type) (document pg') = Some u'
                     /\ key u' = key u /\ bystander sel e u' pg')
    /\ (forall sel e,
          query (ByKey (element this)) (document pg) = Some e ->
          query sel (children e) = None ->
          blind sel r (next_key pg)
            (match Project.id project with
             | [] => eid r
             | _ => Project.id project
             end) ->
          exists e', query (ByKey (element this)) (document pg') = Some e'
                     /\ key e' = key e /\ query sel (children e') = None).
Proof.
  intros Hst (Htag & Hleaf & Hr & L2 & L3 & Lp & Hrid & Hrnone) Hid.
  pose proof Hst as (Hok & Hte & Hclean & u & e & Hu & Hitems & He & Hul).
  destruct (Component_new_ok (u16 "single-project") (listId type) false
              (Project.id project) pg te r u Hte Htag Hr Hu)
    as (el & n1 & Hcomp & Hk & Ht & _ & Hi & Hch & Hn1 & Hnext & _).
  set (next := (clone (next_key pg) (content te)).2) in *.
  assert (Huin : key u ∈ keys (document pg)).
  { rewrite getElementById_list in Hu. now apply query_in in Hu. }
  destruct (page_ok_insert pg u el r false n1 next Hok Huin Hk Hch Hn1 Hnext)
    as (Hok1 & Hndel & Hrange).
  assert (Hnomatch : matches (ById (u16 "single-project")) el = false).
  { cbn [matches]. apply jsstring_eqb_neq. rewrite Hi.
    destruct (Project.id project); auto. }
  assert (Hnoinner : query (ById (u16 "single-project")) (children el) = None).
  { rewrite Hch.
    pose proof (clone_query (ById (u16 "single-project")) (children r) n1) as Hq.
    rewrite Hrnone in Hq. apply Hq. intros k. discriminate. }
  assert (Hnoel : forall F, query (ById (u16 "single-project")) F = None ->
                    query (ById (u16 "single-project")) (fapp F (plant el Empty)) = None).
  { intros F HF. now rewrite query_fapp, HF, query_plant, Hnomatch, Hnoinner. }
  destruct (list_state_edit_list type this te A (fapp A (plant el Empty))
              (insertAdjacentElement false el) pg u next Hst Hleaf Hu
              (shallow_insert false el)) as [Hst1 _].
  { intros e0 He0. cbn [insertAdjacentElement children]. now apply Hnoel. }
  { cbn [insertAdjacentElement children]. now rewrite Hitems. }
  { now apply Hnoel. }
  { exact Hok1. }
  set (pg1 := mkPage (modify (key u) (insertAdjacentElement false el) (document pg))
                next) in *.
  pose proof Hndel as Hndel'.
  rewrite keys_plant in Hndel. cbn [keys] in Hndel. rewrite app_nil_r in Hndel.
  apply NoDup_cons in Hndel as [_ Hndch].
  assert (Hl2 : leaf_at (ByTag "h2") (children el)).
  { rewrite Hch. apply clone_leaf; [discriminate | exact L2]. }
  assert (Hl3 : leaf_at (ByTag "h3") (children el)).
  { rewrite Hch. apply clone_leaf; [discriminate | exact L3]. }
  assert (Hlp : leaf_at (ByTag "p") (children el)).
  { rewrite Hch. apply clone_leaf; [discriminate | exact Lp]. }
  set (texts := ProjectItem_renderContent project).
  destruct (three_leaves (children el) (h2 texts) (h3 texts) (p texts)
              Hndch Hl2 Hl3 Hlp)
    as (x2 & x3 & xp & Hq2 & Hq3 & Hqp & _ & _ & R2 & R3 & Rp).
  cbn zeta in *.
  set (B1 := modify (key x2) (set_textContent (h2 texts)) (children el)) in *.
  set (B2 := modify (key x3) (set_textContent (h3 texts)) B1) in *.
  set (B3 := modify (key xp) (set_textContent (p texts)) B2) in *.
  set (el1 := mkElement (key el) (tag el) (eid el) (text el) (content el) B1).
  set (el2 := mkElement (key el) (tag el) (eid el) (text el) (content el) B2).
  set (el3 := mkElement (key el) (tag el) (eid el) (text el) (content el) B3).
  destruct (set_text_in_item type this te A el x2 (ByTag "h2") (h2 texts) pg1
              Hst1 Hleaf Hq2) as (E1 & Hst2 & _).
  fold B1 el1 in Hst2.
  destruct (set_text_in_item type this te A el1 x3 (ByTag "h3") (h3 texts) _
              Hst2 Hleaf Hq3) as (E2 & Hst3 & _).
  cbn [key tag eid text content children el1] in Hst3, E2. fold B2 el2 in Hst3.
  destruct (set_text_in_item type this te A el2 xp (ByTag "p") (p texts) _
              Hst3 Hleaf Hqp) as (E3 & Hst4 & _).
  cbn [key tag eid text content children el2] in Hst4, E3. fold B3 el3 in Hst4.
  assert (Hsub3 : keys B3 `sublist_of` keys (children el)).
  { unfold B3, B2, B1.
    etransitivity; [apply keys_modify_shrinking; auto using shallow_set_textContent,
                      shrinking_set_textContent|].
    etransitivity; [apply keys_modify_shrinking; auto using shallow_set_textContent,
                      shrinking_set_textContent|].
    apply keys_modify_shrinking; auto using shallow_set_textContent,
      shrinking_set_textContent. }
  rewrite Forall_forall in Hrange.
  assert (Hfresh : forall y, y ∈ keys (plant el Empty) -> next_key pg <= y).
  { intros y Hy. apply Hrange in Hy. lia. }
  eexists _, _, el3.
  split.
  { unfold ProjectItem_new. rewrite Hcomp. fold pg1.
    unfold ProjectItem_render. cbn [element]. fold texts.
    cbn [document next_key] in E2, E3.
    rewrite <- Hk, E1. cbn [document next_key]. rewrite E2.
    cbn [document next_key]. rewrite E3. reflexivity. }
  split; [exact Hst4|].
  split.
  { unfold item_texts, querySelector. cbn [children el3].
    rewrite R2, R3, Rp. reflexivity. }
  split; [exact Hi|]. split; [exact Ht|].
  split.
  { cbn [next_key pg1]. unfold pg1. cbn [next_key].
    destruct (clone_keys (content te) (next_key pg)) as (Hle & _). exact Hle. }
  split.
  { apply Forall_forall. intros y Hy. apply Hfresh.
    rewrite keys_plant in *. cbn [key children el3 keys] in *.
    rewrite app_nil_r in *. apply elem_of_cons in Hy as [->|Hy]; [now left|].
    right. exact (elem_of_sublist _ _ _ Hy Hsub3). }
  split.
  2:{ intros sel e0 He0 Hc0 Hblind.
      rewrite He in He0. injection He0 as <-.
      destruct (Hblind el n1 ltac:(lia) ltac:(lia) Hi Hch) as [Hm Hc].
      pose proof Hok as [Hnd _].
      unfold querySelector in Hul. pose proof (query_in _ _ _ Hul) as [Huin' _].
      destruct (section_edit sel (ByKey (element this)) e (key u)
                  (insertAdjacentElement false el) (document pg) Hnd He Huin' Hc0)
        as [S1 N1].
      { apply shallow_keeps, shallow_insert. }
      { intros e1 He1. cbn [insertAdjacentElement children].
        now rewrite query_fapp, He1, query_plant, Hm, Hc. }
      change (modify (key u) (insertAdjacentElement false el) (document pg))
        with (document pg1) in S1.
      destruct (section_text_step type this te A el x2 (h2 texts) sel _ pg1
                  Hst1 S1 N1) as (e2 & S2 & K2 & N2).
      { now apply query_in in Hq2. }
      destruct (section_text_step type this te A el1 x3 (h3 texts) sel _
                  (mkPage (modify (key x2) (set_textContent (h2 texts)) (document pg1))
                     (next_key pg1))
                  Hst2 S2 N2) as (e3 & S3 & K3 & N3).
      { cbn [children el1]. now apply query_in in Hq3. }
      cbn [document next_key] in S3.
      destruct (section_text_step type this te A el2 xp (p texts) sel _
                  (mkPage (modify (key x3) (set_textContent (h3 texts))
                             (modify (key x2) (set_textContent (h2 texts))
                                (document pg1)))
                     (next_key pg1))
                  Hst3 S3 N3) as (e4 & S4 & K4 & N4).
      { cbn [children el2]. now apply query_in in Hqp. }
      cbn [document next_key] in S4.
      exists e4. split; [exact S4|]. split; [|exact N4].
      rewrite K4, K3, K2. reflexivity. }
  intros sel e0 u0 Hu0 Hby Hblind.
  rewrite Hu in Hu0. injection Hu0 as <-.
  destruct (Hblind el n1 ltac:(lia) ltac:(lia) Hi Hch) as [Hm Hc].
  pose proof Hby as (He0 & Hclean0 & Hdisj0).
  pose proof Hok as [Hnd Hlt]. rewrite Forall_forall in Hlt.
  pose proof (query_in _ _ _ He0) as [He0in He0sub].
  rewrite getElementById_list in Hu.
  destruct (bystander_edit_at sel (ById (listId type)) e0 u
              (insertAdjacentElement false el) pg next Hnd Hu Hby) as [Q1 By1].
  { apply shallow_keeps, shallow_insert. }
  { apply shallow_keeps, shallow_insert. }
  { intros e1 He1. cbn [insertAdjacentElement children].
    now rewrite query_fapp, He1, query_plant, Hm, Hc. }
  { reflexivity. }
  { cbn [insertAdjacentElement children].
    now rewrite query_fapp, Hclean0, query_plant, Hm, Hc. }
  { cbn [insertAdjacentElement children]. rewrite keys_fapp. apply Forall_app. split.
    - now apply Forall_cons in Hdisj0 as [_ ?].
    - apply Forall_forall. intros y Hy Hin. apply Hfresh in Hy.
      assert (y ∈ keys (document pg)) as Hdoc.
      { apply elem_of_cons in Hin as [->|Hin]; auto. }
      apply Hlt in Hdoc. lia. }
  fold pg1 in By1.
  rewrite <- getElementById_list in Q1.
  change (modify (key u) (insertAdjacentElement false el) (document pg))
    with (document pg1) in Q1.
  destruct (bystander_text_step type this te A el x2 (h2 texts) sel e0 _ pg1
              Hst1 Q1 By1) as (u2 & Q2 & K2 & By2).
  { now apply query_in in Hq2. }
  destruct (bystander_text_step type this te A el1 x3 (h3 texts) sel e0 _ _
              Hst2 Q2 By2) as (u3 & Q3 & K3 & By3).
  { cbn [children el1]. now apply query_in in Hq3. }
  cbn [document next_key] in Q3, By3.
  destruct (bystander_text_step type this te A el2 xp (p texts) sel e0 _ _
              Hst3 Q3 By3) as (u4 & Q4 & K4 & By4).
  { cbn [children el2]. now apply query_in in Hqp. }
  cbn [document next_key] in Q4, By4.
  exists u4. split; [exact Q4|]. split; [|exact By4].
  rewrite K4, K3, K2. reflexivity.
Qed.

(** ** Rendering a list *)

Lemma fapp_assoc (A B C : Forest) : fapp (fapp A B) C = fapp A (fapp B C).
Proof.
  induction A as [|k t i x c _ ch _ sib IH]; [reflexivity|].
  cbn [fapp]. now rewrite IH.
Qed.

Lemma fapp_Empty_r (A : Forest) : fapp A Empty = A.
Proof.
  induction A as [|k t i x c _ ch _ sib IH]; [reflexivity|].
  cbn [fapp]. now rewrite IH.
Qed.

Lemma roots_plant (e : Element) (sib : Forest) : roots (plant e sib) = e :: roots sib.
Proof. unfold plant. cbn [roots]. now rewrite plant_eta. Qed.

(** The loop of [renderProjects]: the items are appended to the list in
    the order of the projects. *)
Lemma render_items_spec `{JsRuntime} (type : ListType) (this : Component)
    (te r : Element) (aasignedProjects : list Project.t) (A : Forest) (pg : Page) :
  list_state type this te A pg ->
  item_template te r ->
  Forall (fun prj => Project.id prj <> u16 "single-project") aasignedProjects ->
  exists pg' B,
    render_items this aasignedProjects pg = Ok tt pg'
    /\ list_state type this te (fapp A B) pg'
    /\ map item_texts (roots B)
       = map (fun prj => Some (ProjectItem_renderContent prj)) aasignedProjects
    /\ map eid (roots B)
       = map (fun prj => match Project.id prj with
                         | [] => eid r
                         | _ => Project.id prj
                         end) aasignedProjects
    /\ next_key pg <= next_key pg'
    /\ Forall (fun k => next_key pg <= k) (keys B)
    /\ (forall sel e u,
          getElementById (listId type) (document pg) = Some u ->
          bystander sel e u pg ->
          Forall (fun prj => blind sel r (next_key pg)
                               (match Project.id prj with
                                | [] => eid r
                                | _ => Project.id prj
                                end)) aasignedProjects ->
          exists u', getElementById (listId type) (document pg') = Some u'
                     /\ key u' = key u /\ bystander sel e u' pg')
    /\ (forall sel e,
          query (ByKey (element this)) (document pg) = Some e ->
          query sel (children e) = None ->
          Forall (fun prj => blind sel r (next_key pg)
                               (match Project.id prj with
                                | [] => eid r
                                | _ => Project.id prj
                                end)) aasignedProjects ->
          exists e', query (ByKey (element this)) (document pg') = Some e'
                     /\ key e' = key e /\ query sel (children e') = None).
Proof.
  intros Hst Htmpl Hids. revert A pg Hst.
  induction Hids as [|prj rest Hid Hrest IH]; intros A pg Hst.
  - exists pg, Empty. cbn [render_items roots map keys]. rewrite fapp_Empty_r.
    do 4 (split; [auto|]). split; [lia|]. split; [constructor|].
    split; [intros sel e u Hu Hby _; now exists u|].
    intros sel e He Hc _. now exists e.
  - pose proof Hst as (_ & _ & _ & u & e & Hu & _ & He & Hul).
    assert (Heid : eid u = listId type).
    { rewrite getElementById_list in Hu. now apply query_matches, matches_ById in Hu. }
    destruct (ProjectItem_new_renders type this te r A prj pg Hst Htmpl Hid)
      as (item_c & pg1 & item & Hnew & Hst1 & Htexts & Hi & _ & Hle1 & Hfr1 & Hby1
          & Hsec1).
    destruct (IH _ _ Hst1)
      as (pg' & B & Hrun & Hst' & Hmap & Hmapid & Hle & Hfr & Hby & Hsec).
    exists pg', (plant item B).
    split; [|split; [|split; [|split; [|split; [|split; [|split]]]]]].
    + cbn [render_items]. now rewrite He, Hul, Heid, Hnew.
    + rewrite fapp_assoc in Hst'. exact Hst'.
    + rewrite roots_plant. cbn [map]. now rewrite Htexts, Hmap.
    + rewrite roots_plant. cbn [map]. now rewrite Hi, Hmapid.
    + lia.
    + rewrite keys_plant in *. cbn [keys] in Hfr1. rewrite app_nil_r in Hfr1.
      apply Forall_cons in Hfr1 as [Hk1 Hch1].
      constructor; [exact Hk1|]. apply Forall_app. split; [exact Hch1|].
      eapply Forall_impl; [exact Hfr|]. cbn beta. intros y Hy. lia.
    + intros sel e0 u0 Hu0 Hby0 Hbl. apply Forall_cons in Hbl as [Hbl1 Hbl].
      destruct (Hby1 sel e0 u0 Hu0 Hby0 Hbl1) as (u1 & Hu1 & Hk1 & Hby1').
      destruct (Hby sel e0 u1 Hu1 Hby1') as (u2 & Hu2 & Hk2 & Hby2).
      { eapply Forall_impl; [exact Hbl|]. cbn beta. intros prj0.
        now apply blind_mono. }
      exists u2. split; [exact Hu2|]. split; [congruence | exact Hby2].
    + intros sel e0 He0 Hc0 Hbl. apply Forall_cons in Hbl as [Hbl1 Hbl].
      destruct (Hsec1 sel e0 He0 Hc0 Hbl1) as (e1 & He1 & Hk1 & Hc1).
      destruct (Hsec sel e1 He1 Hc1) as (e2 & He2 & Hk2 & Hc2).
      { eapply Forall_impl; [exact Hbl|]. cbn beta. intros prj0.
        now apply blind_mono. }
      exists e2. split; [exact He2|]. split; [congruence | exact Hc2].
Qed.

(** [renderProjects]: the list is emptied and filled again, what shares
    nothing with it staying as it is. *)
Lemma renderProjects_spec `{JsRuntime} (type : ListType) (this : Component)
    (te r : Element) (items : Forest) (aasignedProjects : list Project.t)
    (pg : Page) :
  list_state type this te items pg ->
  item_template te r ->
  Forall (fun prj => Project.id prj <> u16 "single-project") aasignedProjects ->
  exists pg' listEl,
    ProjectList_renderProjects type this aasignedProjects pg = Ok tt pg'
    /\ getElementById (listId type) (document pg') = Some listEl
    /\ map item_texts (roots (children listEl))
       = map (fun prj => Some (ProjectItem_renderContent prj)) aasignedProjects
    /\ map eid (roots (children listEl))
       = map (fun prj => match Project.id prj with
                         | [] => eid r
                         | _ => Project.id prj
                         end) aasignedProjects
    /\ list_state type this te (children listEl) pg'
    /\ next_key pg <= next_key pg'
    /\ Forall (fun k => next_key pg <= k) (keys (children listEl))
    /\ (forall sel e u,
          getElementById (listId type) (document pg) = Some u ->
          bystander sel e u pg ->
          Forall (fun prj => blind sel r (next_key pg)
                               (match Project.id prj with
                                | [] => eid r
                                | _ => Project.id prj
                                end)) aasignedProjects ->
          key listEl = key u /\ bystander sel e listEl pg')
    /\ (forall sel e,
          query (ByKey (element this)) (document pg) = Some e ->
          query sel (children e) = None ->
          Forall (fun prj => blind sel r (next_key pg)
                               (match Project.id prj with
                                | [] => eid r
                                | _ => Project.id prj
                                end)) aasignedProjects ->
          exists e', query (ByKey (element this)) (document pg') = Some e'
                     /\ key e' = key e /\ query sel (children e') = None).
Proof.
  intros Hst Htmpl Hids.
  pose proof Hst as (Hok & _ & _ & u & e & Hu & _).
  pose proof Htmpl as (_ & Hleaf & _).
  destruct (list_state_edit_list type this te items Empty clear_innerHTML pg u
              (next_key pg) Hst Hleaf Hu shallow_clear_innerHTML) as [Hst0 Hu0].
  { intros e0 _. reflexivity. }
  { reflexivity. }
  { reflexivity. }
  { apply page_ok_shrinking; auto using shallow_clear_innerHTML.
    intros e0. now right. }
  destruct (render_items_spec type this te r aasignedProjects Empty _ Hst0 Htmpl Hids)
    as (pg' & B & Hrun & Hst' & Hmap & Hmapid & Hle & Hfr & Hby & Hsec).
  cbn [fapp] in Hst'. cbn [next_key] in Hle, Hfr.
  pose proof Hst' as (_ & _ & _ & u' & e' & Hu' & Hch' & _).
  exists pg', u'. rewrite Hch'.
  split; [unfold ProjectList_renderProjects; now rewrite Hu|].
  do 6 (split; [auto|]).
  split.
  2:{ intros sel e0 He0 Hc0 Hbl.
      pose proof Hst as (_ & _ & _ & u1 & e1 & Hu1 & _ & He1 & Hul1).
      rewrite Hu in Hu1. injection Hu1 as <-.
      rewrite He1 in He0. injection He0 as <-.
      pose proof Hok as [Hnd _].
      unfold querySelector in Hul1. pose proof (query_in _ _ _ Hul1) as [Huin _].
      destruct (section_edit sel (ByKey (element this)) e1 (key u) clear_innerHTML
                  (document pg) Hnd He1 Huin Hc0) as [S1 N1].
      { apply shallow_keeps, shallow_clear_innerHTML. }
      { intros e2 _. reflexivity. }
      destruct (Hsec sel _ S1 N1 Hbl) as (e2 & He2 & Hk2 & Hc2).
      exists e2. split; [exact He2|]. split; [exact Hk2 | exact Hc2]. }
  intros sel e0 u1 Hu1 Hby1 Hbl. rewrite Hu in Hu1. injection Hu1 as <-.
  pose proof Hok as [Hnd _]. rewrite getElementById_list in Hu.
  destruct (bystander_edit_at sel (ById (listId type)) e0 u clear_innerHTML pg
              (next_key pg) Hnd Hu Hby1) as [Q1 By1].
  { apply shallow_keeps, shallow_clear_innerHTML. }
  { apply shallow_keeps, shallow_clear_innerHTML. }
  { intros e1 _. reflexivity. }
  { reflexivity. }
  { reflexivity. }
  { constructor. }
  rewrite <- getElementById_list in Q1.
  destruct (Hby sel e0 _ Q1 By1 Hbl) as (u2 & Hu2 & Hk2 & Hby2).
  rewrite Hu' in Hu2. injection Hu2 as <-.
  split; [exact Hk2 | exact Hby2].
Qed.

(** X18: [renderProjects] rebuilds the list.  On a page in which the list
    renders (its [ul] is the element found by the list's id, the template
    of the items is in place) and for projects none of which has the id of
    the template, the call returns, and the children of the list are then
    exactly one item per assigned project, in the order of the projects,
    whatever the list held before: each item has the id of its project and
    shows its title, its label of persons and its description.  The page is
    again one in which the list renders. *)
Theorem renderProjects_rebuilds `{JsRuntime} (type : ListType) (this : Component)
    (te r : Element) (items : Forest) (aasignedProjects : list Project.t)
    (pg : Page) :
  list_state type this te items pg ->
  item_template te r ->
  Forall (fun prj => Project.id prj <> u16 "single-project") aasignedProjects ->
  exists pg' listEl,
    ProjectList_renderProjects type this aasignedProjects pg = Ok tt pg'
    /\ getElementById (listId type) (document pg') = Some listEl
    /\ length (roots (children listEl)) = length aasignedProjects
    /\ map item_texts (roots (children listEl))
       = map (fun prj => Some (ProjectItem_renderContent prj)) aasignedProjects
    /\ map eid (roots (children listEl))
       = map (fun prj => match Project.id prj with
                         | [] => eid r
                         | _ => Project.id prj
                         end) aasignedProjects
    /\ list_state type this te (children listEl) pg'.
Proof.
  intros Hst Htmpl Hids.
  pose proof Hst as (Hok & _ & _ & u & e & Hu & _).
  pose proof Htmpl as (_ & Hleaf & _).
  destruct (list_state_edit_list type this te items Empty clear_innerHTML pg u
              (next_key pg) Hst Hleaf Hu shallow_clear_innerHTML) as [Hst0 _].
  { intros e0 _. reflexivity. }
  { reflexivity. }
  { reflexivity. }
  { apply page_ok_shrinking; auto using shallow_clear_innerHTML.
    intros e0. now right. }
  destruct (render_items_spec type this te r aasignedProjects Empty _ Hst0 Htmpl Hids)
    as (pg' & B & Hrun & Hst' & Hmap & Hmapid & _).
  cbn [fapp] in Hst'.
  pose proof Hst' as (_ & _ & _ & u' & e' & Hu' & Hch' & _).
  exists pg', u'. rewrite Hch'.
  split; [unfold ProjectList_renderProjects; now rewrite Hu|].
  split; [exact Hu'|].
  split; [rewrite <- (length_map item_texts), Hmap; apply length_map|].
  auto.
Qed.

Lemma index_html_keys : NoDup (keys (document start_page)).
Proof. refine (bool_decide_unpack _ _); vm_compute; exact I. Qed.

Lemma Component_new_outcome_witness :
  match Component_new (u16 "no-such-template") (u16 "app") true [] start_page with
  | TypeError pg' => document pg' = document start_page
  | Ok _ _ => False
  end
  /\ match Component_new (u16 "single-project") (u16 "app") true (u16 "0.5") start_page with
     | TypeError _ => False
     | Ok this pg' =>
         exists host' el,
           query (ByKey (hostElement this)) (document pg') = Some host'
           /\ roots (children host') = [el]
           /\ element this = key el
           /\ shape (plant el Empty)
              = Tree 0 "li" (u16 "0.5") [] Empty
                  (leaf 0 "h2" [] (leaf 0 "h3" [] (leaf 0 "p" [] Empty))) Empty
     end.
Proof.
  split.
  - pose proof (Component_new_outcome (u16 "no-such-template") (u16 "app") true []
                  start_page index_html_keys) as Hout.
    destruct (Component_new (u16 "no-such-template") (u16 "app") true [] start_page)
      as [this pg'|pg'] eqn:Hc.
    + discriminate Hc.
    + exact (proj1 Hout).
  - pose proof (Component_new_outcome (u16 "single-project") (u16 "app") true
                  (u16 "0.5") start_page index_html_keys) as Hout.
    destruct (Component_new (u16 "single-project") (u16 "app") true (u16 "0.5")
                start_page) as [this pg'|pg'] eqn:Hc.
    + destruct Hout as (te & r & host & host' & el & Hte & _ & Hr & Hhost & _ & Hh
                        & He & _ & _ & _ & Hshape & _ & _ & _ & Hq & Hroots).
      injection Hte as <-. injection Hr as <-. injection Hhost as <-.
      exists host', el. rewrite Hh.
      split; [exact Hq|]. split; [exact Hroots|]. split; [exact He | exact Hshape].
    + discriminate Hc.
Defined.

Lemma index_item_template : item_template item_te item_li.
Proof.
  unfold item_template, leaf_at. repeat split; try discriminate.
  - eexists. split; reflexivity.
  - eexists. split; reflexivity.
  - eexists. split; reflexivity.
Qed.

Lemma lists_page_state :
  list_state active (component_of active_list) item_te Empty lists_page.
Proof.
  unfold list_state, page_ok. repeat split.
  - refine (bool_decide_unpack _ _); vm_compute; exact I.
  - refine (bool_decide_unpack _ _); vm_compute; exact I.
  - eexists _, _. repeat split; vm_compute; reflexivity.
Qed.

Lemma renderProjects_rebuilds_witness :
  let assigned := [Project.mk (u16 "0.25") (u16 "Build API") (u16 "Design the service")
                     (of_Z 3) Active;
                   Project.mk (u16 "0.75") (u16 "Write docs") (u16 "Explain the service")
                     (of_Z 1) Active] in
  exists pg' listEl,
    @ProjectList_renderProjects example_runtime active (component_of active_list)
      assigned lists_page = Ok tt pg'
    /\ getElementById (listId active) (document pg') = Some listEl
    /\ length (roots (children listEl)) = 2.
Proof.
  intros assigned.
  destruct (@renderProjects_rebuilds example_runtime active (component_of active_list)
              item_te item_li Empty assigned lists_page
              lists_page_state index_item_template)
    as (pg' & listEl & Hrun & Hl & Hlen & _).
  - repeat constructor; discriminate.
  - exists pg', listEl. auto.
Defined.

(** ** Constructing a list *)

Lemma keys_modify_same (k : nat) (f : Element -> Element) (F : Forest) :
  (forall e, key (f e) = key e /\ children (f e) = children e) ->
  keys (modify k f F) = keys F.
Proof.
  intros Hf. induction F as [|k' t i x c _ ch IHch sib IHsib]; [reflexivity|].
  cbn [modify]. destruct (k' =? k).
  - rewrite keys_plant. destruct (Hf (mkElement k' t i x c ch)) as [-> ->].
    cbn [key children keys]. now rewrite IHsib.
  - cbn [keys]. now rewrite IHch, IHsib.
Qed.

Lemma query_none_key (k : nat) (F : Forest) :
  query (ByKey k) F = None -> k ∉ keys F.
Proof.
  intros Hq Hin. destruct (query_key_in k F Hin) as (u & Hu). congruence.
Qed.

(** The element just attached is reached through its reference. *)
Lemma query_new_child (sel : Selector) (F : Forest) (host el : Element) (b : bool) :
  NoDup (keys F) ->
  NoDup (keys (modify (key host) (insertAdjacentElement b el) F)) ->
  query sel F = Some host ->
  key el ∉ keys (children host) ->
  query (ByKey (key el)) (modify (key host) (insertAdjacentElement b el) F) = Some el.
Proof.
  intros Hnd Hnd' Hq Hfresh.
  pose proof (query_by_key _ _ _ Hq Hnd) as Hk.
  pose proof (query_modify_at (ByKey (key host)) (insertAdjacentElement b el) F host
                Hk Hnd (fun e => eq_refl)) as Hhost'.
  apply (query_by_key_inside _ _ _ _ Hhost' Hnd').
  unfold insertAdjacentElement. cbn [children]. destruct b.
  - rewrite query_plant. cbn [matches]. now rewrite Nat.eqb_refl.
  - rewrite query_fapp, (query_key_notin _ _ Hfresh), query_plant. cbn [matches].
    now rewrite Nat.eqb_refl.
Qed.

(** Giving an id to an element: no element gets another id by it. *)
Lemma query_relabel_none (i j : jsstring) (k : nat) (F : Forest) :
  query (ById j) F = None -> i <> j ->
  query (ById j) (modify k (set_id i) F) = None.
Proof.
  intros Hq Hij.
  induction F as [|k' t i' x c _ ch IHch sib IHsib]; [reflexivity|].
  cbn [query] in Hq.
  destruct (matches (ById j) (mkElement k' t i' x c ch)) eqn:Hm; [discriminate|].
  destruct (query (ById j) ch) eqn:Hch; [discriminate|].
  cbn [modify]. destruct (k' =? k).
  - rewrite query_plant. cbn [matches set_id eid children].
    rewrite (jsstring_eqb_neq i j Hij), Hch. now apply IHsib.
  - cbn [query]. rewrite (matches_children (ById j) k' t i' x c ch), Hm.
    rewrite (IHch eq_refl). now apply IHsib.
Qed.

(** The element found by another id is found as before, with the change
    made among its children. *)
Lemma query_relabel_other (i j : jsstring) (k : nat) (F : Forest) (e : Element) :
  query (ById j) F = Some e -> NoDup (keys F) -> i <> j -> k <> key e ->
  query (ById j) (modify k (set_id i) F)
  = Some (mkElement (key e) (tag e) (eid e) (text e) (content e)
            (modify k (set_id i) (children e))).
Proof.
  intros Hq Hnd Hij Hne.
  induction F as [|k' t i' x c _ ch IHch sib IHsib]; [discriminate|].
  cbn [query keys] in Hq, Hnd.
  apply NoDup_tree in Hnd as (Hk1 & Hk2 & Hnd1 & Hnd2 & Hdisj).
  cbn [modify]. destruct (matches (ById j) (mkElement k' t i' x c ch)) eqn:Hm.
  - injection Hq as <-. cbn [key tag eid text content children] in *.
    destruct (Nat.eqb_spec k' k) as [Heq|_]; [congruence|].
    cbn [query]. now rewrite (matches_children (ById j) k' t i' x c ch), Hm.
  - destruct (Nat.eqb_spec k' k) as [Heq|Hk'].
    + subst k'. rewrite query_plant. cbn [matches set_id eid children].
      rewrite (jsstring_eqb_neq i j Hij), (modify_notin k _ sib Hk2).
      destruct (query (ById j) ch) as [r|] eqn:Hch.
      * injection Hq as ->. pose proof (query_in _ _ _ Hch) as [_ Hsub].
        rewrite modify_notin; [now rewrite plant_eta|].
        intros Hc. apply Hsub in Hc. contradiction.
      * rewrite Hq. pose proof (query_in _ _ _ Hq) as [_ Hsub].
        rewrite modify_notin; [now rewrite plant_eta|].
        intros Hc. apply Hsub in Hc. contradiction.
    + cbn [query]. rewrite (matches_children (ById j) k' t i' x c ch), Hm.
      destruct (query (ById j) ch) as [r|] eqn:Hch.
      * injection Hq as ->. now rewrite (IHch eq_refl Hnd1).
      * rewrite (query_relabel_none i j k ch Hch Hij). now apply IHsib.
Qed.

(** The element that is given an id not yet in the forest is then the one
    found by that id. *)
Lemma query_relabel_new (i : jsstring) (k : nat) (F : Forest) (x : Element) :
  query (ById i) F = None -> query (ByKey k) F = Some x ->
  query (ById i) (modify k (set_id i) F) = Some (set_id i x).
Proof.
  intros Hq Hx.
  induction F as [|k' t i' y c _ ch IHch sib IHsib]; [discriminate|].
  cbn [query] in Hq.
  destruct (matches (ById i) (mkElement k' t i' y c ch)) eqn:Hm; [discriminate|].
  destruct (query (ById i) ch) eqn:Hch; [discriminate|].
  cbn [query matches key] in Hx. cbn [modify].
  destruct (Nat.eqb_spec k' k) as [Heq|Hk'].
  - injection Hx as <-. rewrite query_plant. cbn [matches set_id eid].
    now rewrite jsstring_eqb_refl.
  - cbn [query]. rewrite (matches_children (ById i) k' t i' y c ch), Hm.
    destruct (query (ByKey k) ch) as [r|] eqn:Hkch.
    + injection Hx as ->. now rewrite (IHch eq_refl eq_refl).
    + rewrite (modify_notin k _ ch (query_none_key _ _ Hkch)), Hch.
      now apply IHsib.
Qed.

Lemma element_eta (e : Element) (F : Forest) :
  children e = F ->
  mkElement (key e) (tag e) (eid e) (text e) (content e) F = e.
Proof. intros <-. now destruct e. Qed.

(** X19: the constructor of a list.  On a page whose keys are in order,
    where the template of the lists is as the program expects it, the host
    and the template of the items are found, the template of the items is
    not under the host, and no element has the id of the list yet,
    [new ProjectList(type)] returns.  The element it attaches has the id
    [type-projects]; its heading shows the type in upper case followed by
    [Projects], with nothing in between; and its [ul] is now the element
    found by the id of the list, still empty: the page is one in which the
    list renders. *)
Theorem ProjectList_new_renders (type : ListType) (pg : Page)
    (tl rl app te : Element) :
  page_ok pg ->
  getElementById (u16 "project-list") (document pg) = Some tl ->
  list_template tl rl ->
  getElementById (u16 "app") (document pg) = Some app ->
  getElementById (u16 "single-project") (document pg) = Some te ->
  children te = Empty ->
  query (ById (u16 "single-project")) (children app) = None ->
  getElementById (listId type) (document pg) = None ->
  exists this pg' section heading,
    ProjectList_new type pg = Ok this pg'
    /\ list_state type this te Empty pg'
    /\ query (ByKey (element this)) (document pg') = Some section
    /\ eid section = type_string type ++ u16 "-projects"
    /\ querySelector (ByTag "h2") section = Some heading
    /\ text heading = toUpperCase (type_string type) ++ u16 "Projects".
Proof.
  intros Hok Htl (Htag & Hrl & Lul & Lh2 & Hrl_item & Hrl_list) Happ Hte Hleaf
    Happ_item Hfree.
  unfold ProjectList_new.
  set (sid := type_string type ++ u16 "-projects").
  destruct (Component_new_ok (u16 "project-list") (u16 "app") false sid pg tl rl app
              Htl Htag Hrl Happ)
    as (el & n1 & Hcomp & Hk & Ht & _ & Hi & Hch & Hn1 & Hnext & _).
  assert (Hi' : eid el = sid) by (destruct type; exact Hi).
  clear Hi.
  pose proof Hok as [Hnd Hlt]. rewrite Forall_forall in Hlt.
  change (query (ById (u16 "app")) (document pg) = Some app) in Happ.
  change (query (ById (u16 "project-list")) (document pg) = Some tl) in Htl.
  rewrite getElementById_template in Hte. rewrite getElementById_list in Hfree.
  set (next := (clone (next_key pg) (content tl)).2) in *.
  pose proof (query_in _ _ _ Happ) as [Happin Happsub].
  pose proof (query_in _ _ _ Hte) as [Htein _].
  destruct (page_ok_insert pg app el rl false n1 next Hok Happin Hk Hch Hn1 Hnext)
    as (Hok1 & Hndel & Hrange).
  rewrite Forall_forall in Hrange.
  set (doc1 := modify (key app) (insertAdjacentElement false el) (document pg)) in *.
  pose proof Hok1 as [Hnd1 Hlt1]. cbn [document next_key] in Hnd1, Hlt1.
  (* the element attached *)
  assert (Hndch : NoDup (keys (children el))).
  { rewrite keys_plant in Hndel. cbn [keys] in Hndel. rewrite app_nil_r in Hndel.
    now apply NoDup_cons in Hndel as [_ ?]. }
  assert (Hnew : forall k, k ∈ keys (children el) -> next_key pg <= k).
  { intros k Hkin. apply Hrange. rewrite keys_plant. apply elem_of_cons. right.
    apply elem_of_app. now left. }
  assert (Lul' : leaf_at (ByTag "ul") (children el))
    by (rewrite Hch; apply clone_leaf; [discriminate | exact Lul]).
  assert (Lh2' : leaf_at (ByTag "h2") (children el))
    by (rewrite Hch; apply clone_leaf; [discriminate | exact Lh2]).
  destruct Lul' as (ul & Hul & Hulleaf). destruct Lh2' as (h & Hh & Hhleaf).
  assert (Hel_item : query (ById (u16 "single-project")) (children el) = None).
  { rewrite Hch.
    pose proof (clone_query (ById (u16 "single-project")) (children rl) n1) as Hq.
    rewrite Hrl_item in Hq. apply Hq. intros k. discriminate. }
  assert (Hel_list : query (ById (listId type)) (children el) = None).
  { rewrite Hch.
    pose proof (clone_query (ById (listId type)) (children rl) n1) as Hq.
    rewrite (Hrl_list type) in Hq. apply Hq. intros k. discriminate. }
  assert (Hel_nomatch_item : matches (ById (u16 "single-project")) el = false).
  { cbn [matches]. apply jsstring_eqb_neq. rewrite Hi'. destruct type; discriminate. }
  assert (Hel_nomatch_list : matches (ById (listId type)) el = false).
  { cbn [matches]. apply jsstring_eqb_neq. rewrite Hi'. destruct type; discriminate. }
  (* after the element is attached *)
  assert (A_el : query (ByKey (key el)) doc1 = Some el).
  { apply (query_new_child (ById (u16 "app"))); auto.
    intros Hc. apply Happsub, Hlt in Hc. lia. }
  assert (A_te : query (ById (u16 "single-project")) doc1 = Some te).
  { apply query_modify_other; auto.
    - intros Heq. pose proof (query_by_key _ _ _ Hte Hnd) as H1.
      pose proof (query_by_key _ _ _ Happ Hnd) as H2.
      rewrite <- Heq, H2 in H1. injection H1 as ->.
      apply query_matches, matches_ById in Hte.
      apply query_matches, matches_ById in Happ. rewrite Hte in Happ. discriminate.
    - rewrite Hleaf. apply not_elem_of_nil.
    - intros u Hu. rewrite (query_by_key _ _ _ Happ Hnd) in Hu. injection Hu as <-.
      exact Happ_item.
    - apply shallow_keeps, shallow_insert.
    - intros e He. cbn [insertAdjacentElement children].
      now rewrite query_fapp, He, query_plant, Hel_nomatch_item, Hel_item. }
  assert (A_list : query (ById (listId type)) doc1 = None).
  { apply query_modify_none; auto.
    - apply shallow_keeps, shallow_insert.
    - intros e He. cbn [insertAdjacentElement children].
      now rewrite query_fapp, He, query_plant, Hel_nomatch_list, Hel_list. }
  (* after the id of the list is set *)
  pose proof (query_in _ _ _ Hul) as [Hulin _].
  pose proof (query_in _ _ _ Hh) as [Hhin _].
  pose proof (query_by_key _ _ _ Hul Hndch) as Hulk.
  pose proof (query_by_key _ _ _ Hh Hndch) as Hhk.
  pose proof (query_by_key_inside _ _ _ _ A_el Hnd1 Hulk) as A_ul.
  set (f := set_id (listId type)).
  set (doc2 := modify (key ul) f doc1).
  assert (Hsame : forall e, key (f e) = key e /\ children (f e) = children e)
    by (intros e; split; reflexivity).
  assert (Hkeys2 : keys doc2 = keys doc1) by now apply keys_modify_same.
  assert (Hnd2 : NoDup (keys doc2)) by now rewrite Hkeys2.
  set (B2 := modify (key ul) f (children el)).
  set (el2 := mkElement (key el) (tag el) (eid el) (text el) (content el) B2).
  assert (B_el : query (ByKey (key el)) doc2 = Some el2)
    by now apply query_modify_inside.
  assert (HkeysB2 : keys B2 = keys (children el)) by now apply keys_modify_same.
  assert (HndB2 : NoDup (keys B2)) by now rewrite HkeysB2.
  assert (B_ul : query (ByTag "ul") B2 = Some (f ul)).
  { apply query_modify_at; auto. intros e. reflexivity. }
  assert (Hne_tag : key ul <> key h).
  { intros Heq. rewrite Heq, Hhk in Hulk. injection Hulk as ->.
    apply tag_of_query in Hul, Hh. rewrite Hul in Hh. discriminate. }
  assert (B_h : query (ByTag "h2") B2 = Some h).
  { apply query_modify_other; auto.
    - rewrite Hhleaf. apply not_elem_of_nil.
    - intros u Hu. rewrite Hulk in Hu. injection Hu as <-. now rewrite Hulleaf.
    - intros e. reflexivity.
    - intros e He. exact He. }
  assert (Hul_te : key ul <> key te).
  { apply Hnew in Hulin. apply Hlt in Htein. lia. }
  assert (Hh_te : key h <> key te).
  { apply Hnew in Hhin. apply Hlt in Htein. lia. }
  assert (B_te : query (ById (u16 "single-project")) doc2 = Some te).
  { unfold doc2, f.
    rewrite (query_relabel_other (listId type) _ (key ul) doc1 te A_te Hnd1
               (listId_not_template type) Hul_te).
    rewrite Hleaf. cbn [modify]. now rewrite element_eta. }
  assert (B_list : query (ById (listId type)) doc2 = Some (f ul))
    by now apply query_relabel_new.
  (* after the text of the heading is set *)
  set (s := toUpperCase (type_string type) ++ u16 "Projects").
  set (g := set_textContent s).
  set (doc3 := modify (key h) g doc2).
  assert (Sg : shallow g) by apply shallow_set_textContent.
  assert (Rg : shrinking g) by apply shrinking_set_textContent.
  assert (B_hk : query (ByKey (key h)) doc2 = Some h).
  { apply (query_by_key_inside _ _ _ _ B_el Hnd2). cbn [children el2].
    apply (query_by_key _ _ _ B_h HndB2). }
  assert (Hok3 : page_ok (mkPage doc3 next)).
  { apply (page_ok_shrinking (key h) g (mkPage doc2 next) Sg Rg).
    split; cbn [document next_key]; rewrite Hkeys2; assumption. }
  set (B3 := modify (key h) g B2).
  set (el3 := mkElement (key el) (tag el) (eid el) (text el) (content el) B3).
  assert (HhinB2 : key h ∈ keys B2) by now rewrite HkeysB2.
  pose proof (query_modify_inside (ByKey (key el)) (key h) g doc2 el2 B_el Hnd2 HhinB2)
    as C_el.
  cbn [key tag eid text content children el2] in C_el. fold B3 el3 doc3 in C_el.
  assert (C_h : query (ByTag "h2") B3 = Some (g h)).
  { apply query_modify_at; auto. now apply shallow_keeps. }
  assert (C_ul : query (ByTag "ul") B3 = Some (f ul)).
  { apply (query_other_leaf (ByTag "h2") (ByTag "ul") g B2 h (f ul)); auto.
    cbn [matches]. now rewrite (tag_of_query _ _ _ Hh). }
  assert (Hout : forall sel u, query (ByKey (key h)) doc2 = Some u ->
                   query sel (children u) = None).
  { intros sel u Hu. rewrite B_hk in Hu. injection Hu as <-. now rewrite Hhleaf. }
  assert (C_te : query (ById (u16 "single-project")) doc3 = Some te).
  { apply query_modify_other; auto.
    - rewrite Hleaf. apply not_elem_of_nil.
    - now apply shallow_keeps.
    - now apply shrinking_no_new. }
  assert (C_list : query (ById (listId type)) doc3 = Some (f ul)).
  { apply query_modify_other; auto.
    - cbn [f set_id children]. rewrite Hulleaf. apply not_elem_of_nil.
    - now apply shallow_keeps.
    - now apply shrinking_no_new. }
  exists (mkComponent (key tl) (key app) (next_key pg)), (mkPage doc3 next), el3, (g h).
  split.
  { rewrite Hcomp. fold doc1. unfold ProjectList_renderContent.
    cbn [element document next_key]. rewrite <- Hk, A_el. unfold querySelector.
    rewrite Hul. unfold set_descendant_text. cbn [document next_key].
    fold f doc2. rewrite B_el. unfold querySelector. cbn [children el2].
    rewrite B_h. reflexivity. }
  cbn [element document]. rewrite <- Hk.
  split; [|split; [exact C_el | split; [exact Hi' | split; [exact C_h | reflexivity]]]].
  split; [exact Hok3|]. cbn [document].
  split; [now rewrite getElementById_template|].
  split; [reflexivity|].
  exists (f ul), el3.
  split; [now rewrite getElementById_list|].
  split; [exact Hulleaf|]. split; [exact C_el | exact C_ul].
Qed.

Lemma start_page_ok : page_ok start_page.
Proof.
  split; refine (bool_decide_unpack _ _); vm_compute; exact I.
Qed.

Lemma ProjectList_new_renders_witness :
  exists this pg' section heading,
    ProjectList_new active start_page = Ok this pg'
    /\ query (ByKey (element this)) (document pg') = Some section
    /\ eid section = u16 "active-projects"
    /\ querySelector (ByTag "h2") section = Some heading
    /\ text heading = u16 "ACTIVEProjects".
Proof.
  destruct (ProjectList_new_renders active start_page
              (mkElement 2 "template" (u16 "project-list") []
                 (Tree 0 "section" [] [] Empty
                    (Tree 0 "header" [] [] Empty (leaf 0 "h2" [] Empty)
                    (leaf 0 "ul" [] Empty))
                    Empty)
                 Empty)
              (mkElement 0 "section" [] [] Empty
                 (Tree 0 "header" [] [] Empty (leaf 0 "h2" [] Empty)
                    (leaf 0 "ul" [] Empty)))
              (mkElement 3 "div" (u16 "app") [] Empty Empty)
              item_te)
    as (this & pg' & section & heading & Hnew & _ & Hq & Hid & Hh & Ht).
  - exact start_page_ok.
  - reflexivity.
  - unfold list_template, leaf_at. split; [reflexivity|]. split; [reflexivity|].
    split; [eexists; split; reflexivity|]. split; [eexists; split; reflexivity|].
    split; [reflexivity|]. intros []; reflexivity.
  - reflexivity.
  - reflexivity.
  - reflexivity.
  - reflexivity.
  - reflexivity.
  - exists this, pg', section, heading. auto.
Defined.

(** ** The two lists and the store *)

Lemma view_relevant (type : ListType) (w : World) (items : list loc) :
  view w (relevantProjects type (heap w) items)
  = List.filter (isRelevant type) (view w items).
Proof.
  unfold view, relevantProjects.
  induction items as [|o items IH]; [reflexivity|].
  cbn [List.filter omap list_omap].
  destruct (objs (heap w) !! o) as [prj|] eqn:Ho.
  - cbn [List.filter]. destruct (isRelevant type prj).
    + cbn [omap list_omap]. rewrite Ho. cbn. now rewrite <- IH.
    + exact IH.
  - exact IH.
Qed.

Lemma Forall_filter_list {A} (P : A -> Prop) (f : A -> bool) (l : list A) :
  Forall P l -> Forall P (List.filter f l).
Proof.
  intros Hl. induction Hl as [|x l Hx Hl IH]; [constructor|].
  cbn [List.filter]. destruct (f x); [now constructor | exact IH].
Qed.

(** One invocation of the callback of a list on a copy of the store's
    array. *)
Lemma ProjectList_invoke `{JsRuntime} (ps : loc) (type : ListType)
    (this : Component) (w : World) :
  owns ps w ->
  let f := ProjectList_listener type this in
  let r := invoke f (slice ps w).1 (slice ps w).2 in
  let relevant := relevantProjects type (heap w) (elements ps w) in
  let rendered :=
    ProjectList_renderProjects type this (view w relevant) (page (heap w)) in
  owns ps r.1
  /\ elements ps r.1 = elements ps w
  /\ objs (heap r.1) = objs (heap w)
  /\ arrs (heap r.1) = arrs (heap w) ++ [elements ps w; relevant]
  /\ page (heap r.1) = page_of rendered
  /\ r.2 = match rendered with Ok _ _ => Normal | TypeError _ => Throw end
  /\ calls r.1 = calls w ++ [mkCall f (length (arrs (heap w))) (elements ps w)].
Proof.
  intros Hok. cbn zeta.
  destruct (invoke_slice_spec ps (ProjectList_listener type this) w Hok)
    as (Hfr & Hcalls & _). cbn zeta in Hfr, Hcalls.
  split; [apply Hfr|]. split; [apply Hfr|]. revert Hcalls. clear Hfr.
  unfold invoke, slice, ProjectList_listener.
  cbn [fst snd heap objs arrs page set_arrs set_heap].
  rewrite list_lookup_middle by reflexivity. cbn [default].
  change (omap (fun prjItem => objs (heap w) !! prjItem)
            (relevantProjects type
               (mkHeap (objs (heap w)) (arrs (heap w) ++ [elements ps w])
                  (page (heap w))) (elements ps w)))
    with (view w (relevantProjects type (heap w) (elements ps w))).
  change (relevantProjects type
            (mkHeap (objs (heap w)) (arrs (heap w) ++ [elements ps w])
               (page (heap w))) (elements ps w))
    with (relevantProjects type (heap w) (elements ps w)).
  destruct (ProjectList_renderProjects type this _ (page (heap w))) as [[] pg'|pg'];
    cbn [effects outcome foldl mutate fst snd heap objs arrs page set_arrs set_heap
         set_page add_call add_outside page_of];
    intros Hcalls; (repeat split; [now rewrite <- app_assoc | exact Hcalls]).
Qed.

Lemma blind_usable (type : ListType) (r : Element) (n : nat) (prj : Project.t) :
  usable_id (Project.id prj) ->
  query (ById (listId type)) (children r) = None ->
  blind (ById (listId type)) r n
    (match Project.id prj with
     | [] => eid r
     | _ => Project.id prj
     end).
Proof.
  intros (Hne & _ & Hl) Hr. apply blind_ById; [|exact Hr].
  destruct (Project.id prj) eqn:E; [contradiction | apply Hl].
Qed.

Lemma relevantProjects_objs (type : ListType) (h h' : Heap) (items : list loc) :
  objs h' = objs h -> relevantProjects type h' items = relevantProjects type h items.
Proof. intros Ho. unfold relevantProjects. now rewrite Ho. Qed.

Lemma view_objs (w w' : World) (items : list loc) :
  objs (heap w') = objs (heap w) -> view w' items = view w items.
Proof. intros Ho. unfold view. now rewrite Ho. Qed.

Lemma usable_ids (r : Element) (l : list Project.t) :
  Forall (fun prj => usable_id (Project.id prj)) l ->
  map (fun prj => match Project.id prj with
                  | [] => eid r
                  | _ => Project.id prj
                  end) l = map Project.id l.
Proof.
  intros Hl. induction Hl as [|prj l (Hne & _) Hl IH]; [reflexivity|].
  cbn [map]. rewrite IH. destruct (Project.id prj); [contradiction | reflexivity].
Qed.

Lemma key_of_query (k : nat) (F : Forest) (e : Element) :
  query (ByKey k) F = Some e -> key e = k.
Proof.
  intros Hq. apply query_matches in Hq. cbn [matches] in Hq.
  now apply Nat.eqb_eq in Hq.
Qed.

(** Rendering the two lists one after the other, on a page in which both
    can render: both calls return, each list shows its projects, and the
    page is again one in which both can render. *)
Lemma render_both `{JsRuntime} (thisA thisB : Component) (te r : Element)
    (PA PB : list Project.t) (pg : Page) :
  lists_state thisA thisB te pg ->
  item_template te r ->
  (forall type, query (ById (listId type)) (children r) = None) ->
  Forall (fun prj => usable_id (Project.id prj)) PA ->
  Forall (fun prj => usable_id (Project.id prj)) PB ->
  exists pg1 pg2 ulA ulB,
    ProjectList_renderProjects active thisA PA pg = Ok tt pg1
    /\ ProjectList_renderProjects finished thisB PB pg1 = Ok tt pg2
    /\ getElementById (listId active) (document pg2) = Some ulA
    /\ map item_texts (roots (children ulA))
       = map (fun prj => Some (ProjectItem_renderContent prj)) PA
    /\ map eid (roots (children ulA)) = map Project.id PA
    /\ getElementById (listId finished) (document pg2) = Some ulB
    /\ map item_texts (roots (children ulB))
       = map (fun prj => Some (ProjectItem_renderContent prj)) PB
    /\ map eid (roots (children ulB)) = map Project.id PB
    /\ lists_state thisA thisB te pg2.
Proof.
  intros (itemsA & itemsB & HA & HB & HcA & HcB & HapA & HapB) Htmpl Hrl HPA HPB.
  pose proof HA as (Hok & Hte & HcleanA & ulA & eA & HulA & HitA & HeA & HqA).
  pose proof HB as (_ & _ & HcleanB & ulB & eB & HulB & HitB & HeB & HqB).
  pose proof Hok as [Hnd Hlt]. rewrite Forall_forall in Hlt.
  pose proof (HapA ulA eB HulA HeB) as DA.
  pose proof (HapB ulB eA HulB HeA) as DB.
  rewrite getElementById_list in HulA, HulB.
  unfold querySelector in HqA, HqB.
  pose proof (query_in _ _ _ HqB) as [HulB_in HulB_sub].
  pose proof (query_in _ _ _ HulA) as [HulA_doc HulA_docsub].
  pose proof (query_in _ _ _ HulB) as [HulB_doc HulB_docsub].
  pose proof (query_in _ _ _ HeA) as [HeA_doc HeA_docsub].
  pose proof (query_in _ _ _ HeB) as [HeB_doc HeB_docsub].
  pose proof (key_of_query _ _ _ HeA) as HeAk.
  pose proof (key_of_query _ _ _ HeB) as HeBk.
  assert (DA' : Forall (fun k => k ∉ key ulB :: keys (children ulB))
                  (key ulA :: keys (children ulA))).
  { eapply Forall_impl; [exact DA|]. cbn beta. intros y Hy Hin. apply Hy. right.
    apply elem_of_cons in Hin as [->|Hin]; [exact HulB_in | now apply HulB_sub]. }
  assert (By1 : bystander (ById (listId finished)) ulB ulA pg).
  { split; [exact HulB|]. split; [now rewrite HitA | exact DA']. }
  assert (By2 : bystander (ByKey (element thisB)) eB ulA pg).
  { split; [exact HeB|]. split; [|exact DA].
    apply query_key_notin. rewrite <- HeBk. intros Hin.
    pose proof DA as DAc.
    apply Forall_cons in DAc as [_ DAc]. rewrite Forall_forall in DAc.
    apply (DAc _ Hin). now left. }
  assert (HidA : Forall (fun prj => Project.id prj <> u16 "single-project") PA).
  { eapply Forall_impl; [exact HPA|]. cbn beta. now intros prj (_ & ? & _). }
  assert (HidB : Forall (fun prj => Project.id prj <> u16 "single-project") PB).
  { eapply Forall_impl; [exact HPB|]. cbn beta. now intros prj (_ & ? & _). }
  assert (HblA : forall type, Forall (fun prj => blind (ById (listId type)) r (next_key pg)
                                 (match Project.id prj with
                                  | [] => eid r
                                  | _ => Project.id prj
                                  end)) PA).
  { intros type. eapply Forall_impl; [exact HPA|]. cbn beta. intros prj Hprj.
    now apply blind_usable. }
  assert (Hold : forall (P : list Project.t) n y, y < n ->
            Forall (fun prj => blind (ByKey y) r n
                                 (match Project.id prj with
                                  | [] => eid r
                                  | _ => Project.id prj
                                  end)) P).
  { intros P n y Hy. apply Forall_forall. intros prj _. now apply blind_ByKey. }
  (* the first list is rendered *)
  destruct (renderProjects_spec active thisA te r itemsA PA pg HA Htmpl HidA)
    as (pg1 & lA & HrunA & HlA & HtextsA & HeidA & HstA1 & Hle1 & HfrA & HbyA & HsecA).
  rewrite <- getElementById_list in HulA.
  destruct (HbyA _ _ _ HulA By1 (HblA finished)) as [HkA (HulB1 & HcB1 & _)].
  destruct (HbyA _ _ _ HulA By2) as [_ (HeB1 & _ & _)].
  { apply Hold. rewrite <- HeBk. now apply Hlt. }
  pose proof HstA1 as (Hok1 & Hte1 & HcleanA1 & lA' & eA1 & HlA' & HitA1 & HeA1 & HqA1).
  rewrite HlA in HlA'. injection HlA' as <-.
  pose proof Hok1 as [Hnd1 Hlt1]. rewrite Forall_forall in Hlt1.
  rewrite Forall_forall in HfrA.
  assert (HsecA1 : forall y, y < next_key pg -> y ∉ keys (children eA) ->
                     (y ∉ keys (children eA1)) /\ key eA1 = key eA).
  { intros y Hy Hnin.
    destruct (HsecA (ByKey y) eA HeA (query_key_notin _ _ Hnin) (Hold _ _ _ Hy))
      as (e' & He' & Hk' & Hc').
    rewrite HeA1 in He'. injection He' as <-.
    split; [now apply query_none_key | exact Hk']. }
  assert (DB1 : Forall (fun k => k ∉ key eA1 :: keys (children eA1))
                  (key ulB :: keys (children ulB))).
  { rewrite Forall_forall in DB. apply Forall_forall. intros y Hy.
    assert (Hydoc : y ∈ keys (document pg)).
    { apply elem_of_cons in Hy as [->|Hy]; auto. }
    specialize (DB y Hy).
    destruct (HsecA1 y (Hlt _ Hydoc)) as [Hnin Hk].
    { intros Hin. apply DB. now right. }
    rewrite not_elem_of_cons. split; [|exact Hnin].
    rewrite Hk. intros ->. apply DB. now left. }
  assert (HB1 : list_state finished thisB te itemsB pg1).
  { split; [exact Hok1|]. split; [exact Hte1|]. split; [exact HcleanB|].
    exists ulB, eB. rewrite getElementById_list. auto. }
  (* the second list is rendered *)
  destruct (renderProjects_spec finished thisB te r itemsB PB pg1 HB1 Htmpl HidB)
    as (pg2 & lB & HrunB & HlB & HtextsB & HeidB & HstB2 & Hle2 & HfrB & HbyB & HsecB).
  rewrite Forall_forall in HfrB.
  rewrite getElementById_list in HlA.
  pose proof (query_in _ _ _ HlA) as [HlA_doc HlA_docsub].
  pose proof (query_in _ _ _ HeA1) as [HeA1_doc HeA1_docsub].
  assert (By3 : bystander (ById (listId active)) lA ulB pg1).
  { split; [exact HlA|]. split; [now rewrite HitB|].
    apply Forall_forall. intros y Hy Hin.
    assert (Hydoc : y ∈ keys (document pg)).
    { apply elem_of_cons in Hy as [->|Hy]; auto. }
    apply Hlt in Hydoc.
    apply elem_of_cons in Hin as [->|Hin].
    - rewrite HkA in Hy. apply Forall_cons in DA' as [DA' _]. contradiction.
    - apply HfrA in Hin. lia. }
  assert (By4 : bystander (ByKey (element thisA)) eA1 ulB pg1).
  { split; [exact HeA1|]. split; [|exact DB1].
    apply query_key_notin. rewrite <- (key_of_query _ _ _ HeA1). intros Hin.
    pose proof DB1 as DBc.
    apply Forall_cons in DBc as [_ DBc]. rewrite Forall_forall in DBc.
    apply (DBc _ Hin). now left. }
  assert (HulB1' : getElementById (listId finished) (document pg1) = Some ulB)
    by now rewrite getElementById_list.
  destruct (HbyB _ _ _ HulB1' By3) as [HkB (HlA2 & HcA2 & _)].
  { eapply Forall_impl; [exact HPB|]. cbn beta. intros prj Hprj.
    now apply blind_usable. }
  destruct (HbyB _ _ _ HulB1' By4) as [_ (HeA2 & _ & _)].
  { apply Hold. rewrite <- (key_of_query _ _ _ HeA1). now apply Hlt1. }
  pose proof HstB2 as (Hok2 & Hte2 & _ & lB' & eB2 & HlB' & _ & HeB2 & _).
  rewrite HlB in HlB'. injection HlB' as <-.
  assert (HsecB2 : forall y, y < next_key pg1 -> y ∉ keys (children eB) ->
                     (y ∉ keys (children eB2)) /\ key eB2 = key eB).
  { intros y Hy Hnin.
    destruct (HsecB (ByKey y) eB HeB1 (query_key_notin _ _ Hnin) (Hold _ _ _ Hy))
      as (e' & He' & Hk' & Hc').
    rewrite HeB2 in He'. injection He' as <-.
    split; [now apply query_none_key | exact Hk']. }
  exists pg1, pg2, lA, lB.
  split; [exact HrunA|]. split; [exact HrunB|].
  split; [now rewrite getElementById_list|]. split; [exact HtextsA|].
  split; [now rewrite HeidA, usable_ids|].
  split; [exact HlB|]. split; [exact HtextsB|].
  split; [now rewrite HeidB, usable_ids|].
  exists (children lA), (children lB).
  split.
  { split; [exact Hok2|]. split; [exact Hte2|]. split; [exact HcleanA1|].
    exists lA, eA1. rewrite getElementById_list. auto. }
  split; [exact HstB2|]. split; [exact HcB1|]. split; [exact HcA2|].
  split.
  - intros ul e Hul He. rewrite getElementById_list, HlA2 in Hul.
    injection Hul as <-. rewrite HeB2 in He. injection He as <-.
    apply Forall_forall. intros y Hy.
    assert (Hy1 : y < next_key pg1).
    { apply Hlt1. apply elem_of_cons in Hy as [->|Hy]; auto. }
    assert (Hnin : y ∉ key eB :: keys (children eB)).
    { apply elem_of_cons in Hy as [->|Hy].
      - rewrite HkA. now apply Forall_cons in DA as [? _].
      - apply HfrA in Hy. intros Hin.
        assert (y ∈ keys (document pg)) as Hd.
        { apply elem_of_cons in Hin as [->|Hin]; auto. }
        apply Hlt in Hd. lia. }
    apply not_elem_of_cons in Hnin as [Hne Hnin].
    destruct (HsecB2 y Hy1 Hnin) as [Hnin2 Hk2].
    rewrite not_elem_of_cons. split; [now rewrite Hk2 | exact Hnin2].
  - intros ul e Hul He. rewrite HlB in Hul. injection Hul as <-.
    rewrite HeA2 in He. injection He as <-.
    constructor.
    + rewrite HkB. now apply Forall_cons in DB1 as [? _].
    + apply Forall_forall. intros y Hy Hin. apply HfrB in Hy.
      assert (y ∈ keys (document pg1)) as Hd.
      { apply elem_of_cons in Hin as [->|Hin]; auto. }
      apply Hlt1 in Hd. lia.
Qed.

Lemma push_view (ps : loc) (prj : Project.t) (w : World) :
  owns ps w ->
  let w0 := push ps (new_Project prj w).1 (new_Project prj w).2 in
  view w0 (elements ps w0) = view w (elements ps w) ++ [prj].
Proof.
  intros Hok. pose proof Hok as [_ _ He _].
  destruct (push_new_spec ps prj w Hok) as (_ & Hel & Hobjs & _).
  cbn zeta in *. rewrite Hel. unfold view at 1. rewrite omap_app. f_equal.
  - apply (view_prefix w); [|exact He]. rewrite Hobjs. now apply prefix_app_r.
  - cbn [omap list_omap]. rewrite Hobjs. now rewrite list_lookup_middle.
Qed.

Lemma addProject_two_lists `{JsRuntime} (rnd title description : jsstring)
    (n : number) (st : ProjectState) (w : World) (thisA thisB : Component)
    (te r : Element) :
  store_ok st w ->
  listeners st = [ProjectList_listener active thisA;
                  ProjectList_listener finished thisB] ->
  lists_state thisA thisB te (page (heap w)) ->
  item_template te r ->
  (forall type, query (ById (listId type)) (children r) = None) ->
  Forall (fun prj => usable_id (Project.id prj)) (entities st w) ->
  usable_id rnd ->
  let res := addProject rnd title description n st w in
  let k := length (arrs (heap w)) in
  let snapshot := elements (projects st) w ++ [length (objs (heap w))] in
  let all := entities st w ++ [Project.mk rnd title description n Active] in
  res.2 = Normal
  /\ store_ok st res.1
  /\ entities st res.1 = all
  /\ map callee (calls res.1) = map callee (calls w) ++ listeners st
  /\ length (arrs (heap res.1)) = k + 4
  /\ elements k res.1 = snapshot
  /\ elements (k + 1) res.1 = relevantProjects active (heap res.1) snapshot
  /\ elements (k + 2) res.1 = snapshot
  /\ elements (k + 3) res.1 = relevantProjects finished (heap res.1) snapshot
  /\ shows all (page (heap res.1))
  /\ lists_state thisA thisB te (page (heap res.1)).
Proof.
  intros Hok Hls Hlists Htmpl Hrl Hids Hrnd.
  set (prj := Project.mk rnd title description n Active).
  pose proof (push_new_spec (projects st) prj w Hok) as Hpush.
  pose proof (push_view (projects st) prj w Hok) as Hview.
  change (addProject rnd title description n st w)
    with (notify (projects st) (listeners st)
            (push (projects st) (new_Project prj w).1 (new_Project prj w).2)).
  set (w0 := push (projects st) _ _) in *. cbn zeta in Hpush, Hview.
  destruct Hpush as (Hok0 & Hel0 & Hobjs0 & Hlen0 & _ & _ & Hcalls0 & _).
  assert (Hpage0 : page (heap w0) = page (heap w)) by reflexivity.
  fold (entities st w) in Hview.
  set (all := entities st w ++ [prj]) in *.
  assert (Hall : Forall (fun p => usable_id (Project.id p)) all).
  { apply Forall_app. split; [exact Hids|]. now constructor. }
  destruct (render_both thisA thisB te r
              (List.filter (isRelevant active) all)
              (List.filter (isRelevant finished) all) (page (heap w))
              Hlists Htmpl Hrl (Forall_filter_list _ _ _ Hall)
              (Forall_filter_list _ _ _ Hall))
    as (pg1 & pg2 & ulA & ulB & HrunA & HrunB & HulA & HtA & HiA & HulB & HtB & HiB
        & Hlists2).
  rewrite Hls. cbn [notify].
  pose proof (ProjectList_invoke (projects st) active thisA w0 Hok0) as IA.
  cbn zeta in IA.
  destruct (slice (projects st) w0) as [copy1 w1]. cbn [fst snd] in IA.
  destruct (invoke (ProjectList_listener active thisA) copy1 w1) as [w2 c1].
  cbn [fst snd] in IA.
  destruct IA as (Hok2 & Hel2 & Hobjs2 & Harrs2 & Hpage2 & Hc1 & Hcalls2).
  rewrite view_relevant, Hview, Hpage0, HrunA in Hc1, Hpage2.
  cbn [page_of] in Hpage2. subst c1.
  pose proof (ProjectList_invoke (projects st) finished thisB w2 Hok2) as IB.
  cbn zeta in IB.
  destruct (slice (projects st) w2) as [copy2 w3]. cbn [fst snd] in IB.
  destruct (invoke (ProjectList_listener finished thisB) copy2 w3) as [w4 c2].
  cbn [fst snd] in IB.
  destruct IB as (Hok4 & Hel4 & Hobjs4 & Harrs4 & Hpage4 & Hc2 & Hcalls4).
  rewrite (relevantProjects_objs finished (heap w0) (heap w2) _ Hobjs2) in Hc2, Hpage4, Harrs4.
  rewrite Hel2 in Hc2, Hpage4, Harrs4.
  rewrite (view_objs w0 w2 _ Hobjs2), view_relevant, Hview, Hpage2, HrunB in Hc2, Hpage4.
  cbn [page_of] in Hpage4. subst c2.
  cbn zeta. cbn [fst snd].
  assert (Hobjs : objs (heap w4) = objs (heap w0)) by congruence.
  assert (Hrel : forall type,
            relevantProjects type (heap w4) (elements (projects st) w0)
            = relevantProjects type (heap w0) (elements (projects st) w0)).
  { intros type. now apply relevantProjects_objs. }
  split; [reflexivity|]. split; [exact Hok4|].
  split.
  { unfold entities. rewrite Hel4, Hel2, (view_objs w0 w4 _ Hobjs). exact Hview. }
  split.
  { rewrite Hcalls4, Hcalls2, Hcalls0, !map_app. cbn [map callee].
    now rewrite <- app_assoc. }
  assert (Harr : arrs (heap w4)
                 = arrs (heap w0)
                   ++ [elements (projects st) w0;
                       relevantProjects active (heap w0) (elements (projects st) w0);
                       elements (projects st) w0;
                       relevantProjects finished (heap w0) (elements (projects st) w0)]).
  { rewrite Harrs4, Harrs2, <- app_assoc. reflexivity. }
  rewrite <- Hel0, <- Hlen0, !Hrel.
  split; [rewrite Harr, length_app; cbn [length]; lia|].
  split.
  { unfold elements at 1. rewrite Harr, lookup_app_r by lia.
    now rewrite Nat.sub_diag. }
  split.
  { unfold elements at 1. rewrite Harr, lookup_app_r by lia.
    now replace (length (arrs (heap w0)) + 1 - length (arrs (heap w0))) with 1 by lia. }
  split.
  { unfold elements at 1. rewrite Harr, lookup_app_r by lia.
    now replace (length (arrs (heap w0)) + 2 - length (arrs (heap w0))) with 2 by lia. }
  split.
  { unfold elements at 1. rewrite Harr, lookup_app_r by lia.
    now replace (length (arrs (heap w0)) + 3 - length (arrs (heap w0))) with 3 by lia. }
  rewrite Hpage4. split; [|exact Hlists2].
  intros [|]; eauto.
Qed.

(** [renderProjects] throws when the element of the list is missing, and
    when there is a project to show and the template of the items is
    missing. *)
Lemma renderProjects_fails `{JsRuntime} (type : ListType) (this : Component)
    (aasignedProjects : list Project.t) (pg : Page) :
  getElementById (listId type) (document pg) = None
  \/ (getElementById (u16 "single-project") (document pg) = None
      /\ aasignedProjects <> []) ->
  exists pg', ProjectList_renderProjects type this aasignedProjects pg = TypeError pg'.
Proof.
  intros [Hl | [Ht Hne]]; unfold ProjectList_renderProjects.
  - rewrite Hl. eauto.
  - destruct (getElementById (listId type) (document pg)) as [listEl|]; [|eauto].
    destruct aasignedProjects as [|prjItem rest]; [contradiction|].
    cbn [render_items document].
    destruct (query (ByKey (element this)) _) as [e|]; [|eauto].
    destruct (querySelector (ByTag "ul") e) as [ul|]; [|eauto].
    unfold ProjectItem_new, Component_new. cbn [document].
    rewrite getElementById_template in *.
    rewrite (query_modify_none _ (key listEl) clear_innerHTML _ Ht).
    + eauto.
    + apply shallow_keeps, shallow_clear_innerHTML.
    + intros e0 _. reflexivity.
Qed.

Lemma run_two_lists `{JsRuntime} (ops : list Op) (st : ProjectState) (w : World)
    (thisA thisB : Component) (te r : Element) :
  store_ok st w ->
  listeners st = [ProjectList_listener active thisA;
                  ProjectList_listener finished thisB] ->
  lists_state thisA thisB te (page (heap w)) ->
  item_template te r ->
  (forall type, query (ById (listId type)) (children r) = None) ->
  Forall (fun prj => usable_id (Project.id prj)) (entities st w) ->
  Forall usable_add ops ->
  shows (entities st w) (page (heap w)) ->
  let s' := run ops (st, w) in
  s'.1 = st
  /\ store_ok st s'.2
  /\ entities st s'.2 = entities st w ++ flat_map constructed ops
  /\ map callee (calls s'.2)
     = map callee (calls w) ++ concat (replicate (length ops) (listeners st))
  /\ shows (entities st s'.2) (page (heap s'.2))
  /\ lists_state thisA thisB te (page (heap s'.2)).
Proof.
  intros Hok Hls Hlists Htmpl Hrl Hids Hops. revert w Hok Hlists Hids.
  induction Hops as [|op rest Hop Hrest IH]; intros w Hok Hlists Hids Hshows.
  - cbn [run foldl fst snd flat_map length replicate concat].
    rewrite !app_nil_r. split; [reflexivity|]. split; [exact Hok|].
    split; [reflexivity|]. split; [reflexivity|]. split; assumption.
  - change (run (op :: rest) (st, w)) with (run rest (step (st, w) op)).
    destruct op as [f | rnd title description n | m]; try contradiction.
    cbn [usable_add] in Hop. cbn [step fst snd].
    destruct (addProject_two_lists rnd title description n st w thisA thisB te r
                Hok Hls Hlists Htmpl Hrl Hids Hop)
      as (_ & Hok' & Hent & Hcalls & _ & _ & _ & _ & _ & Hshows' & Hlists').
    cbn zeta in *. rewrite <- Hent in Hshows'.
    destruct (IH _ Hok' Hlists') as (Hst & Hok'' & Hent' & Hcalls' & Hsh & Hl); auto.
    { rewrite Hent. apply Forall_app. split; [exact Hids|]. now constructor. }
    cbn zeta in *. split; [exact Hst|]. split; [exact Hok''|].
    split; [rewrite Hent', Hent; cbn [flat_map constructed]; now rewrite <- app_assoc|].
    split; [|split; assumption].
    rewrite Hcalls', Hcalls. cbn [length replicate concat]. now rewrite <- app_assoc.
Qed.

(** X13: what one [addProject] does with the two lists.  On a store with
    the callbacks of the "active" and the "finished " list, in that order,
    and a page in which both lists can render (each [ul] is found by its
    id under the element of its component, the template of the items is in
    place, the lists are apart), the ids being ones that an item can take,
    both callbacks return.  Four arrays are allocated: the copy passed to
    the first callback, the array it assigns (the filter of that copy by
    Active), the copy passed to the second, and the array it assigns (the
    filter by Finished).  Each list then shows, in the order of the store,
    the projects of the full new collection that have its status, whatever
    it showed before, and the page is again one in which both lists can
    render. *)
Theorem project_lists_assignment `{JsRuntime} (rnd title description : jsstring)
    (n : number) (st : ProjectState) (w : World) (thisA thisB : Component)
    (te r : Element) :
  store_ok st w ->
  listeners st = [ProjectList_listener active thisA;
                  ProjectList_listener finished thisB] ->
  lists_state thisA thisB te (page (heap w)) ->
  item_template te r ->
  (forall type, query (ById (listId type)) (children r) = None) ->
  Forall (fun prj => usable_id (Project.id prj)) (entities st w) ->
  usable_id rnd ->
  let res := addProject rnd title description n st w in
  let k := length (arrs (heap w)) in
  let snapshot := elements (projects st) w ++ [length (objs (heap w))] in
  let all := entities st w ++ [Project.mk rnd title description n Active] in
  res.2 = Normal
  /\ store_ok st res.1
  /\ entities st res.1 = all
  /\ map callee (calls res.1) = map callee (calls w) ++ listeners st
  /\ length (arrs (heap res.1)) = k + 4
  /\ elements k res.1 = snapshot
  /\ elements (k + 1) res.1 = relevantProjects active (heap res.1) snapshot
  /\ elements (k + 2) res.1 = snapshot
  /\ elements (k + 3) res.1 = relevantProjects finished (heap res.1) snapshot
  /\ shows all (page (heap res.1))
  /\ lists_state thisA thisB te (page (heap res.1)).
Proof. apply addProject_two_lists. Qed.

Lemma usable_05 : usable_id (u16 "0.5").
Proof. split; [discriminate|]. split; [discriminate|]. intros []; discriminate. Qed.

Lemma startup_lists_state (rt : JsRuntime) :
  lists_state (component_of activeProjectList) (component_of finishedProjectList)
    item_te (page (heap (startup rt).2)).
Proof.
  exists Empty, Empty.
  assert (Hok : page_ok (page (heap (startup rt).2))).
  { split; refine (bool_decide_unpack _ _); vm_compute; exact I. }
  split; [|split; [|split; [|split; [|split]]]].
  - split; [exact Hok|]. split; [reflexivity|]. split; [reflexivity|].
    eexists _, _. repeat split; vm_compute; reflexivity.
  - split; [exact Hok|]. split; [reflexivity|]. split; [reflexivity|].
    eexists _, _. repeat split; vm_compute; reflexivity.
  - reflexivity.
  - reflexivity.
  - intros ul e Hul He. vm_compute in Hul, He.
    injection Hul as <-. injection He as <-.
    refine (bool_decide_unpack _ _); vm_compute; exact I.
  - intros ul e Hul He. vm_compute in Hul, He.
    injection Hul as <-. injection He as <-.
    refine (bool_decide_unpack _ _); vm_compute; exact I.
Qed.

Lemma item_template_clean (type : ListType) :
  query (ById (listId type)) (children item_li) = None.
Proof. now destruct type. Qed.

Lemma project_lists_assignment_witness :
  let res := addProject (u16 "0.5") (u16 "Build API") (u16 "Design the service")
               (of_Z 3) (startup example_runtime).1 (startup example_runtime).2 in
  res.2 = Normal
  /\ length (calls res.1) = 2
  /\ exists ul,
       getElementById (listId active) (document (page (heap res.1))) = Some ul
       /\ map item_texts (roots (children ul))
          = [Some (mkItemText (u16 "Build API") (u16 "3 personsPersons assingend.")
                     (u16 "Design the service"))]
       /\ map eid (roots (children ul)) = [u16 "0.5"].
Proof.
  destruct (@project_lists_assignment example_runtime (u16 "0.5") (u16 "Build API")
              (u16 "Design the service") (of_Z 3)
              (startup example_runtime).1 (startup example_runtime).2
              (component_of activeProjectList) (component_of finishedProjectList)
              item_te item_li (startup_ok example_runtime) eq_refl
              (startup_lists_state example_runtime) index_item_template
              item_template_clean)
    as (Hn & _ & _ & Hcalls & _ & _ & _ & _ & _ & Hshows & _).
  - constructor.
  - exact usable_05.
  - cbn zeta in *. split; [exact Hn|].
    split; [rewrite <- (length_map callee), Hcalls; reflexivity|].
    destruct (Hshows active) as (ul & Hul & Ht & Hi).
    exists ul. split; [exact Hul|]. split; [exact Ht | exact Hi].
Defined.

(** X20: the lists follow the store.  From a store with the callbacks of
    the two lists and a page in which both can render, along any
    non-empty sequence of [addProject] calls whose draws are ids that an
    item can take, every callback returns at every call (two invocations
    per call, in the order of registration), the collection of the store is
    the former one followed by the projects added, and at the end each list
    shows exactly the projects of that collection that have its status, in
    the order of the store. *)
Theorem lists_follow_the_store `{JsRuntime} (ops : list Op) (st : ProjectState)
    (w : World) (thisA thisB : Component) (te r : Element) :
  store_ok st w ->
  listeners st = [ProjectList_listener active thisA;
                  ProjectList_listener finished thisB] ->
  lists_state thisA thisB te (page (heap w)) ->
  item_template te r ->
  (forall type, query (ById (listId type)) (children r) = None) ->
  Forall (fun prj => usable_id (Project.id prj)) (entities st w) ->
  Forall usable_add ops ->
  ops <> [] ->
  let s' := run ops (st, w) in
  entities st s'.2 = entities st w ++ flat_map constructed ops
  /\ map callee (calls s'.2)
     = map callee (calls w) ++ concat (replicate (length ops) (listeners st))
  /\ shows (entities st s'.2) (page (heap s'.2))
  /\ lists_state thisA thisB te (page (heap s'.2)).
Proof.
  intros Hok Hls Hlists Htmpl Hrl Hids Hops Hne.
  destruct ops as [|op rest]; [contradiction|].
  apply Forall_cons in Hops as [Hop Hrest].
  change (run (op :: rest) (st, w)) with (run rest (step (st, w) op)).
  destruct op as [f | rnd title description n | m]; try contradiction.
  cbn [usable_add] in Hop. cbn [step fst snd].
  destruct (addProject_two_lists rnd title description n st w thisA thisB te r
              Hok Hls Hlists Htmpl Hrl Hids Hop)
    as (_ & Hok' & Hent & Hcalls & _ & _ & _ & _ & _ & Hshows' & Hlists').
  cbn zeta in *. rewrite <- Hent in Hshows'.
  destruct (run_two_lists rest st _ thisA thisB te r Hok' Hls Hlists' Htmpl Hrl)
    as (_ & _ & Hent' & Hcalls' & Hsh & Hl); auto.
  { rewrite Hent. apply Forall_app. split; [exact Hids|]. now constructor. }
  cbn zeta in *.
  split; [rewrite Hent', Hent; cbn [flat_map constructed]; now rewrite <- app_assoc|].
  split; [|split; assumption].
  rewrite Hcalls', Hcalls. cbn [length replicate concat]. now rewrite <- app_assoc.
Qed.

Lemma omap_of_map_Some {A B C} (f : A -> option B) (g : C -> B) (l : list A)
    (L : list C) :
  map f l = map (fun x => Some (g x)) L -> omap f l = map g L.
Proof.
  revert L. induction l as [|a l IH]; intros [|c L] Hl; try discriminate;
    [reflexivity|].
  cbn [map] in Hl. injection Hl as Ha Hl. cbn [omap list_omap map].
  rewrite Ha. cbn. now rewrite (IH L).
Qed.

Lemma usable_025 : usable_id (u16 "0.25").
Proof. split; [discriminate|]. split; [discriminate|]. intros []; discriminate. Qed.

Lemma usable_075 : usable_id (u16 "0.75").
Proof. split; [discriminate|]. split; [discriminate|]. intros []; discriminate. Qed.

Lemma lists_follow_the_store_witness :
  let ops := [AddProject (u16 "0.25") (u16 "Build API") (u16 "Design the service")
                (of_Z 3);
              AddProject (u16 "0.75") (u16 "Write docs") (u16 "Explain the service")
                (of_Z 1)] in
  let s' := run ops (startup example_runtime) in
  length (calls s'.2) = 4
  /\ exists ulA ulB,
       getElementById (listId active) (document (page (heap s'.2))) = Some ulA
       /\ map eid (roots (children ulA)) = [u16 "0.25"; u16 "0.75"]
       /\ omap item_texts (roots (children ulA))
          = [mkItemText (u16 "Build API") (u16 "3 personsPersons assingend.")
               (u16 "Design the service");
             mkItemText (u16 "Write docs") (u16 "1 PersonPersons assingend.")
               (u16 "Explain the service")]
       /\ getElementById (listId finished) (document (page (heap s'.2))) = Some ulB
       /\ roots (children ulB) = [].
Proof.
  destruct (@lists_follow_the_store example_runtime
              [AddProject (u16 "0.25") (u16 "Build API") (u16 "Design the service")
                 (of_Z 3);
               AddProject (u16 "0.75") (u16 "Write docs") (u16 "Explain the service")
                 (of_Z 1)]
              (startup example_runtime).1 (startup example_runtime).2
              (component_of activeProjectList) (component_of finishedProjectList)
              item_te item_li (startup_ok example_runtime) eq_refl
              (startup_lists_state example_runtime) index_item_template
              item_template_clean)
    as (Hent & Hcalls & Hshows & _).
  - constructor.
  - constructor; [exact usable_025|]. constructor; [exact usable_075|]. constructor.
  - discriminate.
  - cbn zeta in *.
    change ((startup example_runtime).1, (startup example_runtime).2)
      with (startup example_runtime) in Hent, Hcalls, Hshows.
    split; [rewrite <- (length_map callee), Hcalls; reflexivity|].
    destruct (Hshows active) as (ulA & HulA & HtA & HiA).
    destruct (Hshows finished) as (ulB & HulB & HtB & HiB).
    rewrite Hent in HtA, HiA, HtB, HiB.
    exists ulA, ulB. split; [exact HulA|]. split; [exact HiA|].
    split.
    { rewrite (omap_of_map_Some _ _ _ _ HtA). reflexivity. }
    split; [exact HulB|].
    destruct (roots (children ulB)); [reflexivity | discriminate].
Defined.

(** X21: a page without the element of the "active" list, or without the
    template of the items, ends the notification at the first callback.
    [addProject] throws; the project is in the store all the same; the
    callback of the "active" list is the only one invoked, the "finished "
    list is not notified; two arrays are allocated instead of four. *)
Theorem missing_element_stops_notification `{JsRuntime}
    (rnd title description : jsstring) (n : number) (st : ProjectState) (w : World)
    (thisA thisB : Component) :
  store_ok st w ->
  listeners st = [ProjectList_listener active thisA;
                  ProjectList_listener finished thisB] ->
  getElementById (listId active) (document (page (heap w))) = None
  \/ getElementById (u16 "single-project") (document (page (heap w))) = None ->
  let res := addProject rnd title description n st w in
  res.2 = Throw
  /\ entities st res.1 = entities st w ++ [Project.mk rnd title description n Active]
  /\ map callee (calls res.1)
     = map callee (calls w) ++ [ProjectList_listener active thisA]
  /\ length (arrs (heap res.1)) = length (arrs (heap w)) + 2.
Proof.
  intros Hok Hls Hmiss.
  set (prj := Project.mk rnd title description n Active).
  assert (Hent : entities st (addProject rnd title description n st w).1
                 = entities st w ++ [prj]).
  { apply addProject_entities; [exact Hok|]. rewrite Hls.
    repeat constructor; apply ProjectList_listener_keeps_fields. }
  revert Hent.
  pose proof (push_new_spec (projects st) prj w Hok) as Hpush.
  pose proof (push_view (projects st) prj w Hok) as Hview.
  change (addProject rnd title description n st w)
    with (notify (projects st) (listeners st)
            (push (projects st) (new_Project prj w).1 (new_Project prj w).2)).
  set (w0 := push (projects st) _ _) in *. cbn zeta in Hpush, Hview.
  destruct Hpush as (Hok0 & Hel0 & Hobjs0 & Hlen0 & _ & _ & Hcalls0 & _).
  assert (Hpage0 : page (heap w0) = page (heap w)) by reflexivity.
  fold (entities st w) in Hview.
  destruct (renderProjects_fails active thisA
              (List.filter (isRelevant active) (entities st w ++ [prj]))
              (page (heap w))) as (pg' & Hfail).
  { destruct Hmiss as [Hl|Ht]; [now left | right]. split; [exact Ht|].
    rewrite List.filter_app. cbn [List.filter isRelevant prj Project.status
      ProjectStatus_eqb]. now destruct (List.filter _ (entities st w)). }
  rewrite Hls. cbn [notify].
  pose proof (ProjectList_invoke (projects st) active thisA w0 Hok0) as IA.
  cbn zeta in IA.
  destruct (slice (projects st) w0) as [copy1 w1]. cbn [fst snd] in IA.
  destruct (invoke (ProjectList_listener active thisA) copy1 w1) as [w2 c1].
  cbn [fst snd] in IA.
  destruct IA as (Hok2 & Hel2 & Hobjs2 & Harrs2 & Hpage2 & Hc1 & Hcalls2).
  rewrite view_relevant, Hview, Hpage0, Hfail in Hc1. subst c1.
  cbn zeta. cbn [fst snd]. intros Hent.
  split; [reflexivity|]. split; [exact Hent|].
  split; [rewrite Hcalls2, Hcalls0, map_app; reflexivity|].
  rewrite Harrs2, length_app, Hlen0. reflexivity.
Qed.

Lemma missing_element_stops_notification_witness :
  let st := (startup example_runtime).1 in
  let w := (new_ProjectState empty_World).2 in
  let res := addProject (u16 "0.5") (u16 "Build API") (u16 "Design the service")
               (of_Z 3) st w in
  getElementById (listId active) (document (page (heap w))) = None
  /\ res.2 = Throw
  /\ length (calls res.1) = 1
  /\ entities st res.1
     = [Project.mk (u16 "0.5") (u16 "Build API") (u16 "Design the service")
          (of_Z 3) Active].
Proof.
  destruct (@missing_element_stops_notification example_runtime (u16 "0.5")
              (u16 "Build API") (u16 "Design the service") (of_Z 3)
              (startup example_runtime).1 (new_ProjectState empty_World).2
              (component_of activeProjectList) (component_of finishedProjectList))
    as (Ht & Hent & Hcalls & _).
  - exact (fresh_store_ok [_; _]).
  - reflexivity.
  - left. reflexivity.
  - cbn zeta in *. split; [reflexivity|]. split; [exact Ht|].
    split; [rewrite <- (length_map callee), Hcalls; reflexivity | exact Hent].
Defined.
